(** * lyrics-sync: the lyrics parser, the playback synchronizer and the
      content-hash registry

    A shallow embedding of [parseLyrics], [calculateFileHash],
    [findDuplicateFile], [registerFile] and [initializeFileHashes] of the
    server, and of [KaraokePlayer.updateLyrics] of the player; and then
    of the names given to the stored files, of the file filter, of the
    handler of [POST /upload], of the controls of the player, of
    [extractSongName], of the loop of [updateTextScale], and of
    [LyricsSync.validateFile] and [LyricsSync.updateLyrics] of the
    upload page.

    JavaScript numbers are IEEE 754 binary64 values: they are modelled by
    Rocq's primitive [float]s, whose operations are specified by
    [FloatAxioms] over [SpecFloat].  JavaScript strings are modelled by
    [string]; a character is a code unit below 256, so the white space
    of [trim] and of the regular expression class [\s] is TAB, LF, VT,
    FF, CR, SP and NBSP.  The [Map] of the registry is a [gmap]. *)

From Stdlib Require Import ZArith Lia Bool List String Ascii Sorted.
From Stdlib Require Import Floats.
From stdpp Require Import base option list gmap strings.

Local Open Scope string_scope.
Local Open Scope Z_scope.

(** ** Built-in operations of the language *)

Module JS.

(** *** Characters and strings *)

Definition code (c : ascii) : Z := Z.of_N (N_of_ascii c).

(** WhiteSpace and LineTerminator code units (below 256). *)
Definition is_space (c : ascii) : bool :=
  existsb (Z.eqb (code c)) [9; 10; 11; 12; 13; 32; 160].

(** Line terminators, which [.] of a regular expression does not match. *)
Definition is_line_terminator (c : ascii) : bool :=
  existsb (Z.eqb (code c)) [10; 13].

Definition is_digit (c : ascii) : bool :=
  (48 <=? code c) && (code c <=? 57).

Definition digit_value (c : ascii) : Z := code c - 48.

Definition is_hex_digit (c : ascii) : bool :=
  is_digit c || ((65 <=? code c) && (code c <=? 70))
             || ((97 <=? code c) && (code c <=? 102)).

Definition hex_digit_value (c : ascii) : Z :=
  if is_digit c then code c - 48
  else if code c <=? 70 then code c - 55 else code c - 87.

Definition is_empty (s : string) : bool :=
  match s with EmptyString => true | String _ _ => false end.

(** [String.prototype.trimStart], [trimEnd] and [trim]. *)
Fixpoint trimStart (s : string) : string :=
  match s with
  | EmptyString => EmptyString
  | String c s' => if is_space c then trimStart s' else s
  end.

Fixpoint trimEnd (s : string) : string :=
  match s with
  | EmptyString => EmptyString
  | String c s' =>
      match trimEnd s' with
      | EmptyString => if is_space c then EmptyString else String c EmptyString
      | t => String c t
      end
  end.

Definition trim (s : string) : string := trimEnd (trimStart s).

(** [s.split('\n')]: the pieces between line feeds; never empty. *)
Fixpoint split_newline (s : string) : list string :=
  match s with
  | EmptyString => [EmptyString]
  | String c s' =>
      if (code c =? 10)%Z then EmptyString :: split_newline s'
      else match split_newline s' with
           | l :: ls => String c l :: ls
           | [] => [String c EmptyString]
           end
  end.

(** [s.split(/\s+/)]: the pieces between maximal runs of white space.
    [cur] is the piece being read and [insep] tells that the previous
    character belonged to a separator. *)
Fixpoint split_ws_from (s : string) (cur : string) (insep : bool) : list string :=
  match s with
  | EmptyString => [cur]
  | String c s' =>
      if is_space c then
        if insep then split_ws_from s' EmptyString true
        else cur :: split_ws_from s' EmptyString true
      else split_ws_from s' (cur ++ String c EmptyString) false
  end.

Definition split_ws (s : string) : list string := split_ws_from s EmptyString false.

(** [parts.join(' ')]. *)
Fixpoint join_space (parts : list string) : string :=
  match parts with
  | [] => EmptyString
  | [p] => p
  | p :: ps => p ++ " " ++ join_space ps
  end.

(** The longest prefix of characters satisfying [p], and what follows. *)
Fixpoint span (p : ascii -> bool) (s : string) : string * string :=
  match s with
  | EmptyString => (EmptyString, EmptyString)
  | String c s' =>
      if p c then let (a, b) := span p s' in (String c a, b)
      else (EmptyString, s)
  end.

(** Every character of [s] satisfies [p]. *)
Fixpoint string_forall (p : ascii -> bool) (s : string) : bool :=
  match s with
  | EmptyString => true
  | String c s' => p c && string_forall p s'
  end.

(** A piece of a line between white space: not empty, and with no
    white space in it. *)
Definition token (t : string) : Prop :=
  t <> EmptyString /\ string_forall (fun c => negb (is_space c)) t = true.

Definition starts_nonspace (s : string) : Prop :=
  match s with
  | String c _ => is_space c = false
  | EmptyString => False
  end.

(** What follows the character [c] at the start of [s], when it is there. *)
Definition expect (c : ascii) (s : string) : option string :=
  match s with
  | String c' r => if Ascii.eqb c c' then Some r else None
  | EmptyString => None
  end.

(** *** Numbers *)

(** The Number value of a non-negative mathematical integer: the
    nearest binary64 value, ties to even, infinity on overflow. *)
Definition Z2F (z : Z) : float :=
  SF2Prim (binary_normalize prec emax z 0 false).

(** The Number value of [m * 10 ^ e] for a mathematical integer
    [0 <= m], correctly rounded. *)
Definition dec2F (m e : Z) : float :=
  if 0 <=? e then Z2F (m * 10 ^ e)
  else if m =? 0 then zero
  else
    let '(q, e', l) := SFdiv_core_binary prec emax m 0 (10 ^ (- e)) 0 in
    SF2Prim (binary_round_aux prec emax false q e' l).

(** The value of a string of digits in the given radix. *)
Fixpoint digits_value_from (radix : Z) (dv : ascii -> Z) (acc : Z) (s : string) : Z :=
  match s with
  | EmptyString => acc
  | String c s' => digits_value_from radix dv (acc * radix + dv c) s'
  end.

Definition decimal_value (s : string) : Z := digits_value_from 10 digit_value 0 s.
Definition hex_value (s : string) : Z := digits_value_from 16 hex_digit_value 0 s.

Definition strip_sign (s : string) : bool * string :=
  match s with
  | String c r =>
      if Ascii.eqb c "-" then (true, r)
      else if Ascii.eqb c "+" then (false, r)
      else (false, s)
  | EmptyString => (false, s)
  end.

Definition with_sign (neg : bool) (v : float) : float :=
  if neg then (- v)%float else v.

(** What follows a [0x] or [0X] prefix, when there is one. *)
Definition strip_hex_prefix (s : string) : option string :=
  match s with
  | String c0 (String c1 r) =>
      if Ascii.eqb c0 "0" && (Ascii.eqb c1 "x" || Ascii.eqb c1 "X")
      then Some r else None
  | _ => None
  end.

(** [parseInt(s)] with no radix argument: leading white space, a sign,
    a [0x] prefix, then the longest prefix of digits; [NaN] when that
    prefix is empty. *)
Definition parseInt (s : string) : float :=
  let (neg, s1) := strip_sign (trimStart s) in
  let (ds, v) :=
    match strip_hex_prefix s1 with
    | Some r => let ds := fst (span is_hex_digit r) in (ds, hex_value ds)
    | None => let ds := fst (span is_digit s1) in (ds, decimal_value ds)
    end in
  if is_empty ds then nan else with_sign neg (Z2F v).

(** The exponent part [e|E (+|-)? digits] of a decimal literal: its
    value, or [0] when what follows is no exponent part. *)
Definition exponent_part (s : string) : Z :=
  match s with
  | String c r =>
      if Ascii.eqb c "e" || Ascii.eqb c "E" then
        let (neg, r') := strip_sign r in
        let (ds, _) := span is_digit r' in
        if is_empty ds then 0
        else if neg then - decimal_value ds else decimal_value ds
      else 0
  | EmptyString => 0
  end.

Definition starts_with_Infinity (s : string) : bool :=
  String.prefix "Infinity" s.

(** [parseFloat(s)]: the Number value of the longest prefix of the
    trimmed string that is a StrDecimalLiteral; [NaN] when there is
    none. *)
Definition parseFloat (s : string) : float :=
  let (neg, s1) := strip_sign (trimStart s) in
  if starts_with_Infinity s1 then with_sign neg infinity
  else
    let (ip, r1) := span is_digit s1 in
    let (fp, r2) :=
      match expect "." r1 with
      | Some r => span is_digit r
      | None => (EmptyString, r1)
      end in
    if is_empty ip && is_empty fp then nan
    else
      with_sign neg
        (dec2F (decimal_value (ip ++ fp))
               (exponent_part r2 - Z.of_nat (String.length fp))).

Definition isNaN (x : float) : bool := negb (x =? x)%float.

(** [a >= b] on numbers. *)
Definition ge (a b : float) : bool := (b <=? a)%float.

(** *** [Array.prototype.sort]

    The sort is stable, and for a consistent comparison function its
    result is the one ordering that is sorted and stable; insertion
    from the right computes it.  [SortCompare] reads a [NaN] returned
    by the comparison function as [+0], so an element moves behind
    its neighbour exactly when the comparison is greater than zero. *)
Section Sort.
Context {A : Type} (comparefn : A -> A -> float).

Definition sorts_after (x y : A) : bool := (0 <? comparefn x y)%float.

Fixpoint sort_insert (x : A) (l : list A) : list A :=
  match l with
  | [] => [x]
  | y :: l' => if sorts_after x y then y :: sort_insert x l' else x :: l
  end.

Definition sort (l : list A) : list A := foldr sort_insert [] l.
End Sort.

(** *** Completions: a value, or a thrown error *)

Inductive completion (A : Type) : Type :=
| Return (a : A)
| Throw (e : string).
Arguments Return {A} a.
Arguments Throw {A} e.

(** [try { body } catch (error) { handler }]. *)
Definition try_catch {A} (body : completion A) (handler : string -> completion A) : completion A :=
  match body with
  | Return a => Return a
  | Throw e => handler e
  end.

(** A value is falsy when it is [null] or the empty string. *)
Definition truthy (v : option string) : bool :=
  match v with
  | Some s => negb (is_empty s)
  | None => false
  end.

End JS.

(** ** Non-negative numbers and their order *)

Module Num.

(** A number that is not [NaN] and not below zero ([-0] included). *)
Definition SFnonneg (x : spec_float) : bool :=
  match x with
  | S754_nan => false
  | S754_zero _ => true
  | S754_infinity s | S754_finite s _ _ => negb s
  end.

(** A number that is not [NaN] and has the sign bit [s]. *)
Definition SFsigned (s : bool) (x : spec_float) : Prop :=
  match x with
  | S754_nan => False
  | S754_zero s' | S754_infinity s' | S754_finite s' _ _ => s' = s
  end.

Definition SFnonzero (x : spec_float) : Prop :=
  match x with
  | S754_infinity _ | S754_finite _ _ _ => True
  | _ => False
  end.

(** The position of a number on the integer scale of the multiples of
    the least positive number; infinity comes after all finite ones. *)
Definition ord (x : spec_float) : Z :=
  match x with
  | S754_zero _ | S754_nan => 0
  | S754_infinity s => cond_Zopp s (2 ^ (emax - emin))
  | S754_finite s m e => cond_Zopp s (Z.pos m * 2 ^ (e - emin))
  end.

Definition nonneg (t : float) : Prop := (0 <=? t)%float = true.

Definition ordF (t : float) : Z := ord (Prim2SF t).

End Num.

(** ** The server: lyrics parser and file-hash registry *)

Module Server.
Import JS.

(** *** [parseLyrics] *)

Record LyricLine := {
  timestamp : float;
  text : string;
  lineNumber : nat
}.

(** The four capture groups of [lrcRegex]. *)
Record lrc_groups := {
  group1 : string;
  group2 : string;
  group3 : string;
  group4 : string
}.

(** A group of digits: as many digits as there are, and at least one.  What
    follows in the pattern is never a digit, so giving digits back
    cannot make a failed match succeed. *)
Definition digits1 (s : string) : option (string * string) :=
  let (ds, r) := span is_digit s in
  if is_empty ds then None else Some (ds, r).

(** [lrcRegex] after its opening bracket: the groups of digits for
    minutes, seconds and the fraction with a colon and a dot between
    them, a closing bracket, any white space, and as group 4 the
    characters up to the next line terminator.  After the closing
    bracket both repetitions take all they can and cannot fail. *)
Definition tag_body (r0 : string) : option lrc_groups :=
  '(m, r1) ← digits1 r0;
  r2 ← expect ":" r1;
  '(sec, r3) ← digits1 r2;
  r4 ← expect "." r3;
  '(frac, r5) ← digits1 r4;
  r6 ← expect "]" r5;
  Some {| group1 := m; group2 := sec; group3 := frac;
          group4 := fst (span (fun c => negb (is_line_terminator c))
                              (snd (span is_space r6))) |}.

(** [lrcRegex] matched at the start of [s]. *)
Definition lrcRegex_at (s : string) : option lrc_groups :=
  r0 ← expect "[" s;
  tag_body r0.

(** [line.match(lrcRegex)]: the match at the leftmost position where
    there is one, [None] for [null]. *)
Fixpoint lrcRegex_match (line : string) : option lrc_groups :=
  match lrcRegex_at line with
  | Some g => Some g
  | None =>
      match line with
      | EmptyString => None
      | String _ rest => lrcRegex_match rest
      end
  end.

(** The body of the first loop for a line that matched. *)
Definition lrc_timestamp (g : lrc_groups) : float :=
  let minutes := parseInt (group1 g) in
  let seconds := parseInt (group2 g) in
  let milliseconds := parseInt (group3 g) in
  (minutes * 60 + seconds + milliseconds / 100)%float.

(** The first loop, from index [i] on: the flag [hasLrcFormat] and the
    array [lyrics] are the loop's state. *)
Fixpoint lrc_loop (lines : list string) (i : nat)
    (hasLrcFormat : bool) (lyrics : list LyricLine) : bool * list LyricLine :=
  match lines with
  | [] => (hasLrcFormat, lyrics)
  | raw :: rest =>
      let line := trim raw in
      if is_empty line then lrc_loop rest (S i) hasLrcFormat lyrics
      else
        match lrcRegex_match line with
        | Some g =>
            let text := trim (group4 g) in
            let timestamp := lrc_timestamp g in
            if negb (is_empty text) then
              lrc_loop rest (S i) true
                (lyrics ++ [ {| timestamp := timestamp; text := text;
                                lineNumber := S i |} ])
            else lrc_loop rest (S i) true lyrics
        | None => lrc_loop rest (S i) hasLrcFormat lyrics
        end
  end.

(** The second loop, run when no line had the tag format. *)
Fixpoint plain_loop (lines : list string) (i : nat)
    (lyrics : list LyricLine) : list LyricLine :=
  match lines with
  | [] => lyrics
  | raw :: rest =>
      let line := trim raw in
      if is_empty line then plain_loop rest (S i) lyrics
      else
        let parts := split_ws line in
        if (2 <=? length parts)%nat then
          let timestamp := parseFloat (hd EmptyString parts) in
          if negb (isNaN timestamp) && ge timestamp 0 then
            let text := join_space (tl parts) in
            plain_loop rest (S i)
              (lyrics ++ [ {| timestamp := timestamp; text := text;
                              lineNumber := S i |} ])
          else plain_loop rest (S i) lyrics
        else plain_loop rest (S i) lyrics
  end.

(** [(a, b) => a.timestamp - b.timestamp] *)
Definition by_timestamp (a b : LyricLine) : float :=
  (timestamp a - timestamp b)%float.

Definition parseLyrics (content : string) : list LyricLine :=
  let lines := split_newline content in
  let (hasLrcFormat, lyrics) := lrc_loop lines 0 false [] in
  let lyrics :=
    if negb hasLrcFormat then plain_loop lines 0 lyrics else lyrics in
  sort by_timestamp lyrics.

(** *** What the loops do for one line

    [lrc_line] is what the first loop pushes for the line [raw] of
    index [i], [has_tag] whether the line sets [hasLrcFormat], and
    [plain_line] what the second loop pushes. *)
Definition lrc_line (i : nat) (raw : string) : option LyricLine :=
  match lrcRegex_match (trim raw) with
  | Some g =>
      let text := trim (group4 g) in
      if is_empty text then None
      else Some {| timestamp := lrc_timestamp g; text := text; lineNumber := S i |}
  | None => None
  end.

Definition has_tag (raw : string) : bool :=
  match lrcRegex_match (trim raw) with
  | Some _ => true
  | None => false
  end.

Definition plain_line (i : nat) (raw : string) : option LyricLine :=
  let line := trim raw in
  if is_empty line then None
  else
    let parts := split_ws line in
    if (2 <=? length parts)%nat then
      let timestamp := parseFloat (hd EmptyString parts) in
      if negb (isNaN timestamp) && ge timestamp 0 then
        Some {| timestamp := timestamp; text := join_space (tl parts);
                lineNumber := S i |}
      else None
    else None.

(** The records that [f] gives for the lines, from index [i] on, in
    the order of the lines. *)
Fixpoint collect (f : nat -> string -> option LyricLine)
    (lines : list string) (i : nat) : list LyricLine :=
  match lines with
  | [] => []
  | raw :: rest =>
      match f i raw with
      | Some r => r :: collect f rest (S i)
      | None => collect f rest (S i)
      end
  end.

(** A group of digits, as the pattern captures them. *)
Definition digit_group (ds : string) : Prop :=
  ds <> EmptyString /\ string_forall is_digit ds = true.

Definition ts_nonneg (r : LyricLine) : Prop := Num.nonneg (timestamp r).

Definition line_lt (a b : LyricLine) : Prop := (lineNumber a < lineNumber b)%nat.

(** The order of the result: ascending timestamps, and source order
    among equal timestamps. *)
Definition in_order (a b : LyricLine) : Prop :=
  (timestamp a <=? timestamp b)%float = true
  /\ ((timestamp a =? timestamp b)%float = true -> (lineNumber a < lineNumber b)%nat).

(** *** The registry of file hashes *)

Record FileInfo := {
  filename : string;
  originalName : string;
  uploadDate : string;
  hash : string
}.

Record Stats := {
  isFile : bool;
  mtime : string
}.

(** What the server reads of the file system. *)
Record FileSystem := {
  existsSync : string -> bool;
  readFileSync : string -> completion string;
  statSync : string -> completion Stats;
  readdirSync : string -> completion (list string)
}.

(** [path.basename] and [path.join] for a directory and a file name
    (POSIX). *)
Fixpoint basename_from (s : string) (cur last : string) : string :=
  match s with
  | EmptyString => if is_empty cur then last else cur
  | String c s' =>
      if Ascii.eqb c "/" then basename_from s' EmptyString (if is_empty cur then last else cur)
      else basename_from s' (cur ++ String c EmptyString) last
  end.

Definition basename (p : string) : string := basename_from p EmptyString EmptyString.

Definition join (dir file : string) : string := dir ++ "/" ++ file.

Section Registry.
(** The SHA-256 digest of a buffer in hexadecimal, the file system
    and the directory of the uploads. *)
Variable sha256_hex : string -> string.
Variable fs : FileSystem.
Variable uploadsDir : string.

Definition calculateFileHash (filePath : string) : completion (option string) :=
  try_catch
    (match readFileSync fs filePath with
     | Return fileBuffer => Return (Some (sha256_hex fileBuffer))
     | Throw e => Throw e
     end)
    (fun _ => Return None).

(** [fileHashes] is read, not written. *)
Definition findDuplicateFile (fileHashes : gmap string FileInfo)
    (filePath : string) : completion (option FileInfo) :=
  match calculateFileHash filePath with
  | Throw e => Throw e
  | Return hash =>
      if negb (truthy hash) then Return None
      else
        match fileHashes !! default EmptyString hash with
        | Some existingFile => Return (Some existingFile)
        | None => Return None
        end
  end.

(** [now] is [new Date().toISOString()]; the result comes with the
    registry after the call. *)
Definition registerFile (fileHashes : gmap string FileInfo)
    (filePath originalName now : string)
    : completion (option FileInfo) * gmap string FileInfo :=
  match calculateFileHash filePath with
  | Throw e => (Throw e, fileHashes)
  | Return hash =>
      if negb (truthy hash) then (Return None, fileHashes)
      else
        let hash := default EmptyString hash in
        let fileInfo := {| filename := basename filePath;
                           originalName := originalName;
                           uploadDate := now;
                           hash := hash |} in
        (Return (Some fileInfo), <[hash := fileInfo]> fileHashes)
  end.

(** The loop over the directory entries, inside the [try] block. *)
Fixpoint load_loop (files : list string) (fileHashes : gmap string FileInfo)
    (registeredCount : nat) : completion nat * gmap string FileInfo :=
  match files with
  | [] => (Return registeredCount, fileHashes)
  | file :: rest =>
      let filePath := join uploadsDir file in
      match statSync fs filePath with
      | Throw e => (Throw e, fileHashes)
      | Return stats =>
          if isFile stats then
            match calculateFileHash filePath with
            | Throw e => (Throw e, fileHashes)
            | Return hash =>
                let key := default EmptyString hash in
                if truthy hash && negb (bool_decide (is_Some (fileHashes !! key))) then
                  let fileInfo := {| filename := file;
                                     originalName := file;
                                     uploadDate := mtime stats;
                                     hash := key |} in
                  load_loop rest (<[key := fileInfo]> fileHashes) (S registeredCount)
                else load_loop rest fileHashes registeredCount
            end
          else load_loop rest fileHashes registeredCount
      end
  end.

(** The registry after [initializeFileHashes()].  A missing
    directory is created and nothing is loaded; an error thrown in
    the [try] block is logged and ends the load. *)
Definition initializeFileHashes (fileHashes : gmap string FileInfo)
    : gmap string FileInfo :=
  if negb (existsSync fs uploadsDir) then fileHashes
  else
    match readdirSync fs uploadsDir with
    | Throw _ => fileHashes
    | Return files => snd (load_loop files fileHashes 0)
    end.
End Registry.

(** Every record is stored under its own digest. *)
Definition keyed_by_hash (reg : gmap string FileInfo) : Prop :=
  forall k r, reg !! k = Some r -> hash r = k.

End Server.

(** ** The player: [KaraokePlayer.updateLyrics] *)

Module Player.
Import JS.

(** An element of [this.lyrics], as [JSON.parse] gives it. *)
Record Lyric := {
  timestamp : float;
  text : string
}.

Record KaraokePlayer := {
  lyrics : list Lyric;
  currentLyricIndex : Z;
  isPlaying : bool;
  audioElement : bool;   (* whether [this.audioElement] is set *)
  analyser : bool        (* whether [this.analyser] is set *)
}.

(** What [updateLyrics] does to the page. *)
Inductive effect :=
| UpdateTimeDisplay (currentTime : float)
| AnimateLyricExit
| UpdateLyricsDisplay (text : string)
| UpdateBackground (hasLyrics : bool)
| AnimateLyricEnter
| UpdateTextScale
| RequestAnimationFrame.

(** The loop [for (let i = n - 1; i >= 0; i--)] with its [break]:
    the value of [newLyricIndex] after it. *)
Fixpoint find_lyric (lyrics : list Lyric) (currentTime : float) (n : nat) : Z :=
  match n with
  | O => -1
  | S i =>
      match lyrics !! i with
      | Some l =>
          if ge currentTime (timestamp l) then Z.of_nat i
          else find_lyric lyrics currentTime i
      | None => find_lyric lyrics currentTime i
      end
  end.

Definition lyric_text (lyrics : list Lyric) (i : Z) : string :=
  match lyrics !! Z.to_nat i with
  | Some l => text l
  | None => EmptyString
  end.

(** One call of [updateLyrics()] when the audio element is at
    [currentTime]: the player after the call and the effects in order. *)
Definition updateLyrics (p : KaraokePlayer) (currentTime : float)
    : KaraokePlayer * list effect :=
  if negb (isPlaying p) || negb (audioElement p) then (p, [])
  else
    let newLyricIndex := find_lyric (lyrics p) currentTime (length (lyrics p)) in
    let changed := negb (newLyricIndex =? currentLyricIndex p) in
    let p' :=
      if changed then
        {| lyrics := lyrics p; currentLyricIndex := newLyricIndex;
           isPlaying := isPlaying p; audioElement := audioElement p;
           analyser := analyser p |}
      else p in
    (p',
     ([UpdateTimeDisplay currentTime]
     ++ (if changed then
           (if 0 <=? currentLyricIndex p then [AnimateLyricExit] else [])
           ++ (if 0 <=? newLyricIndex then
                 [UpdateLyricsDisplay (lyric_text (lyrics p) newLyricIndex);
                  UpdateBackground true; AnimateLyricEnter]
               else [UpdateLyricsDisplay EmptyString; UpdateBackground false])
         else [])
     ++ (if analyser p && (0 <=? newLyricIndex) then [UpdateTextScale] else [])
     ++ [RequestAnimationFrame])%list).

(** The display was updated: the branch taken when the lyric changed. *)
Definition display_updated (effects : list effect) : bool :=
  existsb (fun e => match e with UpdateLyricsDisplay _ => true | _ => false end) effects.

(** Successive calls at the given times: after each call, the active
    index and whether the display was updated. *)
Fixpoint run (p : KaraokePlayer) (times : list float) : list (Z * bool) :=
  match times with
  | [] => []
  | t :: rest =>
      let (p', effects) := updateLyrics p t in
      (currentLyricIndex p', display_updated effects) :: run p' rest
  end.

(** The line of index [i] is at or before [currentTime]. *)
Definition qualifies (lyrics : list Lyric) (currentTime : float) (i : nat) : Prop :=
  exists l, lyrics !! i = Some l /\ (timestamp l <=? currentTime)%float = true.

(** [idx] is the highest index of a line at or before [currentTime],
    or [-1] when there is no such line. *)
Definition active_index (lyrics : list Lyric) (currentTime : float) (idx : Z) : Prop :=
  (idx = -1 /\ forall i, ~ qualifies lyrics currentTime i)
  \/ (exists i, idx = Z.of_nat i /\ qualifies lyrics currentTime i
                /\ forall j, (i < j)%nat -> ~ qualifies lyrics currentTime j).

(** The index resolved by the call before the one of position [k] of a
    run: the index the player held at first, for the first call. *)
Definition previous_index (p : KaraokePlayer) (trace : list (Z * bool)) (k : nat) : Z :=
  match k with
  | O => currentLyricIndex p
  | S k' => match trace !! k' with Some (idx, _) => idx | None => -1 end
  end.

End Player.

(** ** Concrete inputs *)

Module Examples.
Import JS Server Player.

Definition newline : string := String (ascii_of_nat 10) EmptyString.

(** Lyrics files. *)
Definition two_tags : string := "[00:01.50] hello" ++ newline ++ "[00:00.25] world".
Definition one_digit : string := "[00:01.5] hello".
Definition three_digits : string := "[00:01.500] hello".
Definition mixed : string := "[00:01.00] a" ++ newline ++ "plain text line".
Definition plain : string :=
  "0.5 hi there" ++ newline ++ "notanumber skip this" ++ newline ++ "2 bye".
Definition blank : string := "  " ++ newline ++ " ".
Definition tag_inside : string := "intro [1:02.03]   text here" ++ newline ++ "7 plain".
Definition ties : string :=
  "[00:02.00] c" ++ newline ++ "[00:01.00] a" ++ newline ++ "[00:02.00] d"
  ++ newline ++ "[00:01.00] b".

(** A stand-in for the digest in the examples: it tells buffers apart
    as a digest does. *)
Definition toy_digest (buf : string) : string := "digest of " ++ buf.

(** An uploads directory with a file, its copy, a file that cannot be
    read and a fourth file. *)
Definition example_fs : FileSystem := {|
  existsSync := fun p => String.eqb p "uploads";
  readFileSync := fun p =>
    if String.eqb p "uploads/1-song.lrc" then Return "[00:01.00] la"
    else if String.eqb p "uploads/2-copy.lrc" then Return "[00:01.00] la"
    else if String.eqb p "uploads/4-other.txt" then Return "1 la"
    else Throw "EACCES";
  statSync := fun p =>
    if String.prefix "uploads/" p
    then Return {| isFile := true; mtime := "2024-01-01T00:00:00.000Z" |}
    else Throw "ENOENT";
  readdirSync := fun p =>
    if String.eqb p "uploads"
    then Return ["1-song.lrc"; "3-locked.mp3"; "2-copy.lrc"; "4-other.txt"]
    else Throw "ENOENT"
|}.

(** A player with lines at 0, 10 and 20 seconds. *)
Definition three_lines : list Lyric :=
  [ {| Player.timestamp := 0; Player.text := "a" |};
    {| Player.timestamp := 10; Player.text := "b" |};
    {| Player.timestamp := 20; Player.text := "c" |} ].

Definition example_player : KaraokePlayer :=
  {| lyrics := three_lines; currentLyricIndex := -1; isPlaying := true;
     audioElement := true; analyser := false |}.

Definition example_times : list float := [(-1)%float; 0%float; 5%float; 10%float; 25%float].

End Examples.

Arguments JS.is_space : simpl never.
Arguments JS.is_digit : simpl never.
Arguments JS.is_line_terminator : simpl never.
Arguments JS.code : simpl never.

(** ** Strings: what the code below uses of [String.prototype] *)

Module Text.
Import JS.

(** [s.replace(re, r)] for a global pattern [re] that matches one
    character, those that satisfy [p]. *)
Fixpoint replace_each (p : ascii -> bool) (r : ascii) (s : string) : string :=
  match s with
  | EmptyString => EmptyString
  | String c s' => String (if p c then r else c) (replace_each p r s')
  end.

(** [s.split(sep)] for a separator of one character; never empty. *)
Fixpoint split_on (sep : ascii) (s : string) : list string :=
  match s with
  | EmptyString => [EmptyString]
  | String c s' =>
      if Ascii.eqb c sep then EmptyString :: split_on sep s'
      else match split_on sep s' with
           | l :: ls => String c l :: ls
           | [] => [String c EmptyString]
           end
  end.

(** The text with a carriage return put before every line feed: the
    same file with the line endings of Windows. *)
Fixpoint lf_to_crlf (s : string) : string :=
  match s with
  | EmptyString => EmptyString
  | String c s' =>
      if (code c =? 10)%Z
      then String (ascii_of_nat 13) (String c (lf_to_crlf s'))
      else String c (lf_to_crlf s')
  end.

End Text.

(** ** The fallback format, in words *)

Module Fallback.
Import JS.

Definition all_space (w : string) : Prop := string_forall is_space w = true.

Definition digits (ds : string) : Prop := string_forall is_digit ds = true.

(** The first character of [s] satisfies [p]. *)
Definition starts_with (p : ascii -> bool) (s : string) : bool :=
  match s with
  | String c _ => p c
  | EmptyString => false
  end.

(** [s] is the tokens [ts], each followed by white space: by some,
    when a token follows, and by any or none after the last one. *)
Inductive spaced : list string -> string -> Prop :=
| spaced_last t w :
    token t -> all_space w -> spaced [t] (t ++ w)
| spaced_next t w ts s :
    token t -> all_space w -> w <> EmptyString -> spaced ts s ->
    spaced (t :: ts) (t ++ w ++ s).

(** The tokens of a line that is not blank: what stands between its
    runs of white space. *)
Definition pieces (line : string) (ts : list string) : Prop :=
  exists w s, all_space w /\ line = w ++ s /\ spaced ts s.

(** A text with its sign taken off: [neg] tells a minus sign. *)
Definition signed (text : string) (neg : bool) (body : string) : Prop :=
  (text = String "-" body /\ neg = true)
  \/ (text = String "+" body /\ neg = false)
  \/ (text = body /\ neg = false
      /\ starts_with (fun c => Ascii.eqb c "-" || Ascii.eqb c "+") body = false).

(** [tail] starts with an exponent part of value [ex]: the letter e, a
    sign or none, and all the digits that follow, one at least. *)
Definition exponent_at (tail : string) (ex : Z) : Prop :=
  exists c after neg eds rest,
    tail = String c after /\ (c = "e" \/ c = "E")%char
    /\ signed after neg (eds ++ rest)
    /\ eds <> EmptyString /\ digits eds /\ starts_with is_digit rest = false
    /\ ex = if neg then - decimal_value eds else decimal_value eds.

(** The exponent that is read at [tail]: that of its exponent part, and
    0 when it starts with none. *)
Definition exponent_of (tail : string) (ex : Z) : Prop :=
  exponent_at tail ex \/ (ex = 0 /\ forall ex', ~ exponent_at tail ex').

(** [body] starts with a decimal numeral of value [m * 10 ^ e], read as
    far as it goes: all the digits of the integer part, a dot and all
    the digits after it when a dot follows, one digit at least in all,
    and the exponent part when one follows. *)
Definition numeral (body : string) (m e : Z) : Prop :=
  exists ip fp tail ex,
    digits ip /\ digits fp /\ (ip <> EmptyString \/ fp <> EmptyString)
    /\ starts_with is_digit tail = false
    /\ ((body = ip ++ tail /\ fp = EmptyString
         /\ starts_with (fun c => Ascii.eqb c ".") tail = false)
        \/ body = ip ++ String "." (fp ++ tail))
    /\ exponent_of tail ex
    /\ m = decimal_value (ip ++ fp)
    /\ e = ex - Z.of_nat (String.length fp).

(** The number that is read at the start of a token: a sign or none,
    then the word Infinity or a decimal numeral, whatever follows. *)
Definition reads_number (token : string) (v : float) : Prop :=
  exists neg body,
    signed token neg body
    /\ (((exists rest, body = "Infinity" ++ rest)
         /\ v = if neg then (- infinity)%float else infinity)
        \/ exists m e,
             numeral body m e
             /\ v = if neg then (- dec2F m e)%float else dec2F m e).

(** The claim as it is written: the token as a whole is a number, a
    decimal literal with nothing after it. *)
Definition exponent_text (s : string) : bool :=
  match s with
  | String c r =>
      (Ascii.eqb c "e" || Ascii.eqb c "E")
      && (let (_, ds) := strip_sign r in negb (is_empty ds) && string_forall is_digit ds)
  | EmptyString => false
  end.

Definition whole_number (token : string) : bool :=
  let (_, body) := strip_sign token in
  String.eqb body "Infinity"
  || (let (ip, r1) := span is_digit body in
      let (fp, r2) :=
        match expect "." r1 with
        | Some r => span is_digit r
        | None => (EmptyString, r1)
        end in
      negb (is_empty ip && is_empty fp) && (is_empty r2 || exponent_text r2)).

End Fallback.

(** ** The server: the names of the stored files *)

Module Storage.
Import JS Server Text.

(** The characters that the pattern of [filename] leaves as they are:
    letters, digits, the dot and the hyphen. *)
Definition is_name_char (c : ascii) : bool :=
  ((97 <=? code c) && (code c <=? 122))
  || ((65 <=? code c) && (code c <=? 90))
  || is_digit c
  || (code c =? 46) || (code c =? 45).

Definition clean_name (originalname : string) : string :=
  replace_each (fun c => negb (is_name_char c)) "_" originalname.

(** The [filename] callback of the disk storage; [now] is the decimal
    numeral of [Date.now()]. *)
Definition storage_filename (now originalname : string) : string :=
  now ++ "-" ++ clean_name originalname.

(** A character of a stored name. *)
Definition is_stored_char (c : ascii) : bool := is_name_char c || (code c =? 95).

End Storage.

(** ** The server: the file filter *)

Module Filter.
Import JS.

(** [s.endsWith(suffix)] *)
Fixpoint endsWith (s suffix : string) : bool :=
  if String.eqb s suffix then true
  else match s with
       | EmptyString => false
       | String _ s' => endsWith s' suffix
       end.

(** [s.includes(sub)] for strings. *)
Fixpoint includes (s sub : string) : bool :=
  if String.prefix sub s then true
  else match s with
       | EmptyString => false
       | String _ s' => includes s' sub
       end.

(** A file as the file filter sees it. *)
Record IncomingFile := {
  fieldname : string;
  originalname : string;
  mimetype : string
}.

(** What the filter passes to its callback: [cb(null, true)], or
    [cb(new Error(message), false)]. *)
Inductive verdict :=
| Accept
| Reject (message : string).

Definition allowedAudioTypes : list string :=
  ["audio/mpeg"; "audio/wav"; "audio/ogg"; "audio/mp4"; "audio/x-m4a"; "audio/aac";
   "audio/webm"].

Definition allowedTextTypes : list string :=
  ["text/plain"; "application/json"; "text/html"; "application/octet-stream"].

Definition fileFilter (file : IncomingFile) : verdict :=
  if String.eqb (fieldname file) "audio" then
    if existsb (String.eqb (mimetype file)) allowedAudioTypes then Accept
    else Reject ("Unsupported audio format: " ++ mimetype file
                 ++ ". Please use MP3, WAV, OGG, or M4A.")
  else if String.eqb (fieldname file) "lyrics" then
    if existsb (String.eqb (mimetype file)) allowedTextTypes
       || endsWith (originalname file) ".lrc"
       || endsWith (originalname file) ".txt"
    then Accept
    else Reject ("Unsupported lyrics format: " ++ mimetype file
                 ++ ". Please use TXT or LRC files.")
  else Reject "Unexpected field name".

End Filter.

(** ** The upload page: [LyricsSync.validateFile] *)

Module Validate.
Import JS Text Filter.

(** A file of a file input. *)
Record BrowserFile := {
  size : Z;
  type : string;
  name : string
}.

Definition is_upper (c : ascii) : bool := (65 <=? code c) && (code c <=? 90).

(** The character that the flag [i] of a pattern compares: a letter
    A to Z stands for its lower-case letter, another code unit below
    256 for itself. *)
Definition fold_case (c : ascii) : ascii :=
  if is_upper c then ascii_of_N (N_of_ascii c + 32) else c.

Fixpoint fold_case_all (s : string) : string :=
  match s with
  | EmptyString => EmptyString
  | String c s' => String (fold_case c) (fold_case_all s')
  end.

(** [name.match(re)] is not [null], for a pattern [re] with the flag
    [i] made of a dot, one of the given words in lower case, and the
    end of the text. *)
Definition matches_extension (words : list string) (name : string) : bool :=
  existsb (fun w => endsWith (fold_case_all name) (String "." w)) words.

Definition maxSize : Z := 50 * 1024 * 1024.

Definition audioTypes : list string :=
  ["audio/mpeg"; "audio/wav"; "audio/ogg"; "audio/mp4"; "audio/x-m4a"; "audio/aac"].

(** The error that [validateFile] writes for the first file of the
    input, the input being cleared then; [None] when it writes none. *)
Definition validateFile (file : option BrowserFile) (kind : string) : option string :=
  match file with
  | None => None
  | Some file =>
      if maxSize <? size file then Some "File too large. Maximum size is 50MB."
      else if String.eqb kind "audio" then
        if negb (existsb (String.eqb (type file)) audioTypes)
           && negb (matches_extension ["mp3"; "wav"; "ogg"; "m4a"; "aac"] (name file))
        then Some "Please select a valid audio file (MP3, WAV, OGG, M4A, AAC)"
        else None
      else if String.eqb kind "lyrics" then
        if negb (includes (type file) "text/")
           && negb (matches_extension ["txt"; "lrc"] (name file))
        then Some "Please select a valid lyrics file (TXT or LRC)"
        else None
      else None
  end.

End Validate.

(** ** The server: the startup load, run again *)

Module Startup.
Import JS Server.

Section Saturated.
Variable sha256_hex : string -> string.
Variable fs : FileSystem.
Variable uploadsDir : string.

(** Every file that the loop would register is registered already: the
    regular files before the first entry that cannot be stat'ed, whose
    digest is computed and is not the empty string. *)
Fixpoint saturated (files : list string) (fileHashes : gmap string FileInfo) : Prop :=
  match files with
  | [] => True
  | file :: rest =>
      match statSync fs (join uploadsDir file) with
      | Throw _ => True
      | Return stats =>
          (isFile stats = true ->
           forall buf, readFileSync fs (join uploadsDir file) = Return buf ->
                       sha256_hex buf <> EmptyString ->
                       is_Some (fileHashes !! sha256_hex buf))
          /\ saturated rest fileHashes
      end
  end.
End Saturated.
End Startup.

(** ** The server: the handler of [POST /upload] *)

Module Upload.
Import JS Server.

(** A file as the disk storage hands it to the handler. *)
Record UploadedFile := {
  path : string;
  filename : string;
  originalname : string
}.

(** [req.files]: the first file of each field, when the field is there. *)
Record Files := {
  audio : option UploadedFile;
  lyrics : option UploadedFile
}.

(** An entry of [duplicateInfo]. *)
Inductive duplicate_info :=
| NotDuplicate
| Duplicate (originalFile originalName uploadDate : string).

Inductive body :=
| Error (error : string)
| Uploaded (audioUrl : string) (lyrics : list LyricLine) (message : string)
    (audioInfo lyricsInfo : duplicate_info).

Record response := {
  status : Z;
  content : body
}.

Definition failure (code : Z) (error : string) : response :=
  {| status := code; content := Error error |}.

Definition server_error (e : string) : response :=
  failure 500 ("Server error during upload: " ++ e).

Definition duplicate (d : FileInfo) : duplicate_info :=
  Duplicate (Server.filename d) (originalName d) (uploadDate d).

(** [missing.join(', ')] *)
Fixpoint join_comma (parts : list string) : string :=
  match parts with
  | [] => EmptyString
  | [p] => p
  | p :: ps => p ++ ", " ++ join_comma ps
  end.

Definition missing (files : Files) : list string :=
  (match audio files with Some _ => [] | None => ["audio"] end
   ++ match lyrics files with Some _ => [] | None => ["lyrics"] end)%list.

(** The file system without the file of path [p]. *)
Definition no_entry (syscall p : string) : string :=
  "ENOENT: no such file or directory, " ++ syscall ++ " '" ++ p ++ "'".

Definition remove_file (fs : FileSystem) (p : string) : FileSystem :=
  {| existsSync := fun q => if String.eqb q p then false else existsSync fs q;
     readFileSync := fun q =>
       if String.eqb q p then Throw (no_entry "open" q) else readFileSync fs q;
     statSync := fun q =>
       if String.eqb q p then Throw (no_entry "stat" q) else statSync fs q;
     readdirSync := fun d =>
       match readdirSync fs d with
       | Return names =>
           Return (List.filter (fun f => negb (String.eqb (join d f) p)) names)
       | Throw e => Throw e
       end |}.

(** [fs.unlinkSync(p)]: the file system after the call. *)
Definition unlinkSync (fs : FileSystem) (p : string) : completion FileSystem :=
  if existsSync fs p then Return (remove_file fs p) else Throw (no_entry "unlink" p).

Section Handler.
Variable sha256_hex : string -> string.
(** The text of a buffer read with the encoding [utf8]. *)
Variable utf8 : string -> string.
Variable uploadsDir : string.

(** The part of the handler for the audio file: the URL and the entry
    of [duplicateInfo], or the error thrown, with the registry and the
    file system after it. *)
Definition audio_step (fileHashes : gmap string FileInfo) (fs : FileSystem)
    (audioFile : UploadedFile) (duplicateAudio : option FileInfo) (now : string)
    : completion (string * duplicate_info) * gmap string FileInfo * FileSystem :=
  match duplicateAudio with
  | Some d =>
      match unlinkSync fs (path audioFile) with
      | Throw e => (Throw e, fileHashes, fs)
      | Return fs' =>
          (Return ("/uploads/" ++ Server.filename d, duplicate d), fileHashes, fs')
      end
  | None =>
      match registerFile sha256_hex fs fileHashes (path audioFile) (originalname audioFile) now with
      | (Throw e, fileHashes') => (Throw e, fileHashes', fs)
      | (Return _, fileHashes') =>
          (Return ("/uploads/" ++ filename audioFile, NotDuplicate), fileHashes', fs)
      end
  end.

(** The part for the lyrics file: the response of an inner [catch], or
    the parsed lines and the entry of [duplicateInfo]. *)
Definition lyrics_step (fileHashes : gmap string FileInfo) (fs : FileSystem)
    (lyricsFile : UploadedFile) (duplicateLyrics : option FileInfo) (now : string)
    : completion (response + list LyricLine * duplicate_info)
      * gmap string FileInfo * FileSystem :=
  match duplicateLyrics with
  | Some d =>
      match unlinkSync fs (path lyricsFile) with
      | Throw e => (Throw e, fileHashes, fs)
      | Return fs' =>
          match readFileSync fs' (join uploadsDir (Server.filename d)) with
          | Throw e =>
              (Return (inl (failure 500 ("Error reading existing lyrics file: " ++ e))),
               fileHashes, fs')
          | Return buf =>
              (Return (inr (parseLyrics (utf8 buf), duplicate d)), fileHashes, fs')
          end
      end
  | None =>
      match readFileSync fs (path lyricsFile) with
      | Throw e =>
          (Return (inl (failure 400 ("Error reading lyrics file: " ++ e))), fileHashes, fs)
      | Return buf =>
          let finalLyricsData := parseLyrics (utf8 buf) in
          match registerFile sha256_hex fs fileHashes (path lyricsFile)
                  (originalname lyricsFile) now with
          | (Throw e, fileHashes') =>
              (Return (inl (failure 400 ("Error reading lyrics file: " ++ e))),
               fileHashes', fs)
          | (Return _, fileHashes') =>
              (Return (inr (finalLyricsData, NotDuplicate)), fileHashes', fs)
          end
      end
  end.

(** The handler of [POST /upload] for a request with both files. *)
Definition handle_files (fileHashes : gmap string FileInfo) (fs : FileSystem)
    (audioFile lyricsFile : UploadedFile) (nowAudio nowLyrics : string)
    : response * gmap string FileInfo * FileSystem :=
  match findDuplicateFile sha256_hex fs fileHashes (path audioFile) with
  | Throw e => (server_error e, fileHashes, fs)
  | Return duplicateAudio =>
      match findDuplicateFile sha256_hex fs fileHashes (path lyricsFile) with
      | Throw e => (server_error e, fileHashes, fs)
      | Return duplicateLyrics =>
          match audio_step fileHashes fs audioFile duplicateAudio nowAudio with
          | (Throw e, fileHashes1, fs1) => (server_error e, fileHashes1, fs1)
          | (Return (finalAudioUrl, audioInfo), fileHashes1, fs1) =>
              match lyrics_step fileHashes1 fs1 lyricsFile duplicateLyrics nowLyrics with
              | (Throw e, fileHashes2, fs2) => (server_error e, fileHashes2, fs2)
              | (Return (inl early), fileHashes2, fs2) => (early, fileHashes2, fs2)
              | (Return (inr (finalLyricsData, lyricsInfo)), fileHashes2, fs2) =>
                  ({| status := 200;
                      content := Uploaded finalAudioUrl finalLyricsData
                                   "Files processed successfully" audioInfo lyricsInfo |},
                   fileHashes2, fs2)
              end
          end
      end
  end.

(** The handler: the response, and the registry and the file system
    after the request.  [nowAudio] and [nowLyrics] are the dates read
    by the two calls of [registerFile]. *)
Definition post_upload (fileHashes : gmap string FileInfo) (fs : FileSystem)
    (files : option Files) (nowAudio nowLyrics : string)
    : response * gmap string FileInfo * FileSystem :=
  match files with
  | None => (failure 400 "No files were uploaded", fileHashes, fs)
  | Some files =>
      match audio files, lyrics files with
      | Some audioFile, Some lyricsFile =>
          handle_files fileHashes fs audioFile lyricsFile nowAudio nowLyrics
      | _, _ =>
          (failure 400 ("Missing files: " ++ join_comma (missing files)), fileHashes, fs)
      end
  end.

(** Every record names a file of the uploads directory that can be
    read and has the digest the record is stored under. *)
Definition stored (fileHashes : gmap string FileInfo) (fs : FileSystem) : Prop :=
  forall k r, fileHashes !! k = Some r ->
    exists buf, readFileSync fs (join uploadsDir (Server.filename r)) = Return buf
                /\ sha256_hex buf = k.

(** The registry holds the records of [fileHashes], unchanged. *)
Definition extends (fileHashes fileHashes' : gmap string FileInfo) : Prop :=
  forall k r, fileHashes !! k = Some r -> fileHashes' !! k = Some r.

(** No record names the file of path [p]. *)
Definition unregistered (fileHashes : gmap string FileInfo) (p : string) : Prop :=
  forall k r, fileHashes !! k = Some r -> join uploadsDir (Server.filename r) <> p.

End Handler.
End Upload.

(** ** The player: its controls and the page *)

Module Controls.
Import JS Player.

(** What the controls do besides the effects of [updateLyrics]: to the
    audio element, to the play button ([pauseLabel] tells which of its
    two labels is set) and to the pending animation frame. *)
Inductive action :=
| AudioPlay
| AudioPause
| SetCurrentTime (t : float)
| SetPlayButton (pauseLabel : bool)
| StopLyricsSync
| StartVisualization
| Page (e : effect).

Definition with_index (p : KaraokePlayer) (i : Z) : KaraokePlayer :=
  {| lyrics := lyrics p; currentLyricIndex := i; isPlaying := isPlaying p;
     audioElement := audioElement p; analyser := analyser p |}.

Definition with_playing (p : KaraokePlayer) (b : bool) : KaraokePlayer :=
  {| lyrics := lyrics p; currentLyricIndex := currentLyricIndex p; isPlaying := b;
     audioElement := audioElement p; analyser := analyser p |}.

(** The callback of [play()], run when the promise of
    [audioElement.play()] is fulfilled with the audio element at
    [currentTime]. *)
Definition play_fulfilled (p : KaraokePlayer) (currentTime : float)
    : KaraokePlayer * list action :=
  let p1 := with_playing p true in
  let (p2, effects) := updateLyrics p1 currentTime in
  (p2, ([SetPlayButton true] ++ map Page effects ++ [StartVisualization])%list).

Definition pause (p : KaraokePlayer) : KaraokePlayer * list action :=
  (with_playing p false, [AudioPause; SetPlayButton false; StopLyricsSync]).

Definition restart (p : KaraokePlayer) : KaraokePlayer * list action :=
  (with_index p (-1),
   ([SetCurrentTime 0;
     Page (UpdateLyricsDisplay EmptyString); Page (UpdateBackground false)]
    ++ (if isPlaying p then [AudioPlay] else []))%list).

Definition stop (p : KaraokePlayer) : KaraokePlayer * list action :=
  let (p1, actions) := pause p in
  (with_index p1 (-1),
   (actions ++ [SetCurrentTime 0;
                Page (UpdateLyricsDisplay EmptyString); Page (UpdateBackground false);
                SetPlayButton false])%list).

(** What happens to a player: an animation frame or the fulfilled
    promise of [play()], with the time of the audio element, a click on
    the restart button, a pause (the play button while playing, or the
    page being hidden), and the end of the audio. *)
Inductive event :=
| Frame (currentTime : float)
| PlayFulfilled (currentTime : float)
| Restart
| Pause
| Ended.

Definition handle (p : KaraokePlayer) (ev : event) : KaraokePlayer * list action :=
  match ev with
  | Frame t => let (p', effects) := updateLyrics p t in (p', map Page effects)
  | PlayFulfilled t => play_fulfilled p t
  | Restart => restart p
  | Pause => pause p
  | Ended => stop p
  end.

(** The part of the page that the lyrics are written to:
    [updateLyricsDisplay] sets the text of the display and
    [updateBackground] the class [lyrics-active] of the body. *)
Record page := {
  lyricsDisplay : string;
  lyricsActive : bool
}.

Definition apply_action (pg : page) (a : action) : page :=
  match a with
  | Page (UpdateLyricsDisplay text) =>
      {| lyricsDisplay := text; lyricsActive := lyricsActive pg |}
  | Page (UpdateBackground hasLyrics) =>
      {| lyricsDisplay := lyricsDisplay pg; lyricsActive := hasLyrics |}
  | _ => pg
  end.

(** The player and the page after the events, one after the other. *)
Fixpoint play_out (p : KaraokePlayer) (pg : page) (events : list event)
    : KaraokePlayer * page :=
  match events with
  | [] => (p, pg)
  | ev :: rest =>
      let (p', actions) := handle p ev in
      play_out p' (foldl apply_action pg actions) rest
  end.

(** The page shows the line of the current index, and nothing when the
    index is [-1]. *)
Definition shown_text (p : KaraokePlayer) : string :=
  if 0 <=? currentLyricIndex p then lyric_text (lyrics p) (currentLyricIndex p)
  else EmptyString.

Definition in_sync (p : KaraokePlayer) (pg : page) : Prop :=
  lyricsDisplay pg = shown_text p
  /\ lyricsActive pg = (0 <=? currentLyricIndex p).

(** The timestamps do not decrease along the list. *)
Definition ascending (lyrics : list Lyric) : Prop :=
  forall i j a b, (i <= j)%nat -> lyrics !! i = Some a -> lyrics !! j = Some b ->
                  (timestamp a <=? timestamp b)%float = true.

End Controls.

(** ** The player of the upload page: [LyricsSync] of script.js *)

Module Script.
Import JS Player.

Record LyricsSync := {
  lyrics : list Lyric;
  currentLyricIndex : Z;
  isPlaying : bool;
  audioElement : bool;
  analyser : bool
}.

Definition updateLyrics (p : LyricsSync) (currentTime : float)
    : LyricsSync * list effect :=
  if negb (isPlaying p) || negb (audioElement p) then (p, [])
  else
    let newLyricIndex := find_lyric (lyrics p) currentTime (length (lyrics p)) in
    let changed := negb (newLyricIndex =? currentLyricIndex p) in
    let p' :=
      if changed then
        {| lyrics := lyrics p; currentLyricIndex := newLyricIndex;
           isPlaying := isPlaying p; audioElement := audioElement p;
           analyser := analyser p |}
      else p in
    (p',
     ([UpdateTimeDisplay currentTime]
     ++ (if changed then
           (if 0 <=? newLyricIndex then
              [UpdateLyricsDisplay (lyric_text (lyrics p) newLyricIndex);
               UpdateBackground true]
            else [UpdateLyricsDisplay EmptyString; UpdateBackground false])
         else [])
     ++ (if analyser p && (0 <=? newLyricIndex) then [UpdateTextScale] else [])
     ++ [RequestAnimationFrame])%list).

(** The fields of the two players. *)
Definition of_player (p : KaraokePlayer) : LyricsSync :=
  {| lyrics := Player.lyrics p; currentLyricIndex := Player.currentLyricIndex p;
     isPlaying := Player.isPlaying p; audioElement := Player.audioElement p;
     analyser := Player.analyser p |}.

Definition is_animation (e : effect) : bool :=
  match e with AnimateLyricExit | AnimateLyricEnter => true | _ => false end.

End Script.

(** ** The player: the title of the song *)

Module Title.
Import JS Text.

Definition is_slash (c : ascii) : bool := Ascii.eqb c "/".
Definition is_dot (c : ascii) : bool := Ascii.eqb c ".".

(** A character of the class of the extension pattern: neither a slash
    nor a dot. *)
Definition is_ext_char (c : ascii) : bool := negb (is_slash c || is_dot c).

(** [filename.replace(re, empty)] for the extension pattern: a dot and
    one character or more of the class, up to the end of the text.  The
    pattern is tried from the left and replaced once. *)
Fixpoint strip_extension (s : string) : string :=
  match s with
  | EmptyString => EmptyString
  | String c r =>
      if is_dot c && negb (is_empty r) && string_forall is_ext_char r then EmptyString
      else String c (strip_extension r)
  end.

Definition is_separator (c : ascii) : bool := Ascii.eqb c "-" || Ascii.eqb c "_".

(** [KaraokePlayer.extractSongName] *)
Definition extractSongName (url : string) : string :=
  let popped := default EmptyString (last (split_on "/" url)) in
  let filename := if is_empty popped then "Unknown Song" else popped in
  replace_each is_separator " " (strip_extension filename).

End Title.

(** ** The player: the loop of [updateTextScale] *)

Module Pitch.
Import JS.

(** The loop of [updateTextScale] over the frequency data, from index
    [i] on: the values of [maxVolume] and [dominantFrequency] after it. *)
Fixpoint dominant_loop (sampleRate fftSize : float) (dataArray : list Z) (i : nat)
    (maxVolume : Z) (dominantFrequency : float) : Z * float :=
  match dataArray with
  | [] => (maxVolume, dominantFrequency)
  | d :: rest =>
      if maxVolume <? d
      then dominant_loop sampleRate fftSize rest (S i) d
             (Z2F (Z.of_nat i) * sampleRate / fftSize)%float
      else dominant_loop sampleRate fftSize rest (S i) maxVolume dominantFrequency
  end.

Definition dominant (sampleRate fftSize : float) (dataArray : list Z) : Z * float :=
  dominant_loop sampleRate fftSize dataArray 0 0 0%float.

End Pitch.

(** ** More concrete inputs *)

Module MoreExamples.
Import JS Player Controls.

(** The lines of [Examples.two_tags] with white space at their ends. *)
Definition indented : string :=
  "   [00:01.50] hello  " ++ Examples.newline
  ++ String (ascii_of_nat 9) "[00:00.25] world ".

Definition blank_page : page := {| lyricsDisplay := EmptyString; lyricsActive := false |}.

Definition example_events : list event :=
  [Frame 5; Restart; Frame 12; Pause; Frame 25; PlayFulfilled 21; Restart].

End MoreExamples.

Module UploadExamples.
Import JS Server Upload Examples.

(** An uploads directory with a registered lyrics file and two files
    just written by the disk storage: an audio file and a copy of the
    lyrics file. *)
Definition upload_fs : FileSystem := {|
  existsSync := fun p =>
    existsb (String.eqb p)
      ["uploads"; "uploads/1-song.lrc"; "uploads/5-new.mp3"; "uploads/6-copy.lrc"];
  readFileSync := fun p =>
    if String.eqb p "uploads/1-song.lrc" then Return "[00:01.00] la"
    else if String.eqb p "uploads/5-new.mp3" then Return "ID3 audio"
    else if String.eqb p "uploads/6-copy.lrc" then Return "[00:01.00] la"
    else Throw "ENOENT";
  statSync := fun p =>
    if String.prefix "uploads/" p
    then Return {| isFile := true; mtime := "2024-01-01T00:00:00.000Z" |}
    else Throw "ENOENT";
  readdirSync := fun p =>
    if String.eqb p "uploads"
    then Return ["1-song.lrc"; "5-new.mp3"; "6-copy.lrc"]
    else Throw "ENOENT"
|}.

Definition stored_song : FileInfo :=
  {| Server.filename := "1-song.lrc"; originalName := "song.lrc";
     uploadDate := "2024-01-01T00:00:00.000Z"; hash := toy_digest "[00:01.00] la" |}.

Definition upload_registry : gmap string FileInfo :=
  {[ toy_digest "[00:01.00] la" := stored_song ]}.

Definition new_audio : UploadedFile :=
  {| path := "uploads/5-new.mp3"; filename := "5-new.mp3"; originalname := "new.mp3" |}.

Definition copy_lyrics : UploadedFile :=
  {| path := "uploads/6-copy.lrc"; filename := "6-copy.lrc"; originalname := "copy.lrc" |}.

(** The request with the two files, at the given dates; the text of a
    buffer is the buffer, as it is for ASCII. *)
Definition example_upload : response * gmap string FileInfo * FileSystem :=
  post_upload toy_digest (fun buf => buf) "uploads" upload_registry upload_fs
    (Some {| audio := Some new_audio; lyrics := Some copy_lyrics |})
    "2024-05-01T10:00:00.000Z" "2024-05-01T10:00:00.001Z".

Definition example_response : body :=
  Uploaded "/uploads/5-new.mp3" (parseLyrics "[00:01.00] la")
    "Files processed successfully" NotDuplicate
    (Duplicate "1-song.lrc" "song.lrc" "2024-01-01T00:00:00.000Z").

End UploadExamples.

(** * Properties *)

(** ** Rounding keeps the sign *)

Section NumFacts.
Import Num.

Lemma Prim2SF_zero : Prim2SF 0%float = S754_zero false.
Proof. vm_compute. reflexivity. Qed.

Lemma digits2_pos_bounds (m : positive) :
  2 ^ (Z.pos (digits2_pos m) - 1) <= Z.pos m < 2 ^ Z.pos (digits2_pos m).
Proof.
  induction m as [m IH | m IH |]; cbn [digits2_pos].
  - rewrite Pos2Z.inj_succ, Z.pow_succ_r by lia.
    replace (Z.succ (Z.pos (digits2_pos m)) - 1) with (Z.succ (Z.pos (digits2_pos m) - 1)) by lia.
    rewrite Z.pow_succ_r by lia. lia.
  - rewrite Pos2Z.inj_succ, Z.pow_succ_r by lia.
    replace (Z.succ (Z.pos (digits2_pos m)) - 1) with (Z.succ (Z.pos (digits2_pos m) - 1)) by lia.
    rewrite Z.pow_succ_r by lia. lia.
  - cbn. lia.
Qed.

Lemma shr_1_m (r : shr_record) : 0 <= shr_m r -> shr_m (shr_1 r) = shr_m r / 2.
Proof.
  destruct r as [m r s]; cbn [shr_m shr_1]. intros Hm.
  destruct m as [| p | p]; [reflexivity | | lia].
  destruct p as [p | p |]; cbn [shr_m].
  - rewrite Pos2Z.inj_xI. apply Z.div_unique with (r := 1); lia.
  - rewrite Pos2Z.inj_xO. apply Z.div_unique with (r := 0); lia.
  - reflexivity.
Qed.

Lemma iter_shr_1_m (p : positive) (r : shr_record) :
  0 <= shr_m r -> shr_m (SpecFloat.iter_pos shr_1 p r) = shr_m r / 2 ^ Z.pos p.
Proof.
  revert r. induction p as [p IH | p IH |]; intros r Hr; cbn [SpecFloat.iter_pos].
  - assert (E : 2 ^ Z.pos p~1 = 2 * (2 ^ Z.pos p * 2 ^ Z.pos p)).
    { rewrite <- (Z.pow_1_r 2) at 2. rewrite <- !Z.pow_add_r by lia. f_equal; lia. }
    assert (H1 : 0 <= shr_m (shr_1 r)) by (rewrite shr_1_m by lia; apply Z.div_pos; lia).
    rewrite IH by (rewrite IH by lia; apply Z.div_pos; lia).
    rewrite IH by lia. rewrite shr_1_m by lia.
    rewrite !Z.div_div by lia. rewrite E. reflexivity.
  - assert (E : 2 ^ Z.pos p~0 = 2 ^ Z.pos p * 2 ^ Z.pos p).
    { rewrite <- !Z.pow_add_r by lia. f_equal; lia. }
    rewrite IH by (rewrite IH by lia; apply Z.div_pos; lia).
    rewrite IH by lia.
    rewrite !Z.div_div by lia. rewrite E. reflexivity.
  - rewrite shr_1_m by lia. reflexivity.
Qed.

Lemma shr_record_of_loc_m m l : shr_m (shr_record_of_loc m l) = m.
Proof. destruct l as [| []]; reflexivity. Qed.

Lemma Zdigits2_pos_bounds (m : Z) :
  0 < m -> 2 ^ (Zdigits2 m - 1) <= m < 2 ^ Zdigits2 m.
Proof. destruct m; try lia. intros _. apply digits2_pos_bounds. Qed.

(** shifting right keeps a mantissa non-negative *)
Lemma shr_fexp_nonneg m e l :
  0 <= m -> 0 <= shr_m (fst (shr_fexp prec emax m e l)).
Proof.
  intros Hm. unfold shr_fexp, shr.
  destruct (fexp prec emax (Zdigits2 m + e) - e) as [| p | p]; cbn [fst].
  - rewrite shr_record_of_loc_m. lia.
  - rewrite iter_shr_1_m by (rewrite shr_record_of_loc_m; lia).
    rewrite shr_record_of_loc_m. apply Z.div_pos; lia.
  - rewrite shr_record_of_loc_m. lia.
Qed.

(** at an exponent not below [emin], it keeps it positive *)
Lemma shr_fexp_pos m e l :
  0 < m -> emin <= e ->
  0 < shr_m (fst (shr_fexp prec emax m e l)) /\ emin <= snd (shr_fexp prec emax m e l).
Proof.
  intros Hm He. unfold shr_fexp, shr.
  pose proof (Zdigits2_pos_bounds m Hm) as Hd.
  assert (Hdp : 0 < Zdigits2 m) by (destruct m; cbn; lia).
  destruct (fexp prec emax (Zdigits2 m + e) - e) as [| p | p] eqn:Hn; cbn [fst snd].
  - rewrite shr_record_of_loc_m. lia.
  - rewrite iter_shr_1_m by (rewrite shr_record_of_loc_m; lia).
    rewrite shr_record_of_loc_m.
    unfold fexp in Hn.
    assert (Hp : Z.pos p = Zdigits2 m - prec) by lia.
    split; [| lia].
    apply Z.div_str_pos. split; [lia |].
    eapply Z.le_trans; [| apply Hd].
    apply Z.pow_le_mono_r; unfold prec in *; lia.
  - rewrite shr_record_of_loc_m. lia.
Qed.

Lemma round_nearest_even_ge m l : m <= round_nearest_even m l.
Proof. destruct l as [| []]; cbn; try lia. destruct (Z.even m); lia. Qed.

Lemma binary_round_aux_signed s m e l :
  0 <= m -> SFsigned s (binary_round_aux prec emax s m e l).
Proof.
  intros Hm. unfold binary_round_aux.
  pose proof (shr_fexp_nonneg m e l Hm) as H1.
  destruct (shr_fexp prec emax m e l) as [r1 e1]; cbn [fst] in H1.
  pose proof (round_nearest_even_ge (shr_m r1) (loc_of_shr_record r1)) as H2.
  pose proof (shr_fexp_nonneg (round_nearest_even (shr_m r1) (loc_of_shr_record r1)) e1 loc_Exact ltac:(lia)) as H3.
  destruct (shr_fexp prec emax _ e1 loc_Exact) as [r2 e2]; cbn [fst] in H3.
  destruct (shr_m r2) as [| p | p]; [reflexivity | | lia].
  destruct (e2 <=? emax - prec); reflexivity.
Qed.

Lemma binary_round_aux_nonzero s m e l :
  0 < m -> emin <= e -> SFnonzero (binary_round_aux prec emax s m e l).
Proof.
  intros Hm He. unfold binary_round_aux.
  pose proof (shr_fexp_pos m e l Hm He) as [H1 H1e].
  destruct (shr_fexp prec emax m e l) as [r1 e1]; cbn [fst snd] in H1, H1e.
  pose proof (round_nearest_even_ge (shr_m r1) (loc_of_shr_record r1)) as H2.
  pose proof (shr_fexp_pos (round_nearest_even (shr_m r1) (loc_of_shr_record r1)) e1 loc_Exact ltac:(lia) H1e) as [H3 _].
  destruct (shr_fexp prec emax _ e1 loc_Exact) as [r2 e2]; cbn [fst] in H3.
  destruct (shr_m r2) as [| p | p]; [lia | | lia].
  destruct (e2 <=? emax - prec); exact I.
Qed.

Lemma shl_align_exp m e e' : emin <= e -> emin <= e' -> emin <= snd (shl_align m e e').
Proof. intros. unfold shl_align. destruct (e' - e); cbn; lia. Qed.

Lemma binary_round_signed s m e : SFsigned s (binary_round prec emax s m e).
Proof.
  unfold binary_round. destruct (shl_align _ _ _) as [mz ez].
  apply binary_round_aux_signed. lia.
Qed.

Lemma binary_round_nonzero s m e :
  emin <= e -> SFnonzero (binary_round prec emax s m e).
Proof.
  intros He. unfold binary_round.
  pose proof (shl_align_exp m e (fexp prec emax (Z.pos (digits2_pos m) + e)) He
                ltac:(unfold fexp; lia)) as H.
  destruct (shl_align _ _ _) as [mz ez]; cbn [snd] in H.
  apply binary_round_aux_nonzero; lia.
Qed.

Lemma binary_normalize_nonneg z e : 0 <= z -> SFnonneg (binary_normalize prec emax z e false) = true.
Proof.
  intros Hz. destruct z as [| p | p]; cbn [binary_normalize]; [reflexivity | | lia].
  pose proof (binary_round_signed false p e) as H.
  destruct (binary_round _ _ _ _ _); cbn in *; subst; first [reflexivity | contradiction].
Qed.

(** ** Valid non-negative numbers are ordered as their ordinals *)

Lemma valid_finite_inv s m e :
  valid_binary (S754_finite s m e) = true ->
  emin <= e <= emax - prec /\ Z.pos (digits2_pos m) <= prec
  /\ (emin < e -> Z.pos (digits2_pos m) = prec).
Proof.
  cbn [SpecFloat.valid_binary]. unfold bounded, canonical_mantissa, fexp.
  intros H. apply andb_true_iff in H as [H1 H2].
  apply Z.eqb_eq in H1. apply Z.leb_le in H2. lia.
Qed.

Lemma ord_finite_bounds m e :
  valid_binary (S754_finite false m e) = true ->
  0 < ord (S754_finite false m e) < 2 ^ (emax - emin).
Proof.
  intros Hv. apply valid_finite_inv in Hv as (He & Hd & _).
  cbn [ord cond_Zopp].
  pose proof (digits2_pos_bounds m) as [_ Hm].
  assert (H2 : 0 < 2 ^ (e - emin)) by (apply Z.pow_pos_nonneg; lia).
  split; [lia |].
  assert (Hp : 2 ^ Z.pos (digits2_pos m) <= 2 ^ prec) by (apply Z.pow_le_mono_r; lia).
  assert (Hq : 2 ^ (e - emin) <= 2 ^ (emax - prec - emin)) by (apply Z.pow_le_mono_r; lia).
  replace (emax - emin) with (prec + (emax - prec - emin)) by lia.
  rewrite Z.pow_add_r by (unfold emax, prec, SpecFloat.emin; lia).
  assert (0 < 2 ^ prec) by (apply Z.pow_pos_nonneg; unfold prec; lia).
  nia.
Qed.

Lemma ord_finite_lt m1 e1 m2 e2 :
  valid_binary (S754_finite false m1 e1) = true ->
  valid_binary (S754_finite false m2 e2) = true ->
  e1 < e2 ->
  ord (S754_finite false m1 e1) < ord (S754_finite false m2 e2).
Proof.
  intros H1 H2 He.
  apply valid_finite_inv in H1 as (He1 & Hd1 & _).
  apply valid_finite_inv in H2 as (He2 & _ & Hd2).
  specialize (Hd2 ltac:(lia)).
  cbn [ord cond_Zopp].
  pose proof (digits2_pos_bounds m1) as [_ Hm1].
  pose proof (digits2_pos_bounds m2) as [Hm2 _].
  rewrite Hd2 in Hm2.
  assert (Hp : 2 ^ Z.pos (digits2_pos m1) <= 2 ^ prec) by (apply Z.pow_le_mono_r; lia).
  replace (e2 - emin) with ((e1 - emin) + (e2 - e1)) by lia.
  rewrite Z.pow_add_r by lia.
  assert (Ha : 0 < 2 ^ (e1 - emin)) by (apply Z.pow_pos_nonneg; lia).
  assert (Hb : 2 ^ 1 <= 2 ^ (e2 - e1)) by (apply Z.pow_le_mono_r; lia).
  assert (Hc : 2 ^ prec = 2 ^ (prec - 1) * 2 ^ 1)
    by (rewrite <- Z.pow_add_r by (unfold prec; lia); f_equal; lia).
  assert (Hq : 0 < 2 ^ (prec - 1)) by (apply Z.pow_pos_nonneg; unfold prec; lia).
  change (2 ^ 1) with 2 in Hb, Hc.
  set (A := 2 ^ (e1 - emin)) in *. set (B := 2 ^ (e2 - e1)) in *.
  set (P := 2 ^ prec) in *. set (Q := 2 ^ (prec - 1)) in *.
  assert (H1 : Z.pos m1 * A < P * A) by nia.
  assert (H2 : P <= Z.pos m2 * B) by nia.
  assert (H3 : P * A <= Z.pos m2 * B * A) by nia.
  lia.
Qed.

Lemma SFcompare_ord x y :
  valid_binary x = true -> valid_binary y = true ->
  SFnonneg x = true -> SFnonneg y = true ->
  SFcompare x y = Some (ord x ?= ord y).
Proof.
  intros Vx Vy Nx Ny.
  destruct x as [sx | sx | | sx mx ex], y as [sy | sy | | sy my ey];
    cbn [SFnonneg] in Nx, Ny; try discriminate;
    try (apply negb_true_iff in Nx; subst sx);
    try (apply negb_true_iff in Ny; subst sy).
  - reflexivity.
  - reflexivity.
  - cbn [SFcompare]. f_equal. symmetry. apply Z.compare_lt_iff.
    apply (ord_finite_bounds my ey Vy).
  - reflexivity.
  - reflexivity.
  - cbn [SFcompare]. f_equal. symmetry. apply Z.compare_gt_iff.
    apply (ord_finite_bounds my ey Vy).
  - cbn [SFcompare]. f_equal. symmetry. apply Z.compare_gt_iff.
    apply (ord_finite_bounds mx ex Vx).
  - cbn [SFcompare]. f_equal. symmetry. apply Z.compare_lt_iff.
    apply (ord_finite_bounds mx ex Vx).
  - cbn [SFcompare]. f_equal.
    destruct (Z.compare_spec ex ey) as [E | L | G].
    + subst ey. cbn [ord cond_Zopp].
      assert (Ha : 0 < 2 ^ (ex - emin)).
      { apply valid_finite_inv in Vx. apply Z.pow_pos_nonneg; lia. }
      change (Pos.compare_cont Eq mx my) with (Z.pos mx ?= Z.pos my).
      symmetry. destruct (Z.compare_spec (Z.pos mx) (Z.pos my)) as [E | L | G].
      * rewrite E. apply Z.compare_refl.
      * apply Z.compare_lt_iff. nia.
      * apply Z.compare_gt_iff. nia.
    + symmetry. apply Z.compare_lt_iff. apply ord_finite_lt; assumption.
    + symmetry. apply Z.compare_gt_iff. apply ord_finite_lt; assumption.
Qed.

(** ** The sign of a difference *)

Lemma shl_align_value m e ez :
  ez <= e -> Z.pos (fst (shl_align m e ez)) = Z.pos m * 2 ^ (e - ez).
Proof.
  intros He. unfold shl_align.
  destruct (ez - e) as [| d | d] eqn:Hd; cbn [fst].
  - replace (e - ez) with 0 by lia. lia.
  - lia.
  - replace (e - ez) with (Z.pos d) by lia.
    change (Pos.iter xO m d) with (shift_pos d m).
    rewrite shift_pos_correct, Zpower_pos_nat, Zpower_nat_Z, positive_nat_Z. lia.
Qed.

Lemma SFltb_zero_signed s x :
  SFsigned s x -> SFnonzero x -> SFltb (S754_zero false) x = negb s.
Proof.
  destruct x as [s' | s' | | s' m e]; cbn; intros; subst; try contradiction;
    destruct s; reflexivity.
Qed.

Lemma SFsub_pos x y :
  valid_binary x = true -> valid_binary y = true ->
  SFnonneg x = true -> SFnonneg y = true ->
  SFltb (S754_zero false) (SF64sub x y) = (ord y <? ord x).
Proof.
  intros Vx Vy Nx Ny.
  destruct x as [sx | sx | | sx mx ex], y as [sy | sy | | sy my ey];
    cbn [SFnonneg] in Nx, Ny; try discriminate;
    try (apply negb_true_iff in Nx; subst sx);
    try (apply negb_true_iff in Ny; subst sy).
  - destruct sx, sy; reflexivity.
  - destruct sx; reflexivity.
  - pose proof (ord_finite_bounds my ey Vy).
    destruct sx; cbn; symmetry; apply Z.ltb_ge; cbn [ord cond_Zopp] in *; lia.
  - reflexivity.
  - reflexivity.
  - pose proof (ord_finite_bounds my ey Vy) as Hb.
    cbn [SF64sub SFsub SFltb SFcompare]. symmetry. apply Z.ltb_lt. apply Hb.
  - pose proof (ord_finite_bounds mx ex Vx) as Hb.
    cbn [SF64sub SFsub SFltb SFcompare]. symmetry. apply Z.ltb_lt. apply Hb.
  - pose proof (ord_finite_bounds mx ex Vx) as Hb.
    cbn [SF64sub SFsub SFltb SFcompare negb]. symmetry. apply Z.ltb_ge.
    change (ord (S754_infinity false)) with (2 ^ (emax - emin)). lia.
  - pose proof (valid_finite_inv _ _ _ Vx) as (Hex & _).
    pose proof (valid_finite_inv _ _ _ Vy) as (Hey & _).
    unfold SF64sub, SFsub. cbn [cond_Zopp].
    set (ez := Z.min ex ey).
    rewrite (shl_align_value mx ex ez), (shl_align_value my ey ez) by lia.
    assert (Hx : ord (S754_finite false mx ex) = Z.pos mx * 2 ^ (ex - ez) * 2 ^ (ez - emin)).
    { cbn [ord cond_Zopp]. rewrite <- Z.mul_assoc, <- Z.pow_add_r by lia. do 2 f_equal. lia. }
    assert (Hy : ord (S754_finite false my ey) = Z.pos my * 2 ^ (ey - ez) * 2 ^ (ez - emin)).
    { cbn [ord cond_Zopp]. rewrite <- Z.mul_assoc, <- Z.pow_add_r by lia. do 2 f_equal. lia. }
    rewrite Hx, Hy.
    assert (Hp : 0 < 2 ^ (ez - emin)) by (apply Z.pow_pos_nonneg; lia).
    destruct (Z.pos mx * 2 ^ (ex - ez) - Z.pos my * 2 ^ (ey - ez)) as [| p | p] eqn:HD;
      cbn [binary_normalize].
    + cbn. symmetry. apply Z.ltb_ge. nia.
    + rewrite (SFltb_zero_signed false)
        by (first [apply binary_round_signed | apply binary_round_nonzero; lia]).
      symmetry. apply Z.ltb_lt. nia.
    + rewrite (SFltb_zero_signed true)
        by (first [apply binary_round_signed | apply binary_round_nonzero; lia]).
      symmetry. apply Z.ltb_ge. nia.
Qed.

(** ** Sums, products and quotients of non-negative numbers *)

Lemma SFsigned_nonneg x : SFsigned false x -> SFnonneg x = true.
Proof. destruct x; cbn; intros; subst; first [reflexivity | contradiction]. Qed.

Lemma SFadd_nonneg x y :
  SFnonneg x = true -> SFnonneg y = true -> SFnonneg (SF64add x y) = true.
Proof.
  intros Nx Ny.
  destruct x as [sx | sx | | sx mx ex], y as [sy | sy | | sy my ey];
    cbn [SFnonneg] in Nx, Ny; try discriminate;
    try (apply negb_true_iff in Nx; subst sx);
    try (apply negb_true_iff in Ny; subst sy); try reflexivity.
  - destruct sx, sy; reflexivity.
  - unfold SF64add, SFadd. cbn [cond_Zopp].
    apply binary_normalize_nonneg. lia.
Qed.

Lemma SFmul_nonneg x m e :
  SFnonneg x = true -> SFnonneg (SF64mul x (S754_finite false m e)) = true.
Proof.
  intros Nx.
  destruct x as [sx | sx | | sx mx ex]; cbn [SFnonneg] in Nx; try discriminate;
    try (apply negb_true_iff in Nx; subst sx); try reflexivity.
  unfold SF64mul, SFmul. cbn [xorb].
  apply SFsigned_nonneg, binary_round_aux_signed. lia.
Qed.

Lemma SFdiv_core_nonneg m1 e1 m2 e2 :
  0 < m1 -> 0 < m2 -> 0 <= fst (fst (SFdiv_core_binary prec emax m1 e1 m2 e2)).
Proof.
  intros H1 H2. unfold SFdiv_core_binary.
  set (s := _ - _ - _).
  set (m' := match s with Z.pos _ => Z.shiftl m1 s | 0 => m1 | Z.neg _ => 0 end).
  assert (Hm' : 0 <= m').
  { subst m'. destruct s; try lia. apply Z.shiftl_nonneg. lia. }
  pose proof (Z_div_mod m' m2 ltac:(lia)) as Hdm.
  destruct (Z.div_eucl m' m2) as [q r]. cbn [fst]. nia.
Qed.

Lemma SFdiv_nonneg x m e :
  SFnonneg x = true -> SFnonneg (SF64div x (S754_finite false m e)) = true.
Proof.
  intros Nx.
  destruct x as [sx | sx | | sx mx ex]; cbn [SFnonneg] in Nx; try discriminate;
    try (apply negb_true_iff in Nx; subst sx); try reflexivity.
  unfold SF64div, SFdiv. cbn [xorb].
  pose proof (SFdiv_core_nonneg (Z.pos mx) ex (Z.pos m) e ltac:(lia) ltac:(lia)) as Hq.
  destruct (SFdiv_core_binary _ _ _ _ _ _) as [[q e'] l]. cbn [fst] in Hq.
  apply SFsigned_nonneg, binary_round_aux_signed. lia.
Qed.

(** ** Primitive numbers *)

Lemma nonneg_spec t : (0 <=? t)%float = SFnonneg (Prim2SF t).
Proof.
  rewrite leb_spec, Prim2SF_zero.
  destruct (Prim2SF t) as [s | s | | s m e]; try reflexivity; destruct s; reflexivity.
Qed.

Lemma nonneg_SF t : nonneg t -> SFnonneg (Prim2SF t) = true.
Proof. unfold nonneg. now rewrite nonneg_spec. Qed.

Lemma ltb_ord t u : nonneg t -> nonneg u -> (t <? u)%float = (ordF t <? ordF u).
Proof.
  intros Ht Hu. rewrite ltb_spec. unfold SFltb, ordF.
  rewrite SFcompare_ord by auto using Prim2SF_valid, nonneg_SF.
  unfold Z.ltb. destruct (_ ?= _); reflexivity.
Qed.

Lemma leb_ord t u : nonneg t -> nonneg u -> (t <=? u)%float = (ordF t <=? ordF u).
Proof.
  intros Ht Hu. rewrite leb_spec. unfold SFleb, ordF.
  rewrite SFcompare_ord by auto using Prim2SF_valid, nonneg_SF.
  unfold Z.leb. destruct (_ ?= _); reflexivity.
Qed.

Lemma eqb_ord t u : nonneg t -> nonneg u -> (t =? u)%float = (ordF t =? ordF u).
Proof.
  intros Ht Hu. rewrite FloatAxioms.eqb_spec. unfold SFeqb, ordF.
  rewrite SFcompare_ord by auto using Prim2SF_valid, nonneg_SF.
  destruct (Z.compare_spec (ord (Prim2SF t)) (ord (Prim2SF u))) as [E | L | G];
    symmetry; [apply Z.eqb_eq | apply Z.eqb_neq | apply Z.eqb_neq]; lia.
Qed.

Lemma sub_pos_ord t u : nonneg t -> nonneg u -> (0 <? t - u)%float = (ordF u <? ordF t).
Proof.
  intros Ht Hu. rewrite ltb_spec, Prim2SF_zero, sub_spec.
  apply SFsub_pos; auto using Prim2SF_valid, nonneg_SF.
Qed.

Lemma nonneg_add t u : nonneg t -> nonneg u -> nonneg (t + u).
Proof.
  intros Ht Hu. unfold nonneg. rewrite nonneg_spec, add_spec.
  apply SFadd_nonneg; auto using nonneg_SF.
Qed.

Lemma nonneg_mul_60 t : nonneg t -> nonneg (t * 60).
Proof.
  intros Ht. unfold nonneg. rewrite nonneg_spec, mul_spec.
  replace (Prim2SF 60) with (S754_finite false 8444249301319680 (-47)) by (vm_compute; reflexivity).
  apply SFmul_nonneg; auto using nonneg_SF.
Qed.

Lemma nonneg_div_100 t : nonneg t -> nonneg (t / 100).
Proof.
  intros Ht. unfold nonneg. rewrite nonneg_spec, div_spec.
  replace (Prim2SF 100) with (S754_finite false 7036874417766400 (-46)) by (vm_compute; reflexivity).
  apply SFdiv_nonneg; auto using nonneg_SF.
Qed.

Lemma SF2Prim_nonneg x : SFnonneg x = true -> nonneg (SF2Prim x).
Proof.
  intros Nx. unfold nonneg. rewrite nonneg_spec.
  destruct x as [s | s | | s m e]; cbn [SFnonneg] in Nx; try discriminate.
  - destruct s; vm_compute; reflexivity.
  - apply negb_true_iff in Nx; subst s. vm_compute; reflexivity.
  - apply negb_true_iff in Nx; subst s. cbn [SF2Prim].
    rewrite Z_ldexp_spec, of_uint63_spec.
    pose proof (Uint63.to_Z_bounded (Uint63.of_Z (Z.pos m))) as Hb.
    pose proof (binary_normalize_nonneg (Uint63.to_Z (Uint63.of_Z (Z.pos m))) 0 ltac:(lia)) as Hn.
    destruct (binary_normalize _ _ _ _ _) as [s' | s' | | s' m' e']; cbn [SFnonneg] in Hn;
      try discriminate; cbn [SFldexp SFnonneg]; try assumption.
    apply negb_true_iff in Hn; subst s'.
    apply SFsigned_nonneg, binary_round_signed.
Qed.

End NumFacts.

(** ** Strings and the numbers read from them *)

Section StringFacts.
Import JS Num.

Lemma is_empty_true s : is_empty s = true <-> s = EmptyString.
Proof. destruct s; cbn; split; congruence. Qed.

Lemma is_empty_false s : is_empty s = false <-> s <> EmptyString.
Proof. destruct s; cbn; split; congruence. Qed.

Lemma is_digit_code c : is_digit c = true <-> 48 <= code c <= 57.
Proof. unfold is_digit. rewrite andb_true_iff, !Z.leb_le. reflexivity. Qed.

Lemma is_digit_not c d : is_digit c = true -> is_digit d = false -> Ascii.eqb c d = false.
Proof.
  intros Hc Hd. destruct (Ascii.eqb_spec c d) as [-> | ]; [congruence | reflexivity].
Qed.

Lemma is_digit_not_space c : is_digit c = true -> is_space c = false.
Proof.
  intros H%is_digit_code. unfold is_space. cbn [existsb].
  repeat (apply orb_false_iff; split); try reflexivity; apply Z.eqb_neq; lia.
Qed.

(** [span] *)

Lemma append_cons c a b : String c a ++ b = String c (a ++ b).
Proof. reflexivity. Qed.

Lemma append_empty b : EmptyString ++ b = b.
Proof. reflexivity. Qed.

Lemma span_app p s : fst (span p s) ++ snd (span p s) = s.
Proof.
  induction s as [| c s IH]; cbn; [reflexivity |].
  destruct (p c); cbn; [| reflexivity].
  destruct (span p s) as [a b]; cbn in *. rewrite append_cons. congruence.
Qed.

Lemma span_fst_forall p s : string_forall p (fst (span p s)) = true.
Proof.
  induction s as [| c s IH]; cbn; [reflexivity |].
  destruct (p c) eqn:Hc; cbn; [| reflexivity].
  destruct (span p s) as [a b]; cbn in *. now rewrite Hc, IH.
Qed.

Lemma span_stop p a b v :
  string_forall p a = true -> p b = false ->
  span p (a ++ String b v) = (a, String b v).
Proof.
  intros Ha Hb. induction a as [| c a IH]; rewrite ?append_cons, ?append_empty; cbn in *.
  - now rewrite Hb.
  - apply andb_true_iff in Ha as [Hc Ha]. rewrite Hc, (IH Ha). reflexivity.
Qed.

Lemma span_all p a : string_forall p a = true -> span p a = (a, EmptyString).
Proof.
  intros Ha. induction a as [| c a IH]; cbn in *; [reflexivity |].
  apply andb_true_iff in Ha as [Hc Ha]. rewrite Hc, (IH Ha). reflexivity.
Qed.

(** A character that [p] rejects stops [span] wherever it is put. *)
Lemma span_app_stop p u b v :
  p b = false ->
  span p (u ++ String b v) = (fst (span p u), snd (span p u) ++ String b v).
Proof.
  intros Hb. induction u as [| c u IH]; rewrite ?append_cons, ?append_empty; cbn.
  - now rewrite Hb.
  - destruct (p c); [| reflexivity].
    rewrite IH. destruct (span p u) as [a r]; reflexivity.
Qed.

Lemma span_space_trimStart s : snd (span is_space s) = trimStart s.
Proof.
  induction s as [| c s IH]; cbn; [reflexivity |].
  destruct (is_space c); [| reflexivity].
  destruct (span is_space s) as [a b]; cbn in *. exact IH.
Qed.

(** [trim] *)

Lemma trimStart_head s c r : trimStart s = String c r -> is_space c = false.
Proof.
  induction s as [| d s IH]; cbn; [discriminate |].
  destruct (is_space d) eqn:Hd; [exact IH | intros [= <- <-]; exact Hd].
Qed.

Lemma trimStart_idem s : trimStart (trimStart s) = trimStart s.
Proof.
  destruct (trimStart s) as [| c r] eqn:E; [reflexivity |].
  cbn. now rewrite (trimStart_head _ _ _ E).
Qed.

Lemma trimStart_spaces s : string_forall is_space s = true -> trimStart s = EmptyString.
Proof.
  induction s as [| c s IH]; cbn; [reflexivity |].
  intros [Hc Hs]%andb_true_iff. rewrite Hc. auto.
Qed.

Lemma trim_spaces s : string_forall is_space s = true -> trim s = EmptyString.
Proof. intros H. unfold trim. now rewrite trimStart_spaces. Qed.

Lemma trimStart_forall p s : string_forall p s = true -> string_forall p (trimStart s) = true.
Proof.
  induction s as [| c s IH]; cbn; [reflexivity |].
  intros [Hc Hs]%andb_true_iff. destruct (is_space c); [auto |]. cbn. now rewrite Hc, Hs.
Qed.

(** [split_newline] *)

Lemma split_newline_forall p s :
  string_forall p s = true ->
  Forall (fun l => string_forall p l = true) (split_newline s).
Proof.
  induction s as [| c s IH]; cbn.
  - intros _. repeat constructor.
  - intros [Hc Hs]%andb_true_iff. specialize (IH Hs).
    destruct (code c =? 10).
    + constructor; [reflexivity | exact IH].
    + destruct (split_newline s) as [| l ls]; [repeat constructor; cbn; now rewrite Hc |].
      inversion IH; subst. constructor; [cbn; now rewrite Hc | assumption].
Qed.

(** [parseInt] on a group of digits *)

Lemma digits_value_nonneg radix dv s : forall acc,
  0 <= radix -> string_forall (fun c => 0 <=? dv c) s = true -> 0 <= acc ->
  0 <= digits_value_from radix dv acc s.
Proof.
  induction s as [| c s IH]; cbn; intros acc Hr Hs Hacc; [exact Hacc |].
  apply andb_true_iff in Hs as [Hc Hs]. apply Z.leb_le in Hc.
  apply IH; [assumption | assumption | nia].
Qed.

Lemma string_forall_impl (p q : ascii -> bool) s :
  (forall c, p c = true -> q c = true) ->
  string_forall p s = true -> string_forall q s = true.
Proof.
  intros Hpq. induction s as [| c s IH]; cbn; [reflexivity |].
  intros [Hc Hs]%andb_true_iff. rewrite (Hpq c Hc), (IH Hs). reflexivity.
Qed.

Lemma decimal_value_nonneg s : string_forall is_digit s = true -> 0 <= decimal_value s.
Proof.
  intros Hs. apply digits_value_nonneg; try lia.
  eapply string_forall_impl; [| exact Hs].
  intros c Hc%is_digit_code. apply Z.leb_le. unfold digit_value. lia.
Qed.

Lemma parseInt_digits ds :
  ds <> EmptyString -> string_forall is_digit ds = true ->
  parseInt ds = Z2F (decimal_value ds).
Proof.
  intros Hne Hds. destruct ds as [| c r]; [congruence |].
  cbn [string_forall] in Hds. apply andb_true_iff in Hds as [Hc Hr].
  unfold parseInt. cbn [trimStart]. rewrite (is_digit_not_space c Hc).
  cbn [strip_sign]. rewrite !(is_digit_not c) by (assumption || reflexivity).
  assert (Hhex : strip_hex_prefix (String c r) = None).
  { destruct r as [| c1 r1]; [reflexivity |]. cbn [strip_hex_prefix].
    cbn [string_forall] in Hr. apply andb_true_iff in Hr as [Hc1 _].
    rewrite !(is_digit_not c1) by (assumption || reflexivity).
    now rewrite andb_false_r. }
  rewrite Hhex.
  rewrite span_all by (cbn; now rewrite Hc, Hr). reflexivity.
Qed.

Lemma nonneg_Z2F z : 0 <= z -> nonneg (Z2F z).
Proof.
  intros Hz. unfold Z2F. apply SF2Prim_nonneg, binary_normalize_nonneg, Hz.
Qed.

Lemma nonneg_parseInt_digits ds :
  ds <> EmptyString -> string_forall is_digit ds = true -> nonneg (parseInt ds).
Proof.
  intros Hne Hds. rewrite parseInt_digits by assumption.
  apply nonneg_Z2F, decimal_value_nonneg, Hds.
Qed.

(** [split_ws] on a trimmed line *)

Lemma string_forall_app p a b :
  string_forall p (a ++ b) = string_forall p a && string_forall p b.
Proof.
  induction a as [| c a IH]; rewrite ?append_cons, ?append_empty; cbn [string_forall].
  - reflexivity.
  - rewrite IH. now rewrite andb_assoc.
Qed.

Lemma trimEnd_cons_fixed c s :
  trimEnd (String c s) = String c s -> trimEnd s = s /\ (is_space c = true -> s <> EmptyString).
Proof.
  cbn [trimEnd]. destruct (trimEnd s) as [| d t] eqn:E.
  - destruct (is_space c); [discriminate |]. intros [= <-]. split; [reflexivity | discriminate].
  - intros [= <-]. split; [reflexivity | discriminate].
Qed.

Lemma split_ws_from_tokens s : forall cur insep,
  string_forall (fun c => negb (is_space c)) cur = true ->
  trimEnd s = s ->
  (insep = false -> cur = EmptyString -> starts_nonspace s) ->
  (insep = true -> s <> EmptyString) ->
  Forall token (split_ws_from s cur insep).
Proof.
  induction s as [| c s IH]; intros cur insep Hcur Hend Hstart Hsep; cbn [split_ws_from].
  - destruct insep; [now specialize (Hsep eq_refl) |].
    constructor; [| constructor]. split; [| exact Hcur].
    intros ->. exact (Hstart eq_refl eq_refl).
  - apply trimEnd_cons_fixed in Hend as [Hend Hne].
    destruct (is_space c) eqn:Hc.
    + specialize (Hne eq_refl).
      assert (Hrec : Forall token (split_ws_from s EmptyString true)).
      { apply IH; [reflexivity | exact Hend | discriminate | intros _; exact Hne]. }
      destruct insep; [exact Hrec |].
      constructor; [| exact Hrec]. split; [| exact Hcur].
      intros ->. specialize (Hstart eq_refl eq_refl). cbn in Hstart. congruence.
    + apply IH.
      * rewrite string_forall_app, Hcur. cbn [string_forall]. now rewrite Hc.
      * exact Hend.
      * intros _ E. destruct cur; discriminate E.
      * discriminate.
Qed.

Lemma trimEnd_idem s : trimEnd (trimEnd s) = trimEnd s.
Proof.
  induction s as [| c s IH]; [reflexivity |].
  cbn [trimEnd]. destruct (trimEnd s) as [| d t] eqn:E.
  - destruct (is_space c) eqn:Hc; [reflexivity |]. cbn [trimEnd]. now rewrite Hc.
  - cbn [trimEnd] in IH |- *. rewrite IH. reflexivity.
Qed.

Lemma trimEnd_head c s d t :
  trimEnd (String c s) = String d t -> d = c.
Proof.
  cbn [trimEnd]. destruct (trimEnd s); [destruct (is_space c); [discriminate |] |];
    now intros [= <- _].
Qed.

Lemma trim_starts_nonspace raw : trim raw <> EmptyString -> starts_nonspace (trim raw).
Proof.
  unfold trim. intros Hne.
  destruct (trimStart raw) as [| c s] eqn:E; [now cbn in Hne |].
  pose proof (trimStart_head _ _ _ E) as Hc.
  destruct (trimEnd (String c s)) as [| d t] eqn:E'; [congruence |].
  apply trimEnd_head in E' as ->. exact Hc.
Qed.

Lemma split_ws_tokens raw :
  trim raw <> EmptyString -> Forall token (split_ws (trim raw)).
Proof.
  intros Hne. apply split_ws_from_tokens.
  - reflexivity.
  - apply trimEnd_idem.
  - intros _ _. now apply trim_starts_nonspace.
  - discriminate.
Qed.

End StringFacts.

(** ** The tag pattern *)

Section ParserFacts.
Import JS Num Server.

Lemma lrcRegex_at_body s : lrcRegex_at s = expect "[" s ≫= tag_body.
Proof. reflexivity. Qed.

Lemma digits1_Some s ds r :
  digits1 s = Some (ds, r) -> digit_group ds /\ s = ds ++ r.
Proof.
  unfold digits1. pose proof (span_fst_forall is_digit s) as Hf.
  pose proof (span_app is_digit s) as Ha.
  destruct (span is_digit s) as [a b]; cbn [fst snd] in *.
  destruct (is_empty a) eqn:He; [discriminate |].
  intros [= <- <-]. apply is_empty_false in He. repeat split; auto.
Qed.

Lemma digits1_group ds b v :
  digit_group ds -> is_digit b = false ->
  digits1 (ds ++ String b v) = Some (ds, String b v).
Proof.
  intros [Hne Hds] Hb. unfold digits1. rewrite span_stop by assumption.
  apply is_empty_false in Hne. now rewrite Hne.
Qed.

Lemma digits1_app_stop u b v :
  is_digit b = false ->
  digits1 (u ++ String b v) = (fun '(ds, r) => (ds, r ++ String b v)) <$> digits1 u.
Proof.
  intros Hb. unfold digits1. rewrite span_app_stop by assumption.
  destruct (span is_digit u) as [a r]; cbn [fst snd].
  destruct (is_empty a); reflexivity.
Qed.

Lemma expect_app_other c u b v :
  Ascii.eqb c b = false ->
  expect c (u ++ String b v) = (fun r => r ++ String b v) <$> expect c u.
Proof.
  intros Hb. destruct u as [| d u]; rewrite ?append_cons, ?append_empty; cbn [expect].
  - now rewrite Hb.
  - destruct (Ascii.eqb c d); reflexivity.
Qed.

(** Text put after a failed attempt does not make it succeed, when the
    text starts with an opening bracket. *)
Lemma tag_body_app_none u v :
  tag_body u = None -> tag_body (u ++ String "[" v) = None.
Proof.
  unfold tag_body. intros H.
  rewrite digits1_app_stop by reflexivity.
  destruct (digits1 u) as [[m r1] |]; [| reflexivity]. cbn in H |- *.
  rewrite expect_app_other by reflexivity.
  destruct (expect ":" r1) as [r2 |]; [| reflexivity]. cbn in H |- *.
  rewrite digits1_app_stop by reflexivity.
  destruct (digits1 r2) as [[sec r3] |]; [| reflexivity]. cbn in H |- *.
  rewrite expect_app_other by reflexivity.
  destruct (expect "." r3) as [r4 |]; [| reflexivity]. cbn in H |- *.
  rewrite digits1_app_stop by reflexivity.
  destruct (digits1 r4) as [[frac r5] |]; [| reflexivity]. cbn in H |- *.
  rewrite expect_app_other by reflexivity.
  destruct (expect "]" r5) as [r6 |]; [| reflexivity]. cbn in H |- *.
  discriminate.
Qed.

Lemma lrcRegex_at_app_none c u v :
  lrcRegex_at (String c u) = None ->
  lrcRegex_at (String c u ++ String "[" v) = None.
Proof.
  rewrite append_cons, !lrcRegex_at_body. cbn [expect].
  destruct (Ascii.eqb "[" c); [| reflexivity]. cbn. apply tag_body_app_none.
Qed.

Lemma lrcRegex_match_None_inv c u :
  lrcRegex_match (String c u) = None ->
  lrcRegex_at (String c u) = None /\ lrcRegex_match u = None.
Proof.
  cbn [lrcRegex_match]. destruct (lrcRegex_at (String c u)); [discriminate | auto].
Qed.

(** The leftmost match: text without a tag before a tag is passed over. *)
Lemma lrcRegex_match_skip pre v g :
  lrcRegex_match pre = None ->
  lrcRegex_at (String "[" v) = Some g ->
  lrcRegex_match (pre ++ String "[" v) = Some g.
Proof.
  intros Hpre Hat. induction pre as [| c u IH]; rewrite ?append_empty.
  - cbn [lrcRegex_match]. now rewrite Hat.
  - apply lrcRegex_match_None_inv in Hpre as [H1 H2].
    pose proof (lrcRegex_at_app_none c u v H1) as H3.
    rewrite append_cons in H3 |- *. cbn [lrcRegex_match]. rewrite H3. auto.
Qed.

Lemma lrcRegex_at_tag mins secs frac rest :
  digit_group mins -> digit_group secs -> digit_group frac ->
  lrcRegex_at (String "[" (mins ++ String ":" (secs ++ String "." (frac ++ String "]" rest))))
  = Some {| group1 := mins; group2 := secs; group3 := frac;
            group4 := fst (span (fun c => negb (is_line_terminator c)) (trimStart rest)) |}.
Proof.
  intros Hm Hs Hf. unfold lrcRegex_at, tag_body. cbn [expect]. cbn.
  rewrite digits1_group by (assumption || reflexivity). cbn.
  rewrite digits1_group by (assumption || reflexivity). cbn.
  rewrite digits1_group by (assumption || reflexivity). cbn.
  now rewrite span_space_trimStart.
Qed.

Lemma tag_body_groups r0 g :
  tag_body r0 = Some g ->
  digit_group (group1 g) /\ digit_group (group2 g) /\ digit_group (group3 g).
Proof.
  unfold tag_body. intros H.
  destruct (digits1 r0) as [[m r1] |] eqn:E1; [| discriminate]. cbn in H.
  destruct (expect ":" r1) as [r2 |]; [| discriminate]. cbn in H.
  destruct (digits1 r2) as [[sec r3] |] eqn:E2; [| discriminate]. cbn in H.
  destruct (expect "." r3) as [r4 |]; [| discriminate]. cbn in H.
  destruct (digits1 r4) as [[frac r5] |] eqn:E3; [| discriminate]. cbn in H.
  destruct (expect "]" r5) as [r6 |]; [| discriminate]. cbn in H.
  injection H as <-. cbn.
  apply digits1_Some in E1 as [? _], E2 as [? _], E3 as [? _]. auto.
Qed.

Lemma lrcRegex_match_groups line g :
  lrcRegex_match line = Some g ->
  digit_group (group1 g) /\ digit_group (group2 g) /\ digit_group (group3 g).
Proof.
  induction line as [| c u IH]; cbn [lrcRegex_match].
  - rewrite lrcRegex_at_body. cbn. discriminate.
  - destruct (lrcRegex_at (String c u)) as [g' |] eqn:E.
    + intros [= <-]. rewrite lrcRegex_at_body in E.
      destruct (expect "[" (String c u)) as [r0 |]; [| discriminate].
      now apply (tag_body_groups r0).
    + exact IH.
Qed.

Lemma lrc_timestamp_digits g :
  digit_group (group1 g) -> digit_group (group2 g) -> digit_group (group3 g) ->
  lrc_timestamp g
  = (Z2F (decimal_value (group1 g)) * 60 + Z2F (decimal_value (group2 g))
     + Z2F (decimal_value (group3 g)) / 100)%float.
Proof.
  intros [] [] []. unfold lrc_timestamp. now rewrite !parseInt_digits.
Qed.

Lemma lrc_timestamp_nonneg line g :
  lrcRegex_match line = Some g -> nonneg (lrc_timestamp g).
Proof.
  intros (H1 & H2 & H3)%lrcRegex_match_groups.
  rewrite lrc_timestamp_digits by assumption.
  destruct H1, H2, H3.
  apply nonneg_add; [apply nonneg_add; [apply nonneg_mul_60 |] | apply nonneg_div_100];
    apply nonneg_Z2F, decimal_value_nonneg; assumption.
Qed.

End ParserFacts.

(** ** Trimming and the tag pattern *)

Section TrimFacts.
Import JS Server.

Lemma is_space_not c b : is_space b = true -> is_space c = false -> Ascii.eqb c b = false.
Proof.
  intros Hb Hc. destruct (Ascii.eqb_spec c b) as [-> | ]; [congruence | reflexivity].
Qed.

Lemma is_space_not_digit b : is_space b = true -> is_digit b = false.
Proof.
  intros Hb. destruct (is_digit b) eqn:E; [| reflexivity].
  apply is_digit_not_space in E. congruence.
Qed.

Lemma append_empty_r s : s ++ EmptyString = s.
Proof. induction s as [| c s IH]; rewrite ?append_cons; [reflexivity | now rewrite IH]. Qed.

(** White space put after a text neither adds nor removes a match. *)
Lemma tag_body_app_space u b v :
  is_space b = true ->
  tag_body (u ++ String b v) = None <-> tag_body u = None.
Proof.
  intros Hb. unfold tag_body.
  pose proof (is_space_not_digit b Hb) as Hd.
  rewrite digits1_app_stop by assumption.
  destruct (digits1 u) as [[m r1] |]; [| easy]. cbn.
  rewrite expect_app_other by (now apply is_space_not).
  destruct (expect ":" r1) as [r2 |]; [| easy]. cbn.
  rewrite digits1_app_stop by assumption.
  destruct (digits1 r2) as [[sec r3] |]; [| easy]. cbn.
  rewrite expect_app_other by (now apply is_space_not).
  destruct (expect "." r3) as [r4 |]; [| easy]. cbn.
  rewrite digits1_app_stop by assumption.
  destruct (digits1 r4) as [[frac r5] |]; [| easy]. cbn.
  rewrite expect_app_other by (now apply is_space_not).
  destruct (expect "]" r5) as [r6 |]; [| easy]. cbn.
  easy.
Qed.

Lemma lrcRegex_at_space b v : is_space b = true -> lrcRegex_at (String b v) = None.
Proof.
  intros Hb. rewrite lrcRegex_at_body. cbn [expect].
  now rewrite (is_space_not "[" b Hb).
Qed.

Lemma lrcRegex_match_spaces w : string_forall is_space w = true -> lrcRegex_match w = None.
Proof.
  induction w as [| b w IH]; [reflexivity |].
  cbn [string_forall]. intros [Hb Hw]%andb_true_iff.
  cbn [lrcRegex_match]. rewrite (lrcRegex_at_space b w Hb). auto.
Qed.

Lemma lrcRegex_match_app_spaces u w :
  string_forall is_space w = true ->
  lrcRegex_match (u ++ w) = None <-> lrcRegex_match u = None.
Proof.
  intros Hw. induction u as [| c u IH]; rewrite ?append_cons, ?append_empty.
  - rewrite (lrcRegex_match_spaces w Hw). easy.
  - cbn [lrcRegex_match].
    assert (Hat : lrcRegex_at (String c (u ++ w)) = None <-> lrcRegex_at (String c u) = None).
    { destruct w as [| b v]; [now rewrite append_empty_r |].
      cbn [string_forall] in Hw. apply andb_true_iff in Hw as [Hb _].
      rewrite !lrcRegex_at_body. cbn [expect].
      destruct (Ascii.eqb "[" c); [| easy]. cbn. now apply tag_body_app_space. }
    destruct (lrcRegex_at (String c (u ++ w))), (lrcRegex_at (String c u)); try easy.
    + destruct Hat as [_ Hat]. now specialize (Hat eq_refl).
    + destruct Hat as [Hat _]. now specialize (Hat eq_refl).
Qed.

Lemma trimEnd_split s :
  exists w, s = trimEnd s ++ w /\ string_forall is_space w = true.
Proof.
  induction s as [| c s (w & Hs & Hw)]; [exists EmptyString; easy |].
  cbn [trimEnd]. destruct (trimEnd s) as [| d t] eqn:E.
  - rewrite append_empty in Hs. subst w.
    destruct (is_space c) eqn:Hc.
    + exists (String c s). cbn [string_forall]. now rewrite Hc, Hw.
    + exists s. easy.
  - exists w. rewrite !append_cons. split; [now f_equal | exact Hw].
Qed.

Lemma lrcRegex_match_trimStart s : lrcRegex_match (trimStart s) = lrcRegex_match s.
Proof.
  induction s as [| c s IH]; [reflexivity |].
  cbn [trimStart]. destruct (is_space c) eqn:Hc; [| reflexivity].
  cbn [lrcRegex_match]. now rewrite (lrcRegex_at_space c s Hc).
Qed.

(** A line matches the pattern exactly when the trimmed line does. *)
Lemma lrcRegex_match_trim raw :
  lrcRegex_match (trim raw) = None <-> lrcRegex_match raw = None.
Proof.
  rewrite <- (lrcRegex_match_trimStart raw). unfold trim.
  destruct (trimEnd_split (trimStart raw)) as (w & Hs & Hw).
  rewrite Hs at 2. symmetry. now apply lrcRegex_match_app_spaces.
Qed.

End TrimFacts.

(** ** Sorting and the two loops *)

Section SortFacts.
Import JS Num Server.

Lemma sort_insert_perm {A} (cmp : A -> A -> float) x l :
  sort_insert cmp x l ≡ₚ x :: l.
Proof.
  induction l as [| y l IH]; cbn [sort_insert]; [reflexivity |].
  destruct (sorts_after cmp x y); [| reflexivity].
  rewrite IH. apply Permutation_swap.
Qed.

Lemma sort_perm {A} (cmp : A -> A -> float) l : sort cmp l ≡ₚ l.
Proof.
  induction l as [| x l IH]; [reflexivity |].
  cbn [sort foldr]. rewrite sort_insert_perm. now constructor.
Qed.

Lemma elem_of_sort {A} (cmp : A -> A -> float) l x : x ∈ sort cmp l <-> x ∈ l.
Proof. now rewrite sort_perm. Qed.

Lemma sorts_after_ord a b :
  ts_nonneg a -> ts_nonneg b ->
  sorts_after by_timestamp a b = (ordF (timestamp b) <? ordF (timestamp a)).
Proof. intros Ha Hb. unfold sorts_after, by_timestamp. now apply sub_pos_ord. Qed.

Lemma in_order_ord a b :
  ts_nonneg a -> ts_nonneg b ->
  in_order a b <->
  ordF (timestamp a) <= ordF (timestamp b)
  /\ (ordF (timestamp a) = ordF (timestamp b) -> line_lt a b).
Proof.
  intros Ha Hb. unfold in_order.
  rewrite leb_ord, eqb_ord by assumption.
  rewrite Z.leb_le, Z.eqb_eq. reflexivity.
Qed.

Lemma sort_insert_in_order x l :
  ts_nonneg x -> Forall ts_nonneg l -> Forall (line_lt x) l ->
  StronglySorted in_order l ->
  StronglySorted in_order (sort_insert by_timestamp x l).
Proof.
  intros Hx. induction l as [| y l IH]; intros Hl Hlt Hs; cbn [sort_insert].
  - repeat constructor.
  - inversion Hl as [| ? ? Hy Hl']; subst.
    inversion Hlt as [| ? ? Hxy Hlt']; subst.
    inversion Hs as [| ? ? Hs' Hyl]; subst.
    rewrite sorts_after_ord by assumption.
    destruct (ordF (timestamp y) <? ordF (timestamp x)) eqn:E.
    + apply Z.ltb_lt in E. constructor; [now apply IH |].
      rewrite sort_insert_perm. constructor; [| exact Hyl].
      apply in_order_ord; [assumption | assumption | lia].
    + apply Z.ltb_ge in E. constructor; [exact Hs |].
      constructor; [apply in_order_ord; auto |].
      rewrite Forall_forall in Hyl, Hl', Hlt' |- *. intros z Hz.
      pose proof (Hyl z Hz) as Hyz. apply in_order_ord in Hyz; auto.
      apply in_order_ord; auto. split; [lia | intros _; auto].
Qed.

Lemma sort_in_order l :
  Forall ts_nonneg l -> StronglySorted line_lt l ->
  StronglySorted in_order (sort by_timestamp l).
Proof.
  induction l as [| x l IH]; intros Hl Hs; cbn [sort foldr]; [constructor |].
  inversion Hl; subst. inversion Hs; subst.
  apply sort_insert_in_order; auto; fold (sort by_timestamp l); rewrite sort_perm; auto.
Qed.

(** ** The loops *)

Lemma lrcRegex_match_empty : lrcRegex_match EmptyString = None.
Proof. reflexivity. Qed.

Lemma lrc_loop_collect lines : forall i hasLrcFormat lyrics,
  lrc_loop lines i hasLrcFormat lyrics
  = (hasLrcFormat || existsb has_tag lines, (lyrics ++ collect lrc_line lines i)%list).
Proof.
  induction lines as [| raw rest IH]; intros i h lyrics; cbn [lrc_loop existsb collect].
  - now rewrite orb_false_r, app_nil_r.
  - unfold has_tag at 1, lrc_line at 1.
    destruct (is_empty (trim raw)) eqn:He.
    + apply is_empty_true in He. rewrite He, lrcRegex_match_empty. cbn [orb]. apply IH.
    + destruct (lrcRegex_match (trim raw)) as [g |]; cbn [orb].
      * destruct (is_empty (trim (group4 g))); cbn [negb]; rewrite IH, ?orb_true_r; cbn [orb].
        -- reflexivity.
        -- now rewrite <- app_assoc.
      * apply IH.
Qed.

Lemma plain_loop_collect lines : forall i lyrics,
  plain_loop lines i lyrics = (lyrics ++ collect plain_line lines i)%list.
Proof.
  induction lines as [| raw rest IH]; intros i lyrics; cbn [plain_loop collect].
  - now rewrite app_nil_r.
  - unfold plain_line at 1.
    destruct (is_empty (trim raw)); [apply IH |].
    destruct (2 <=? length (split_ws (trim raw)))%nat; [| apply IH].
    destruct (negb (isNaN _) && ge _ 0); [| apply IH].
    rewrite IH. now rewrite <- app_assoc.
Qed.

Lemma parseLyrics_collect content :
  parseLyrics content
  = sort by_timestamp
      (if existsb has_tag (split_newline content)
       then collect lrc_line (split_newline content) 0
       else collect plain_line (split_newline content) 0).
Proof.
  unfold parseLyrics. rewrite lrc_loop_collect. cbn [orb app].
  destruct (existsb has_tag (split_newline content)) eqn:E; cbn [negb]; [reflexivity |].
  rewrite plain_loop_collect.
  replace (collect lrc_line (split_newline content) 0) with (@nil LyricLine); [reflexivity |].
  symmetry. generalize 0%nat.
  induction (split_newline content) as [| raw rest IH]; intros i; [reflexivity |].
  cbn [existsb] in E. apply orb_false_iff in E as [E1 E2].
  cbn [collect]. unfold lrc_line at 1. unfold has_tag in E1.
  destruct (lrcRegex_match (trim raw)); [discriminate | auto].
Qed.

Lemma elem_of_collect f lines : forall i r,
  r ∈ collect f lines i <->
  exists k raw, lines !! k = Some raw /\ f (i + k)%nat raw = Some r.
Proof.
  induction lines as [| raw rest IH]; intros i r; cbn [collect].
  - split; [intros H; inversion H | intros (k & raw & H & _); destruct k; discriminate].
  - assert (Hrest : r ∈ collect f rest (S i) <->
                    exists k raw', (raw :: rest) !! S k = Some raw' /\ f (i + S k)%nat raw' = Some r).
    { rewrite IH. split; intros (k & raw' & H1 & H2); exists k, raw';
        (split; [exact H1 |]); [now rewrite Nat.add_succ_r | now rewrite Nat.add_succ_r in H2]. }
    split.
    + intros H. destruct (f i raw) as [r0 |] eqn:E.
      * apply elem_of_cons in H as [-> | H].
        -- exists 0%nat, raw. now rewrite Nat.add_0_r.
        -- apply Hrest in H as (k & raw' & H). exists (S k), raw'. exact H.
      * apply Hrest in H as (k & raw' & H). exists (S k), raw'. exact H.
    + intros (k & raw' & H1 & H2). destruct k as [| k].
      * cbn in H1. injection H1 as <-. rewrite Nat.add_0_r in H2. rewrite H2. now left.
      * assert (H : r ∈ collect f rest (S i)) by (apply Hrest; eauto).
        destruct (f i raw); [now right | exact H].
Qed.

Lemma collect_Forall (P : LyricLine -> Prop) f lines i :
  (forall k raw r, f k raw = Some r -> P r) -> Forall P (collect f lines i).
Proof.
  intros Hf. rewrite Forall_forall. intros r (k & raw & _ & H)%elem_of_collect. eauto.
Qed.

Lemma collect_line_numbers f lines :
  (forall k raw r, f k raw = Some r -> lineNumber r = S k) ->
  forall i, StronglySorted line_lt (collect f lines i).
Proof.
  intros Hf. induction lines as [| raw rest IH]; intros i; cbn [collect]; [constructor |].
  destruct (f i raw) as [r |] eqn:E; [| apply IH].
  constructor; [apply IH |].
  rewrite Forall_forall. intros r' (k & raw' & _ & H)%elem_of_collect.
  unfold line_lt. rewrite (Hf _ _ _ E), (Hf _ _ _ H). lia.
Qed.

Lemma collect_length f lines : forall i, (length (collect f lines i) <= length lines)%nat.
Proof.
  induction lines as [| raw rest IH]; intros i; cbn [collect length]; [lia |].
  specialize (IH (S i)). destruct (f i raw); cbn [length]; lia.
Qed.

Lemma collect_nil f lines : forall i,
  (forall k raw, lines !! k = Some raw -> f (i + k)%nat raw = None) ->
  collect f lines i = [].
Proof.
  intros i H. destruct (collect f lines i) as [| r l] eqn:E; [reflexivity |].
  assert (Hr : r ∈ collect f lines i) by (rewrite E; now left).
  apply elem_of_collect in Hr as (k & raw & H1 & H2).
  rewrite (H k raw H1) in H2. discriminate.
Qed.

Lemma lrc_line_number k raw r : lrc_line k raw = Some r -> lineNumber r = S k.
Proof.
  unfold lrc_line. destruct (lrcRegex_match (trim raw)); [| discriminate].
  destruct (is_empty _); [discriminate |]. now intros [= <-].
Qed.

Lemma plain_line_number k raw r : plain_line k raw = Some r -> lineNumber r = S k.
Proof.
  unfold plain_line. destruct (is_empty _); [discriminate |].
  destruct (2 <=? _)%nat; [| discriminate].
  destruct (negb _ && _); [| discriminate]. now intros [= <-].
Qed.

Lemma lrc_line_nonneg k raw r : lrc_line k raw = Some r -> ts_nonneg r.
Proof.
  unfold lrc_line. destruct (lrcRegex_match (trim raw)) as [g |] eqn:E; [| discriminate].
  destruct (is_empty _); [discriminate |]. intros [= <-].
  unfold ts_nonneg. cbn. eapply lrc_timestamp_nonneg, E.
Qed.

Lemma plain_line_nonneg k raw r : plain_line k raw = Some r -> ts_nonneg r.
Proof.
  unfold plain_line. destruct (is_empty _); [discriminate |].
  destruct (2 <=? _)%nat; [| discriminate].
  destruct (negb _ && ge _ 0) eqn:E; [| discriminate]. intros [= <-].
  apply andb_true_iff in E as [_ E]. exact E.
Qed.

End SortFacts.

(** ** The parser *)

Section ParserTheorems.
Import JS Num Server.

Lemma existsb_has_tag lines :
  existsb has_tag lines = true <->
  exists raw, raw ∈ lines /\ lrcRegex_match (trim raw) <> None.
Proof.
  rewrite existsb_exists. split; intros (raw & Hin & H); exists raw.
  - split; [now apply list_elem_of_In |]. unfold has_tag in H.
    destruct (lrcRegex_match (trim raw)); [discriminate | discriminate].
  - split; [now apply list_elem_of_In |]. unfold has_tag.
    destruct (lrcRegex_match (trim raw)); [reflexivity | congruence].
Qed.

Lemma existsb_has_tag_false lines :
  existsb has_tag lines = false <->
  forall raw, raw ∈ lines -> lrcRegex_match (trim raw) = None.
Proof.
  split.
  - intros H raw Hin. destruct (lrcRegex_match (trim raw)) eqn:E; [| reflexivity].
    assert (existsb has_tag lines = true); [| congruence].
    apply existsb_has_tag. exists raw. split; [exact Hin | congruence].
  - intros H. destruct (existsb has_tag lines) eqn:E; [| reflexivity].
    apply existsb_has_tag in E as (raw & Hin & Hne). now specialize (H raw Hin).
Qed.

Lemma lrc_line_Some i raw r :
  lrc_line i raw = Some r <->
  exists g, lrcRegex_match (trim raw) = Some g
    /\ trim (group4 g) <> EmptyString
    /\ r = {| timestamp := lrc_timestamp g; text := trim (group4 g); lineNumber := S i |}.
Proof.
  unfold lrc_line. destruct (lrcRegex_match (trim raw)) as [g |]; cbv zeta.
  - destruct (is_empty (trim (group4 g))) eqn:E.
    + apply is_empty_true in E. split; [discriminate |]. intros (g' & [= <-] & H & _). contradiction.
    + apply is_empty_false in E. split.
      * intros [= <-]. eauto.
      * intros (g' & [= <-] & _ & ->). reflexivity.
  - split; [discriminate | intros (g & H & _); discriminate].
Qed.

Lemma plain_line_Some i raw r :
  plain_line i raw = Some r <->
  trim raw <> EmptyString
  /\ let parts := split_ws (trim raw) in
     (2 <= length parts)%nat
     /\ isNaN (parseFloat (hd EmptyString parts)) = false
     /\ (0 <=? parseFloat (hd EmptyString parts))%float = true
     /\ r = {| timestamp := parseFloat (hd EmptyString parts);
               text := join_space (tl parts); lineNumber := S i |}.
Proof.
  unfold plain_line. cbv zeta.
  destruct (is_empty (trim raw)) eqn:E.
  { apply is_empty_true in E. split; [discriminate | intros [H _]; contradiction]. }
  apply is_empty_false in E.
  destruct (2 <=? length (split_ws (trim raw)))%nat eqn:E2.
  2:{ apply Nat.leb_gt in E2. split; [discriminate | intros (_ & H & _); lia]. }
  apply Nat.leb_le in E2. unfold ge.
  destruct (isNaN (parseFloat (hd EmptyString (split_ws (trim raw))))) eqn:E3; cbn [negb andb].
  { split; [discriminate | intros (_ & _ & H & _); discriminate]. }
  destruct (0 <=? parseFloat (hd EmptyString (split_ws (trim raw))))%float eqn:E4.
  - split; [intros [= <-]; auto | intros (_ & _ & _ & _ & ->); reflexivity].
  - split; [discriminate | intros (_ & _ & _ & H & _); discriminate].
Qed.

(** C5: for every input string the result of [parseLyrics] is sorted by
    ascending timestamp, and among lines of equal timestamp a line of
    the source comes before the lines that follow it in the source. *)
Theorem parseLyrics_sorted_stable (content : string) :
  StronglySorted in_order (parseLyrics content).
Proof.
  rewrite parseLyrics_collect. apply sort_in_order.
  - destruct (existsb has_tag _); apply collect_Forall.
    + exact lrc_line_nonneg.
    + exact plain_line_nonneg.
  - destruct (existsb has_tag _); apply collect_line_numbers.
    + exact lrc_line_number.
    + exact plain_line_number.
Qed.

Example parseLyrics_ties :
  map (fun r => (text r, lineNumber r)) (parseLyrics Examples.ties)
  = [("a", 2%nat); ("b", 4%nat); ("c", 1%nat); ("d", 3%nat)].
Proof. vm_compute. reflexivity. Qed.

(** In tag mode the result holds the records of the tagged lines and
    nothing else. *)
Lemma parseLyrics_tag_mode (content : string) :
  (exists raw, raw ∈ split_newline content /\ lrcRegex_match (trim raw) <> None) ->
  parseLyrics content = sort by_timestamp (collect lrc_line (split_newline content) 0)
  /\ forall r, r ∈ parseLyrics content <->
       exists i raw g,
         split_newline content !! i = Some raw
         /\ lrcRegex_match (trim raw) = Some g
         /\ trim (group4 g) <> EmptyString
         /\ r = {| timestamp := lrc_timestamp g; text := trim (group4 g);
                   lineNumber := S i |}.
Proof.
  intros H%existsb_has_tag. rewrite parseLyrics_collect, H.
  split; [reflexivity |]. intros r.
  rewrite elem_of_sort, elem_of_collect. cbn [Nat.add].
  split.
  - intros (i & raw & Hi & (g & Hg)%lrc_line_Some). exists i, raw, g. tauto.
  - intros (i & raw & g & Hi & Hg). exists i, raw. split; [exact Hi |].
    apply lrc_line_Some. exists g. exact Hg.
Qed.



(** The mixed file of the specification: one record, of the tagged line. *)
Example parseLyrics_mixed :
  parseLyrics Examples.mixed = [ {| timestamp := 1; text := "a"; lineNumber := 1 |} ].
Proof. vm_compute. reflexivity. Qed.

(** The plain file of the specification: the line that starts with no
    number is dropped. *)
Example parseLyrics_plain :
  parseLyrics Examples.plain
  = [ {| timestamp := 0.5; text := "hi there"; lineNumber := 1 |};
      {| timestamp := 2; text := "bye"; lineNumber := 3 |} ].
Proof. vm_compute. reflexivity. Qed.

(** C7: [parseLyrics] is a function defined on every string, with no
    error among its results: it returns a list with at most one record
    per line, the empty list when the input is empty or white space
    only, and the empty list when neither loop accepts a line. *)
Theorem parseLyrics_total (content : string) :
  (length (parseLyrics content) <= length (split_newline content))%nat
  /\ (string_forall is_space content = true -> parseLyrics content = [])
  /\ ((forall i raw, split_newline content !! i = Some raw ->
         lrc_line i raw = None /\ plain_line i raw = None) ->
      parseLyrics content = []).
Proof.
  assert (Hnone : (forall i raw, split_newline content !! i = Some raw ->
                     lrc_line i raw = None /\ plain_line i raw = None) ->
                  parseLyrics content = []).
  { intros H. rewrite parseLyrics_collect.
    rewrite !collect_nil by (intros k raw Hk; apply (H k raw Hk)).
    now destruct (existsb has_tag _). }
  split; [| split; [| exact Hnone]].
  - rewrite parseLyrics_collect, sort_perm.
    destruct (existsb has_tag _); apply collect_length.
  - intros Hws. apply Hnone. intros i raw Hi.
    assert (Hraw : trim raw = EmptyString).
    { apply trim_spaces. pose proof (split_newline_forall _ _ Hws) as Hall.
      rewrite Forall_forall in Hall. apply Hall. eapply list_elem_of_lookup_2, Hi. }
    unfold lrc_line, plain_line. rewrite Hraw. auto.
Qed.

Lemma parseLyrics_total_witness :
  string_forall is_space Examples.blank = true /\ parseLyrics Examples.blank = [].
Proof.
  split; [vm_compute; reflexivity |].
  apply (proj1 (proj2 (parseLyrics_total Examples.blank))). vm_compute. reflexivity.
Defined.

Example parseLyrics_empty : parseLyrics EmptyString = [].
Proof. vm_compute. reflexivity. Qed.



(** The two lines of the specification: 1 + 50/100 and 0 + 25/100. *)
Example parseLyrics_two_tags :
  parseLyrics Examples.two_tags
  = [ {| timestamp := 0.25; text := "world"; lineNumber := 2 |};
      {| timestamp := 1.5; text := "hello"; lineNumber := 1 |} ].
Proof. vm_compute. reflexivity. Qed.

(** One digit: 1 + 5/100, the number written 1.05, and not 1.5. *)
Example parseLyrics_one_digit :
  parseLyrics Examples.one_digit
  = [ {| timestamp := 0x1.0cccccccccccdp+0; text := "hello"; lineNumber := 1 |} ]
  /\ (0x1.0cccccccccccdp+0 =? 1.5)%float = false
  /\ (1 + 5 / 100 =? 0x1.0cccccccccccdp+0)%float = true.
Proof. repeat split; vm_compute; reflexivity. Qed.

(** Three digits: 1 + 500/100. *)
Example parseLyrics_three_digits :
  parseLyrics Examples.three_digits
  = [ {| timestamp := 6; text := "hello"; lineNumber := 1 |} ].
Proof. vm_compute. reflexivity. Qed.

(** C10: the tag is looked for anywhere in the line.  When the trimmed
    line is some text without a tag, then a tag, then a remainder, the
    line matches with the groups of that tag, so the file is read in
    tag mode; the record of the line has as text the trimmed remainder
    (up to a line terminator, when the remainder has one), and the
    text before the tag is in no field of the record. *)
Theorem tag_matched_anywhere (content : string) (i : nat) (raw pre mins secs frac rest : string) :
  split_newline content !! i = Some raw ->
  trim raw = pre ++ String "[" (mins ++ String ":" (secs ++ String "." (frac ++ String "]" rest))) ->
  lrcRegex_match pre = None ->
  digit_group mins -> digit_group secs -> digit_group frac ->
  let remainder :=
    fst (span (fun c => negb (is_line_terminator c)) (trimStart rest)) in
  lrcRegex_match (trim raw)
  = Some {| group1 := mins; group2 := secs; group3 := frac; group4 := remainder |}
  /\ parseLyrics content = sort by_timestamp (collect lrc_line (split_newline content) 0)
  /\ (trim remainder <> EmptyString ->
      {| timestamp := (Z2F (decimal_value mins) * 60 + Z2F (decimal_value secs)
                       + Z2F (decimal_value frac) / 100)%float;
         text := trim remainder; lineNumber := S i |} ∈ parseLyrics content)
  /\ (string_forall (fun c => negb (is_line_terminator c)) rest = true ->
      trim remainder = trim rest).
Proof.
  intros Hi Hraw Hpre Hm Hs Hf remainder.
  assert (Hmatch : lrcRegex_match (trim raw)
                   = Some {| group1 := mins; group2 := secs; group3 := frac; group4 := remainder |}).
  { rewrite Hraw. apply lrcRegex_match_skip; [exact Hpre |].
    now apply lrcRegex_at_tag. }
  assert (Htag : exists raw, raw ∈ split_newline content /\ lrcRegex_match (trim raw) <> None).
  { exists raw. split; [eapply list_elem_of_lookup_2, Hi | congruence]. }
  destruct (parseLyrics_tag_mode content Htag) as [Hparse Hmem].
  repeat split; try assumption.
  - intros Hne. apply Hmem. eexists i, raw, _. repeat split; [exact Hi | exact Hmatch | exact Hne |].
    cbn [group4]. f_equal. symmetry. now apply lrc_timestamp_digits.
  - intros Hlt. subst remainder.
    rewrite span_all by now apply trimStart_forall.
    cbn [fst]. unfold trim. now rewrite trimStart_idem.
Qed.

Lemma tag_matched_anywhere_witness :
  lrcRegex_match "intro " = None
  /\ lrcRegex_match (trim "intro [1:02.03]   text here")
     = Some {| group1 := "1"; group2 := "02"; group3 := "03"; group4 := "text here" |}
  /\ parseLyrics Examples.tag_inside
     = sort by_timestamp (collect lrc_line (split_newline Examples.tag_inside) 0)
  /\ {| timestamp := (Z2F 1 * 60 + Z2F 2 + Z2F 3 / 100)%float;
        text := "text here"; lineNumber := 1 |} ∈ parseLyrics Examples.tag_inside.
Proof.
  assert (Hpre : lrcRegex_match "intro " = None) by (vm_compute; reflexivity).
  destruct (tag_matched_anywhere Examples.tag_inside 0 "intro [1:02.03]   text here"
              "intro " "1" "02" "03" "   text here")
    as (Hm & Hp & Hin & _).
  - vm_compute. reflexivity.
  - vm_compute. reflexivity.
  - exact Hpre.
  - split; [discriminate | reflexivity].
  - split; [discriminate | reflexivity].
  - split; [discriminate | reflexivity].
  - split; [exact Hpre |]. split; [exact Hm |]. split; [exact Hp |].
    apply Hin. vm_compute. discriminate.
Defined.

(** A tag after other text puts the whole file in tag mode. *)
Example parseLyrics_tag_inside :
  parseLyrics Examples.tag_inside
  = [ {| timestamp := (1 * 60 + 2 + 3 / 100)%float; text := "text here";
         lineNumber := 1 |} ].
Proof. vm_compute. reflexivity. Qed.

End ParserTheorems.

(** ** The registry *)

Section RegistryFacts.
Import JS Server.
Variable sha256_hex : string -> string.
Variable fs : FileSystem.
Variable uploadsDir : string.

Lemma calculateFileHash_readable filePath buf :
  readFileSync fs filePath = Return buf ->
  calculateFileHash sha256_hex fs filePath = Return (Some (sha256_hex buf)).
Proof. intros H. unfold calculateFileHash. rewrite H. reflexivity. Qed.

Lemma calculateFileHash_unreadable filePath e :
  readFileSync fs filePath = Throw e ->
  calculateFileHash sha256_hex fs filePath = Return None.
Proof. intros H. unfold calculateFileHash. rewrite H. reflexivity. Qed.

Lemma calculateFileHash_returns filePath :
  exists hash, calculateFileHash sha256_hex fs filePath = Return hash.
Proof.
  unfold calculateFileHash. destruct (readFileSync fs filePath); cbn; eauto.
Qed.

Lemma load_loop_keeps files : forall reg n k r,
  reg !! k = Some r ->
  snd (load_loop sha256_hex fs uploadsDir files reg n) !! k = Some r.
Proof.
  induction files as [| file rest IH]; intros reg n k r Hk; cbn [load_loop]; [exact Hk |].
  destruct (statSync fs (join uploadsDir file)) as [stats | e]; [| exact Hk].
  destruct (isFile stats); [| now apply IH].
  destruct (calculateFileHash_returns (join uploadsDir file)) as [h ->]; cbv zeta.
  destruct (truthy h && _) eqn:Hc;
    [| now apply IH].
  apply IH. apply andb_true_iff in Hc as [_ Hc]. apply negb_true_iff in Hc.
  apply bool_decide_eq_false in Hc.
  rewrite lookup_insert_ne; [exact Hk |].
  intros E. apply Hc. rewrite E, Hk. eauto.
Qed.



Lemma load_loop_origin files : forall reg n k r,
  snd (load_loop sha256_hex fs uploadsDir files reg n) !! k = Some r ->
  reg !! k = Some r \/
  (reg !! k = None /\ exists st buf,
      filename r ∈ files /\
      statSync fs (join uploadsDir (filename r)) = Return st /\ isFile st = true /\
      readFileSync fs (join uploadsDir (filename r)) = Return buf /\
      sha256_hex buf = k).
Proof.
  induction files as [| file rest IH]; intros reg n k r; cbn [load_loop]; [now left |].
  destruct (statSync fs (join uploadsDir file)) as [stats | e] eqn:Hstats; [| now left].
  destruct (isFile stats) eqn:Hfile.
  2:{ intros H. apply IH in H as [H | (H0 & st & buf & Hin & H)]; [now left | right].
      split; [exact H0 |]. exists st, buf. split; [now right | exact H]. }
  unfold calculateFileHash.
  destruct (readFileSync fs (join uploadsDir file)) as [buf | e] eqn:Hread; cbv zeta; cbn [try_catch truthy default from_option andb]; unfold id.
  2:{ intros H. apply IH in H as [H | (H0 & st & buf & Hin & H)]; [now left | right].
      split; [exact H0 |]. exists st, buf. split; [now right | exact H]. }
  destruct (negb (is_empty (sha256_hex buf)) && negb (bool_decide (is_Some (reg !! sha256_hex buf)))) eqn:Hc.
  2:{ intros H. apply IH in H as [H | (H0 & st & buf' & Hin & H)]; [now left | right].
      split; [exact H0 |]. exists st, buf'. split; [now right | exact H]. }
  apply andb_true_iff in Hc as [_ Hc]. apply negb_true_iff in Hc.
  apply bool_decide_eq_false in Hc.
  intros H. apply IH in H as [H | (H0 & st & buf' & Hin & H)].
  - rewrite lookup_insert in H. case_decide as Hd.
    + injection H as <-. subst k. right. split.
      * destruct (reg !! sha256_hex buf) eqn:E; [exfalso; apply Hc; eauto | reflexivity].
      * exists stats, buf. cbn [filename]. repeat split; try assumption. now left.
    + now left.
  - rewrite lookup_insert in H0. case_decide; [discriminate |].
    right. split; [exact H0 |]. exists st, buf'. split; [now right | exact H].
Qed.


End RegistryFacts.

Section RegistryTheorems.
Import JS Server Examples.



(** The example directory: the copy and the unreadable file leave no
    record. *)
Example bulk_load_example :
  map_to_list (initializeFileHashes toy_digest example_fs "uploads" ∅)
  ≡ₚ [ (toy_digest "[00:01.00] la",
        {| filename := "1-song.lrc"; originalName := "1-song.lrc";
           uploadDate := "2024-01-01T00:00:00.000Z";
           hash := toy_digest "[00:01.00] la" |});
       (toy_digest "1 la",
        {| filename := "4-other.txt"; originalName := "4-other.txt";
           uploadDate := "2024-01-01T00:00:00.000Z";
           hash := toy_digest "1 la" |}) ].
Proof.
  replace (initializeFileHashes toy_digest example_fs "uploads" ∅)
    with (<[toy_digest "[00:01.00] la" :=
              {| filename := "1-song.lrc"; originalName := "1-song.lrc";
                 uploadDate := "2024-01-01T00:00:00.000Z";
                 hash := toy_digest "[00:01.00] la" |}]>
          (<[toy_digest "1 la" :=
              {| filename := "4-other.txt"; originalName := "4-other.txt";
                 uploadDate := "2024-01-01T00:00:00.000Z";
                 hash := toy_digest "1 la" |}]> (∅ : gmap string FileInfo)))
    by (apply map_eq; intros k; vm_compute; reflexivity).
  rewrite map_to_list_insert by (vm_compute; reflexivity).
  rewrite map_to_list_insert by apply lookup_empty.
  now rewrite map_to_list_empty.
Qed.

(** C8 as stated fails: for a file that cannot be read, the lookup
    answers [null] as it does for a file that is not registered, and
    the registration returns [null]; neither throws. *)
Lemma hash_failure_is_not_propagated :
  readFileSync example_fs "uploads/3-locked.mp3" = Throw "EACCES"
  /\ findDuplicateFile toy_digest example_fs ∅ "uploads/3-locked.mp3" = Return None
  /\ registerFile toy_digest example_fs ∅ "uploads/3-locked.mp3" "locked.mp3"
       "2024-01-02T00:00:00.000Z" = (Return None, ∅)
  /\ ~ (exists e, findDuplicateFile toy_digest example_fs ∅ "uploads/3-locked.mp3" = Throw e)
  /\ ~ (exists e, fst (registerFile toy_digest example_fs ∅ "uploads/3-locked.mp3"
                        "locked.mp3" "2024-01-02T00:00:00.000Z") = Throw e).
Proof.
  repeat split; try reflexivity; intros [e H]; discriminate H.
Qed.

(** C8, amended: when the file cannot be read, [calculateFileHash]
    catches the error and returns [null]; [findDuplicateFile] then
    returns [null] and [registerFile] returns [null] and leaves the
    registry as it was.  No error reaches the caller. *)
Theorem hash_failure_yields_null
    (sha256_hex : string -> string) (fs : FileSystem)
    (fileHashes : gmap string FileInfo) (filePath originalName now e : string) :
  readFileSync fs filePath = Throw e ->
  calculateFileHash sha256_hex fs filePath = Return None
  /\ findDuplicateFile sha256_hex fs fileHashes filePath = Return None
  /\ registerFile sha256_hex fs fileHashes filePath originalName now
     = (Return None, fileHashes).
Proof.
  intros H. pose proof (calculateFileHash_unreadable sha256_hex fs filePath e H) as Hc.
  unfold findDuplicateFile, registerFile. rewrite Hc. auto.
Qed.

Lemma hash_failure_yields_null_witness :
  readFileSync example_fs "uploads/3-locked.mp3" = Throw "EACCES"
  /\ calculateFileHash toy_digest example_fs "uploads/3-locked.mp3" = Return None
  /\ findDuplicateFile toy_digest example_fs ∅ "uploads/3-locked.mp3" = Return None
  /\ registerFile toy_digest example_fs ∅ "uploads/3-locked.mp3" "locked.mp3"
       "2024-01-02T00:00:00.000Z" = (Return None, ∅).
Proof.
  split; [reflexivity |].
  apply (hash_failure_yields_null toy_digest example_fs ∅ "uploads/3-locked.mp3"
           "locked.mp3" "2024-01-02T00:00:00.000Z" "EACCES").
  reflexivity.
Defined.

(** C2 as stated fails: a second registration of a file with the same
    content returns a new record and stores it in place of the first;
    it throws nothing. *)
Lemma second_register_replaces_record :
  let digest := toy_digest "[00:01.00] la" in
  let first := {| filename := "1-song.lrc"; originalName := "song.lrc";
                  uploadDate := "2024-01-02T00:00:00.000Z"; hash := digest |} in
  let second := {| filename := "2-copy.lrc"; originalName := "copy.lrc";
                   uploadDate := "2024-01-03T00:00:00.000Z"; hash := digest |} in
  let reg1 := snd (registerFile toy_digest example_fs ∅ "uploads/1-song.lrc"
                     "song.lrc" "2024-01-02T00:00:00.000Z") in
  let call2 := registerFile toy_digest example_fs reg1 "uploads/2-copy.lrc"
                 "copy.lrc" "2024-01-03T00:00:00.000Z" in
  reg1 !! digest = Some first
  /\ fst call2 = Return (Some second)
  /\ snd call2 !! digest = Some second
  /\ first <> second
  /\ ~ (exists e, fst call2 = Throw e).
Proof.
  cbv zeta. repeat split; try (vm_compute; reflexivity).
  - discriminate.
  - intros [e H]. vm_compute in H. discriminate H.
Qed.

(** C2, amended: for a file that can be read, [registerFile] returns a
    new record and stores it under the digest of the file, in place of
    the record stored there if there is one; the records of the other
    digests stay as they are; and when [findDuplicateFile] found no
    record for the file, every record of the registry stays as it is. *)
Theorem register_stores_new_record
    (sha256_hex : string -> string) (fs : FileSystem)
    (fileHashes : gmap string FileInfo) (filePath originalName now buf : string) :
  readFileSync fs filePath = Return buf ->
  sha256_hex buf <> EmptyString ->
  let fileInfo := {| filename := basename filePath; originalName := originalName;
                     uploadDate := now; hash := sha256_hex buf |} in
  registerFile sha256_hex fs fileHashes filePath originalName now
  = (Return (Some fileInfo), <[sha256_hex buf := fileInfo]> fileHashes)
  /\ (forall k, k <> sha256_hex buf ->
        (<[sha256_hex buf := fileInfo]> fileHashes) !! k = fileHashes !! k)
  /\ (findDuplicateFile sha256_hex fs fileHashes filePath = Return None ->
      forall k r, fileHashes !! k = Some r ->
        (<[sha256_hex buf := fileInfo]> fileHashes) !! k = Some r).
Proof.
  intros Hread Hne fileInfo.
  pose proof (calculateFileHash_readable sha256_hex fs filePath buf Hread) as Hc.
  apply is_empty_false in Hne.
  repeat split.
  - unfold registerFile. rewrite Hc. cbn [truthy]. rewrite Hne. reflexivity.
  - intros k Hk. now rewrite lookup_insert_ne.
  - unfold findDuplicateFile. rewrite Hc. cbn [truthy]. rewrite Hne. cbn [negb default from_option].
    unfold id. destruct (fileHashes !! sha256_hex buf) eqn:E; [discriminate |].
    intros _ k r Hk. rewrite lookup_insert_ne; [exact Hk | congruence].
Qed.

Lemma register_stores_new_record_witness :
  readFileSync example_fs "uploads/1-song.lrc" = Return "[00:01.00] la"
  /\ toy_digest "[00:01.00] la" <> EmptyString
  /\ registerFile toy_digest example_fs ∅ "uploads/1-song.lrc" "song.lrc"
       "2024-01-02T00:00:00.000Z"
     = (Return (Some {| filename := "1-song.lrc"; originalName := "song.lrc";
                        uploadDate := "2024-01-02T00:00:00.000Z";
                        hash := toy_digest "[00:01.00] la" |}),
        <[toy_digest "[00:01.00] la" :=
            {| filename := "1-song.lrc"; originalName := "song.lrc";
               uploadDate := "2024-01-02T00:00:00.000Z";
               hash := toy_digest "[00:01.00] la" |}]> ∅).
Proof.
  split; [reflexivity |]. split; [discriminate |].
  apply (register_stores_new_record toy_digest example_fs ∅ "uploads/1-song.lrc"
           "song.lrc" "2024-01-02T00:00:00.000Z" "[00:01.00] la");
    [reflexivity | discriminate].
Defined.

End RegistryTheorems.

(** ** The player *)

Section PlayerFacts.
Import JS Num Player.

Lemma find_lyric_spec lyrics currentTime : forall n,
  let idx := find_lyric lyrics currentTime n in
  (idx = -1 /\ forall i, (i < n)%nat -> ~ qualifies lyrics currentTime i)
  \/ (exists i, (i < n)%nat /\ idx = Z.of_nat i /\ qualifies lyrics currentTime i
                /\ forall j, (i < j < n)%nat -> ~ qualifies lyrics currentTime j).
Proof.
  induction n as [| n IH]; cbn [find_lyric].
  - left. split; [reflexivity | lia].
  - destruct (lyrics !! n) as [l |] eqn:Hl.
    + unfold ge. destruct (timestamp l <=? currentTime)%float eqn:Hle.
      * right. exists n. repeat split; try lia. exists l. auto.
      * destruct IH as [[E H] | (i & Hi & E & Hq & H)].
        -- left. split; [exact E |]. intros i Hi [l' [Hl' Hq]].
           destruct (decide (i = n)) as [-> | Hne].
           ++ rewrite Hl in Hl'. injection Hl' as <-. congruence.
           ++ apply (H i); [lia | exists l'; auto].
        -- right. exists i. repeat split; try assumption; try lia.
           intros j Hj [l' [Hl' Hq']].
           destruct (decide (j = n)) as [-> | Hne].
           ++ rewrite Hl in Hl'. injection Hl' as <-. congruence.
           ++ apply (H j); [lia | exists l'; auto].
    + destruct IH as [[E H] | (i & Hi & E & Hq & H)].
      * left. split; [exact E |]. intros i Hi [l' [Hl' Hq]].
        destruct (decide (i = n)) as [-> | Hne]; [congruence |].
        apply (H i); [lia | exists l'; auto].
      * right. exists i. repeat split; try assumption; try lia.
        intros j Hj [l' [Hl' Hq']].
        destruct (decide (j = n)) as [-> | Hne]; [congruence |].
        apply (H j); [lia | exists l'; auto].
Qed.

Lemma find_lyric_active lyrics currentTime :
  active_index lyrics currentTime (find_lyric lyrics currentTime (length lyrics)).
Proof.
  assert (Hout : forall j, (length lyrics <= j)%nat -> ~ qualifies lyrics currentTime j).
  { intros j Hj [l [Hl _]]. apply lookup_lt_Some in Hl. lia. }
  destruct (find_lyric_spec lyrics currentTime (length lyrics)) as [[E H] | (i & Hi & E & Hq & H)].
  - left. split; [exact E |]. intros i.
    destruct (le_lt_dec (length lyrics) i); [now apply Hout | now apply H].
  - right. exists i. repeat split; try assumption.
    intros j Hj. destruct (le_lt_dec (length lyrics) j); [now apply Hout | apply H; lia].
Qed.

Lemma leb_nan_r t u : isNaN u = true -> (t <=? u)%float = false.
Proof.
  unfold isNaN. rewrite FloatAxioms.eqb_spec, leb_spec. intros H.
  apply negb_true_iff in H.
  assert (Hn : Prim2SF u = S754_nan).
  { destruct (Prim2SF u) as [s | s | | s m e]; try reflexivity; cbn in H.
    - discriminate.
    - destruct s; discriminate.
    - rewrite Z.compare_refl, Pos.compare_cont_refl in H. destruct s; discriminate. }
  rewrite Hn. destruct (Prim2SF t) as [| | | ]; reflexivity.
Qed.

Lemma leb_negative_r t u : nonneg t -> (u <? 0)%float = true -> (t <=? u)%float = false.
Proof.
  unfold nonneg. rewrite nonneg_spec, ltb_spec, leb_spec, Prim2SF_zero.
  destruct (Prim2SF t) as [s | s | | s m e], (Prim2SF u) as [s' | s' | | s' m' e'];
    cbn; try discriminate; try reflexivity;
    try (destruct s; try discriminate); try (destruct s'; try discriminate); reflexivity.
Qed.

Lemma active_index_none lyrics currentTime idx :
  (forall i, ~ qualifies lyrics currentTime i) ->
  active_index lyrics currentTime idx -> idx = -1.
Proof.
  intros Hn [[E _] | (i & _ & Hq & _)]; [exact E | exfalso; exact (Hn i Hq)].
Qed.

Lemma updateLyrics_playing p t :
  isPlaying p = true -> audioElement p = true ->
  let idx := find_lyric (lyrics p) t (length (lyrics p)) in
  let p' := fst (updateLyrics p t) in
  lyrics p' = lyrics p /\ isPlaying p' = true /\ audioElement p' = true
  /\ currentLyricIndex p' = idx
  /\ display_updated (snd (updateLyrics p t)) = negb (idx =? currentLyricIndex p).
Proof.
  intros Hp Ha. unfold updateLyrics. rewrite Hp, Ha. cbn [negb orb fst snd].
  set (idx := find_lyric (lyrics p) t (length (lyrics p))).
  destruct (idx =? currentLyricIndex p) eqn:E; cbn [negb].
  - apply Z.eqb_eq in E. repeat split; auto.
    cbn. destruct (analyser p && (0 <=? idx)); reflexivity.
  - repeat split; auto.
    destruct (0 <=? currentLyricIndex p), (0 <=? idx); cbn; reflexivity.
Qed.

Lemma previous_index_cons p p' x trace k :
  fst x = currentLyricIndex p' ->
  previous_index p (x :: trace) (S k) = previous_index p' trace k.
Proof. intros Hx. destruct k as [| k]; cbn; [destruct x; exact Hx | reflexivity]. Qed.

(** C4: for a playing player whose lines have timestamps not below
    zero, and for every sequence of calls of [updateLyrics], each call
    resolves the highest index of a line whose timestamp is at or
    before the current time, or [-1] when there is none, as it is for a
    current time that is [NaN] or below zero; and the call updates the
    display exactly when that index differs from the index resolved by
    the call before (for the first call, the index the player held). *)
Theorem synchronizer_resolves_active_index (p : KaraokePlayer) (times : list float) :
  isPlaying p = true -> audioElement p = true ->
  Forall (fun l => nonneg (timestamp l)) (lyrics p) ->
  let trace := run p times in
  length trace = length times
  /\ forall k t idx changed,
       times !! k = Some t -> trace !! k = Some (idx, changed) ->
       active_index (lyrics p) t idx
       /\ (isNaN t = true \/ (t <? 0)%float = true -> idx = -1)
       /\ (changed = true <-> idx <> previous_index p trace k).
Proof.
  revert p. induction times as [| t0 rest IH]; intros p Hp Ha Hts; cbn [run].
  - split; [reflexivity |]. intros k t idx changed Hk. destruct k; discriminate.
  - pose proof (updateLyrics_playing p t0 Hp Ha) as (Hl & Hp' & Ha' & Hidx & Hch).
    destruct (updateLyrics p t0) as [p' effects]; cbn [fst snd] in *.
    assert (Hts' : Forall (fun l => nonneg (timestamp l)) (lyrics p')) by now rewrite Hl.
    destruct (IH p' Hp' Ha' Hts') as [Hlen Hrun].
    split; [cbn; now rewrite Hlen |].
    intros k t idx changed Hk Htr. destruct k as [| k].
    + cbn in Hk, Htr. injection Hk as <-. injection Htr as <- <-.
      rewrite Hidx. repeat split.
      * apply find_lyric_active.
      * intros Hneg. apply (active_index_none (lyrics p) t0); [| apply find_lyric_active].
        intros i [l [Hi Hq]].
        assert (Hn : nonneg (timestamp l)).
        { rewrite Forall_forall in Hts. apply Hts. eapply list_elem_of_lookup_2, Hi. }
        destruct Hneg as [Hnan | Hlt].
        -- rewrite (leb_nan_r _ _ Hnan) in Hq. discriminate.
        -- rewrite (leb_negative_r _ _ Hn Hlt) in Hq. discriminate.
      * rewrite Hch. cbn [previous_index]. intros H. apply negb_true_iff, Z.eqb_neq in H. exact H.
      * rewrite Hch. cbn [previous_index]. intros H. apply negb_true_iff, Z.eqb_neq. exact H.
    + cbn in Hk, Htr.
      rewrite (previous_index_cons p p') by reflexivity.
      rewrite <- Hl. apply Hrun; assumption.
Qed.

Lemma synchronizer_resolves_active_index_witness :
  isPlaying Examples.example_player = true
  /\ audioElement Examples.example_player = true
  /\ Forall (fun l => nonneg (timestamp l)) (lyrics Examples.example_player)
  /\ let trace := run Examples.example_player Examples.example_times in
     length trace = length Examples.example_times
     /\ forall k t idx changed,
          Examples.example_times !! k = Some t -> trace !! k = Some (idx, changed) ->
          active_index (lyrics Examples.example_player) t idx
          /\ (isNaN t = true \/ (t <? 0)%float = true -> idx = -1)
          /\ (changed = true <-> idx <> previous_index Examples.example_player trace k).
Proof.
  assert (Hts : Forall (fun l => nonneg (timestamp l)) (lyrics Examples.example_player)).
  { repeat constructor. }
  split; [reflexivity |]. split; [reflexivity |]. split; [exact Hts |].
  exact (synchronizer_resolves_active_index Examples.example_player Examples.example_times
           eq_refl eq_refl Hts).
Defined.

(** The calls of the specification: at -1, 0, 5, 10 and 25 seconds the
    indices are -1, 0, 0, 1 and 2, and the display is updated at the
    second, fourth and fifth call. *)
Example run_example :
  run Examples.example_player Examples.example_times
  = [(-1, false); (0, true); (0, false); (1, true); (2, true)].
Proof. vm_compute. reflexivity. Qed.

End PlayerFacts.

(** ** The registry, further *)

Section StartupFacts.
Import JS Server Startup.
Variable sha256_hex : string -> string.
Variable fs : FileSystem.
Variable uploadsDir : string.

Lemma saturated_mono files : forall reg reg',
  (forall k, is_Some (reg !! k) -> is_Some (reg' !! k)) ->
  saturated sha256_hex fs uploadsDir files reg ->
  saturated sha256_hex fs uploadsDir files reg'.
Proof.
  induction files as [| file rest IH]; intros reg reg' Hsub; cbn [saturated]; [auto |].
  destruct (statSync fs (join uploadsDir file)) as [stats | e]; [| auto].
  intros [H1 H2]. split; [| eapply IH; eauto].
  intros Hf buf Hr Hne. apply Hsub. now apply H1.
Qed.

Lemma load_loop_saturates files : forall reg n,
  saturated sha256_hex fs uploadsDir files
    (snd (load_loop sha256_hex fs uploadsDir files reg n)).
Proof.
  induction files as [| file rest IH]; intros reg n; cbn [load_loop saturated]; [exact I |].
  destruct (statSync fs (join uploadsDir file)) as [stats | e] eqn:Hst; [| exact I].
  destruct (isFile stats) eqn:Hfile.
  2:{ split; [discriminate | apply IH]. }
  unfold calculateFileHash.
  destruct (readFileSync fs (join uploadsDir file)) as [buf | e] eqn:Hread;
    cbv zeta; cbn [try_catch truthy default from_option andb]; unfold id.
  2:{ split; [intros _ buf' [=] | apply IH]. }
  destruct (negb (is_empty (sha256_hex buf))
            && negb (bool_decide (is_Some (reg !! sha256_hex buf)))) eqn:Hc.
  - split; [| apply IH].
    intros _ buf' [= <-] _. eexists. apply load_loop_keeps. apply lookup_insert_eq.
  - split; [| apply IH].
    intros _ buf' [= <-] Hne. apply is_empty_false in Hne. rewrite Hne in Hc.
    cbn [negb andb] in Hc. apply negb_false_iff, bool_decide_eq_true in Hc as [r Hr].
    exists r. now apply load_loop_keeps.
Qed.

Lemma load_loop_saturated_id files : forall reg n,
  saturated sha256_hex fs uploadsDir files reg ->
  snd (load_loop sha256_hex fs uploadsDir files reg n) = reg.
Proof.
  induction files as [| file rest IH]; intros reg n; cbn [load_loop saturated]; [reflexivity |].
  destruct (statSync fs (join uploadsDir file)) as [stats | e] eqn:Hst; [| reflexivity].
  intros [H1 H2].
  destruct (isFile stats) eqn:Hfile; [| now apply IH].
  unfold calculateFileHash.
  destruct (readFileSync fs (join uploadsDir file)) as [buf | e] eqn:Hread;
    cbv zeta; cbn [try_catch truthy default from_option andb]; unfold id; [| now apply IH].
  destruct (is_empty (sha256_hex buf)) eqn:He; cbn [negb andb]; [now apply IH |].
  apply is_empty_false in He. specialize (H1 eq_refl buf eq_refl He).
  rewrite (bool_decide_eq_true_2 _ H1). cbn [negb]. now apply IH.
Qed.

(** X1: the startup load is idempotent: loading the directory again
    into the registry that a load gave changes nothing, whatever the
    directory holds and wherever the first load stopped. *)
Theorem startup_load_idempotent (fileHashes : gmap string FileInfo) :
  let loaded := initializeFileHashes sha256_hex fs uploadsDir fileHashes in
  initializeFileHashes sha256_hex fs uploadsDir loaded = loaded.
Proof.
  cbv zeta. unfold initializeFileHashes.
  destruct (existsSync fs uploadsDir); cbn [negb]; [| reflexivity].
  destruct (readdirSync fs uploadsDir) as [files | e]; [| reflexivity].
  apply load_loop_saturated_id, load_loop_saturates.
Qed.

(** X2: a registered file is found again by its content: called on a
    file that can be read and whose digest is not the empty string,
    [registerFile] returns a record that names the file, and in the
    registry after the call [findDuplicateFile] returns this record for
    every file with the same bytes, whatever its path. *)
Theorem register_then_lookup
    (fileHashes : gmap string FileInfo) (filePath originalName now other buf : string) :
  readFileSync fs filePath = Return buf ->
  readFileSync fs other = Return buf ->
  sha256_hex buf <> EmptyString ->
  let registered := registerFile sha256_hex fs fileHashes filePath originalName now in
  exists fileInfo,
    fst registered = Return (Some fileInfo)
    /\ filename fileInfo = basename filePath
    /\ findDuplicateFile sha256_hex fs (snd registered) other = Return (Some fileInfo).
Proof.
  intros Hread Hother Hne registered. subst registered.
  unfold registerFile, findDuplicateFile.
  rewrite (calculateFileHash_readable _ _ _ _ Hread), (calculateFileHash_readable _ _ _ _ Hother).
  cbn [truthy default from_option]. unfold id.
  apply is_empty_false in Hne. rewrite Hne. cbn [negb fst snd].
  eexists. split; [reflexivity |]. split; [reflexivity |].
  now rewrite lookup_insert_eq.
Qed.

(** X3: [registerFile] keeps a registry in which every record is
    stored under its own digest so, removes no digest, and adds at most
    the digest of the file it is called on. *)
Theorem register_keeps_keyed
    (fileHashes : gmap string FileInfo) (filePath originalName now : string) :
  keyed_by_hash fileHashes ->
  let after := snd (registerFile sha256_hex fs fileHashes filePath originalName now) in
  keyed_by_hash after
  /\ (forall k, is_Some (fileHashes !! k) -> is_Some (after !! k))
  /\ (forall k, is_Some (after !! k) ->
        is_Some (fileHashes !! k)
        \/ exists buf, readFileSync fs filePath = Return buf /\ k = sha256_hex buf).
Proof.
  intros Hk after. subst after. unfold registerFile, calculateFileHash.
  destruct (readFileSync fs filePath) as [buf | e];
    cbn [try_catch truthy default from_option negb]; unfold id.
  2:{ cbn [snd]. auto. }
  destruct (is_empty (sha256_hex buf)); cbn [negb snd]; [auto |].
  split; [| split].
  - intros k r. rewrite lookup_insert. case_decide as Hd.
    + intros [= <-]. cbn. now subst k.
    + apply Hk.
  - intros k [r Hr]. rewrite lookup_insert. case_decide; eauto.
  - intros k. rewrite lookup_insert. case_decide as Hd; [| auto].
    intros _. right. exists buf. auto.
Qed.


End StartupFacts.

Section StartupWitnesses.
Import JS Server Examples.

Lemma register_then_lookup_witness :
  readFileSync example_fs "uploads/1-song.lrc" = Return "[00:01.00] la"
  /\ readFileSync example_fs "uploads/2-copy.lrc" = Return "[00:01.00] la"
  /\ toy_digest "[00:01.00] la" <> EmptyString
  /\ exists fileInfo,
       fst (registerFile toy_digest example_fs ∅ "uploads/1-song.lrc" "song.lrc"
              "2024-05-01T10:00:00.000Z")
       = Return (Some fileInfo)
       /\ filename fileInfo = basename "uploads/1-song.lrc"
       /\ findDuplicateFile toy_digest example_fs
            (snd (registerFile toy_digest example_fs ∅ "uploads/1-song.lrc" "song.lrc"
                    "2024-05-01T10:00:00.000Z"))
            "uploads/2-copy.lrc"
          = Return (Some fileInfo).
Proof.
  split; [reflexivity |]. split; [reflexivity |]. split; [discriminate |].
  exact (register_then_lookup toy_digest example_fs ∅ "uploads/1-song.lrc" "song.lrc"
           "2024-05-01T10:00:00.000Z" "uploads/2-copy.lrc" "[00:01.00] la"
           eq_refl eq_refl ltac:(discriminate)).
Defined.

Lemma register_keeps_keyed_witness :
  keyed_by_hash (∅ : gmap string FileInfo)
  /\ keyed_by_hash
       (snd (registerFile toy_digest example_fs ∅ "uploads/4-other.txt" "other.txt"
               "2024-05-01T10:00:00.000Z")).
Proof.
  assert (Hk : keyed_by_hash (∅ : gmap string FileInfo)).
  { intros k r H. rewrite lookup_empty in H. discriminate. }
  split; [exact Hk |].
  exact (proj1 (register_keeps_keyed toy_digest example_fs ∅ "uploads/4-other.txt"
                  "other.txt" "2024-05-01T10:00:00.000Z" Hk)).
Defined.


End StartupWitnesses.

(** ** The parser, further *)

Section ParserMoreFacts.
Import JS Num Server Text.

Lemma trimEnd_nonspace_fixed s :
  string_forall (fun c => negb (is_space c)) s = true -> trimEnd s = s.
Proof.
  induction s as [| c s IH]; [reflexivity |].
  cbn [string_forall trimEnd]. intros [Hc Hs]%andb_true_iff.
  rewrite (IH Hs). apply negb_true_iff in Hc. rewrite Hc. now destruct s.
Qed.

Lemma trimEnd_app_fixed a b :
  trimEnd b = b -> b <> EmptyString -> trimEnd (a ++ b) = a ++ b.
Proof.
  intros Hb Hne. induction a as [| c a IH]; rewrite ?append_cons, ?append_empty; [exact Hb |].
  cbn [trimEnd]. rewrite IH.
  destruct (a ++ b) as [| d t] eqn:E; [| reflexivity].
  destruct a; rewrite ?append_cons, ?append_empty in E; [congruence | discriminate].
Qed.

Lemma trimEnd_app_space s c :
  is_space c = true -> trimEnd (s ++ String c EmptyString) = trimEnd s.
Proof.
  intros Hc. induction s as [| d s IH]; rewrite ?append_cons, ?append_empty.
  - cbn [trimEnd]. now rewrite Hc.
  - cbn [trimEnd]. now rewrite IH.
Qed.

Lemma trimStart_app_space s c :
  is_space c = true ->
  trimStart (s ++ String c EmptyString)
  = match trimStart s with
    | EmptyString => EmptyString
    | String d t => String d t ++ String c EmptyString
    end.
Proof.
  intros Hc. induction s as [| d s IH]; rewrite ?append_cons, ?append_empty.
  - cbn [trimStart]. now rewrite Hc.
  - cbn [trimStart]. destruct (is_space d); [exact IH |]. now rewrite append_cons.
Qed.

Lemma trim_app_space s c : is_space c = true -> trim (s ++ String c EmptyString) = trim s.
Proof.
  intros Hc. unfold trim. rewrite (trimStart_app_space s c Hc).
  destruct (trimStart s) as [| d t]; [reflexivity |]. now apply trimEnd_app_space.
Qed.

Lemma trimStart_starts_nonspace s : starts_nonspace s -> trimStart s = s.
Proof. destruct s as [| c s]; cbn; [easy |]. now intros ->. Qed.

Lemma trim_idem s : trim (trim s) = trim s.
Proof.
  destruct (trim s) as [| c t] eqn:E; [reflexivity |]. rewrite <- E.
  assert (Hne : trim s <> EmptyString) by (rewrite E; discriminate).
  unfold trim at 1. rewrite (trimStart_starts_nonspace _ (trim_starts_nonspace s Hne)).
  unfold trim. apply trimEnd_idem.
Qed.

Lemma token_trim t : token t -> trim t = t.
Proof.
  intros [Hne Hall]. unfold trim.
  rewrite trimStart_starts_nonspace.
  - now apply trimEnd_nonspace_fixed.
  - destruct t as [| c t]; [congruence |]. cbn in Hall |- *.
    apply andb_true_iff in Hall as [Hc _]. now apply negb_true_iff.
Qed.

Lemma join_space_tokens parts :
  Forall token parts -> parts <> [] ->
  join_space parts <> EmptyString
  /\ starts_nonspace (join_space parts)
  /\ trimEnd (join_space parts) = join_space parts.
Proof.
  induction parts as [| p ps IH]; [congruence |].
  intros Hall _. inversion Hall as [| ? ? Hp Hps]; subst.
  assert (Hs : starts_nonspace p).
  { destruct Hp as [Hne Hp]. destruct p as [| c p]; [congruence |]. cbn in Hp |- *.
    apply andb_true_iff in Hp as [Hc _]. now apply negb_true_iff. }
  destruct ps as [| q ps].
  - cbn [join_space]. split; [apply Hp |]. split; [exact Hs |].
    apply trimEnd_nonspace_fixed, Hp.
  - destruct (IH Hps ltac:(discriminate)) as (Hne & _ & Hfix).
    change (join_space (p :: q :: ps)) with (p ++ " " ++ join_space (q :: ps)).
    destruct p as [| c p]; [destruct Hs |]. rewrite append_cons.
    split; [discriminate |]. split; [exact Hs |].
    rewrite <- append_cons. apply trimEnd_app_fixed.
    + apply (trimEnd_app_fixed " "); assumption.
    + discriminate.
Qed.

Lemma lrc_line_text k raw r :
  lrc_line k raw = Some r -> text r <> EmptyString /\ trim (text r) = text r.
Proof.
  unfold lrc_line. destruct (lrcRegex_match (trim raw)) as [g |]; [| discriminate].
  destruct (is_empty _) eqn:E; [discriminate |]. intros [= <-]. cbn [text].
  split; [now apply is_empty_false | apply trim_idem].
Qed.

Lemma plain_line_text k raw r :
  plain_line k raw = Some r -> text r <> EmptyString /\ trim (text r) = text r.
Proof.
  intros (Hne & Hp)%plain_line_Some. cbv zeta in Hp.
  destruct Hp as (Hlen & _ & _ & ->). cbn [text].
  pose proof (split_ws_tokens raw Hne) as Htok.
  destruct (split_ws (trim raw)) as [| p ps]; [cbn in Hlen; lia |].
  cbn [tl]. inversion Htok as [| ? ? _ Hps]; subst.
  destruct ps as [| q ps]; [cbn in Hlen; lia |].
  destruct (join_space_tokens (q :: ps) Hps ltac:(discriminate)) as (H1 & H2 & H3).
  split; [exact H1 |]. unfold trim. now rewrite (trimStart_starts_nonspace _ H2).
Qed.

(** X6: every record of the result of [parseLyrics] has a timestamp
    that is a number not below zero, so not NaN, and a text that is not
    empty and has no white space at its ends. *)
Theorem parseLyrics_records_well_formed (content : string) (r : LyricLine) :
  r ∈ parseLyrics content ->
  (0 <=? timestamp r)%float = true
  /\ text r <> EmptyString
  /\ trim (text r) = text r.
Proof.
  rewrite parseLyrics_collect, elem_of_sort.
  destruct (existsb has_tag _); intros (k & raw & _ & H)%elem_of_collect.
  - split; [exact (lrc_line_nonneg _ _ _ H) | exact (lrc_line_text _ _ _ H)].
  - split; [exact (plain_line_nonneg _ _ _ H) | exact (plain_line_text _ _ _ H)].
Qed.

Lemma parseLyrics_records_well_formed_witness :
  let r := {| timestamp := 1.5; text := "hello"; lineNumber := 1 |} in
  r ∈ parseLyrics Examples.two_tags
  /\ (0 <=? timestamp r)%float = true
  /\ text r <> EmptyString
  /\ trim (text r) = text r.
Proof.
  assert (H : {| timestamp := 1.5; text := "hello"; lineNumber := 1 |}
              ∈ parseLyrics Examples.two_tags).
  { apply list_elem_of_In. vm_compute. right. left. reflexivity. }
  split; [exact H |].
  exact (parseLyrics_records_well_formed Examples.two_tags _ H).
Defined.

Lemma StronglySorted_line_lt_NoDup l :
  StronglySorted line_lt l -> NoDup (map lineNumber l).
Proof.
  induction 1 as [| a l Hs IH Ha]; cbn [map]; constructor; [| exact IH].
  intros Hin. apply list_elem_of_fmap in Hin as (b & Hb & Hin).
  rewrite Forall_forall in Ha. specialize (Ha b Hin). unfold line_lt in Ha. lia.
Qed.

(** X7: a line of the input gives one record at most: the line
    numbers of the result are pairwise distinct, and each lies between
    1 and the number of lines. *)
Theorem parseLyrics_line_numbers (content : string) :
  NoDup (map lineNumber (parseLyrics content))
  /\ forall r, r ∈ parseLyrics content ->
       (1 <= lineNumber r <= length (split_newline content))%nat.
Proof.
  rewrite parseLyrics_collect. split.
  - rewrite sort_perm.
    apply StronglySorted_line_lt_NoDup.
    destruct (existsb has_tag _); apply collect_line_numbers.
    + exact lrc_line_number.
    + exact plain_line_number.
  - intros r. rewrite elem_of_sort.
    assert (Hn : forall k raw, split_newline content !! k = Some raw ->
                   (1 <= S k <= length (split_newline content))%nat).
    { intros k raw Hk%lookup_lt_Some. lia. }
    destruct (existsb has_tag _); intros (k & raw & Hk & H)%elem_of_collect; cbn [Nat.add] in H.
    + rewrite (lrc_line_number _ _ _ H). eauto.
    + rewrite (plain_line_number _ _ _ H). eauto.
Qed.

(** Both loops read a line through [trim]. *)
Lemma has_tag_trim raw : has_tag (trim raw) = has_tag raw.
Proof. unfold has_tag. now rewrite trim_idem. Qed.

Lemma lrc_line_trim i raw : lrc_line i (trim raw) = lrc_line i raw.
Proof. unfold lrc_line. now rewrite trim_idem. Qed.

Lemma plain_line_trim i raw : plain_line i (trim raw) = plain_line i raw.
Proof. unfold plain_line. now rewrite trim_idem. Qed.

Lemma collect_trim f lines :
  (forall i raw, f i (trim raw) = f i raw) ->
  forall i, collect f (map trim lines) i = collect f lines i.
Proof.
  intros Hf. induction lines as [| raw rest IH]; intros i; cbn [map collect]; [reflexivity |].
  now rewrite Hf, IH.
Qed.

Lemma existsb_has_tag_trim lines :
  existsb has_tag (map trim lines) = existsb has_tag lines.
Proof.
  induction lines as [| raw rest IH]; cbn [map existsb]; [reflexivity |].
  now rewrite has_tag_trim, IH.
Qed.

(** [parseLyrics] in terms of the trimmed lines. *)
Lemma parseLyrics_collect_trimmed content :
  parseLyrics content
  = sort by_timestamp
      (if existsb has_tag (map trim (split_newline content))
       then collect lrc_line (map trim (split_newline content)) 0
       else collect plain_line (map trim (split_newline content)) 0).
Proof.
  rewrite parseLyrics_collect, existsb_has_tag_trim.
  now rewrite (collect_trim lrc_line _ lrc_line_trim),
              (collect_trim plain_line _ plain_line_trim).
Qed.

(** X8: [parseLyrics] reads the lines through [trim] only: two
    inputs with the same trimmed lines give the same result, so
    indentation and white space after a line change nothing. *)
Theorem parseLyrics_trimmed_lines (content content' : string) :
  map trim (split_newline content) = map trim (split_newline content') ->
  parseLyrics content = parseLyrics content'.
Proof.
  intros H.
  rewrite (parseLyrics_collect_trimmed content), (parseLyrics_collect_trimmed content').
  now rewrite H.
Qed.

Lemma parseLyrics_trimmed_lines_witness :
  map trim (split_newline MoreExamples.indented) = map trim (split_newline Examples.two_tags)
  /\ parseLyrics MoreExamples.indented = parseLyrics Examples.two_tags.
Proof.
  split; [reflexivity |].
  exact (parseLyrics_trimmed_lines MoreExamples.indented Examples.two_tags eq_refl).
Defined.

Lemma split_newline_cons s : exists l ls, split_newline s = l :: ls.
Proof.
  destruct s as [| c s]; cbn [split_newline]; [eauto |].
  destruct (code c =? 10); [eauto |]. destruct (split_newline s); eauto.
Qed.

Lemma split_newline_crlf s :
  Forall2 (fun l' l => l' = l \/ l' = l ++ String (ascii_of_nat 13) EmptyString)
    (split_newline (lf_to_crlf s)) (split_newline s).
Proof.
  induction s as [| c s IH]; cbn [lf_to_crlf split_newline].
  - repeat constructor.
  - destruct (code c =? 10) eqn:Hc.
    + cbn [split_newline]. change (code (ascii_of_nat 13) =? 10) with false. cbn iota.
      rewrite Hc. constructor; [right; reflexivity | exact IH].
    + cbn [split_newline]. rewrite Hc.
      destruct (split_newline_cons (lf_to_crlf s)) as (l' & ls' & E').
      destruct (split_newline_cons s) as (l & ls & E).
      rewrite E', E in IH |- *. inversion IH as [| ? ? ? ? [-> | ->] Hrest]; subst.
      * constructor; [left; reflexivity | exact Hrest].
      * constructor; [right; now rewrite append_cons | exact Hrest].
Qed.

(** X9: the result does not depend on the line endings: a text with
    a carriage return before every line feed is parsed as the text
    without them. *)
Theorem parseLyrics_crlf (content : string) :
  parseLyrics (lf_to_crlf content) = parseLyrics content.
Proof.
  assert (E : map trim (split_newline (lf_to_crlf content))
              = map trim (split_newline content)).
  { pose proof (split_newline_crlf content) as H.
    induction H as [| l' l ls' ls [-> | ->] _ IH]; cbn [map]; [reflexivity | |].
    - now rewrite IH.
    - rewrite IH. f_equal. now apply trim_app_space. }
  rewrite (parseLyrics_collect_trimmed (lf_to_crlf content)),
          (parseLyrics_collect_trimmed content).
  now rewrite E.
Qed.

End ParserMoreFacts.

(** ** The player, further *)

Section PlayerMoreFacts.
Import JS Num Player Controls.

Lemma find_lyric_bounds lyrics t : forall n,
  -1 <= find_lyric lyrics t n < Z.of_nat n.
Proof.
  induction n as [| n IH]; cbn [find_lyric]; [lia |].
  destruct (lyrics !! n) as [l |]; [destruct (ge t (timestamp l)) |]; lia.
Qed.

Lemma qualifies_later lyrics t u i :
  Forall (fun l => nonneg (timestamp l)) lyrics ->
  nonneg t -> nonneg u -> (t <=? u)%float = true ->
  qualifies lyrics t i -> qualifies lyrics u i.
Proof.
  intros Hts Ht Hu Htu (l & Hl & Hq). exists l. split; [exact Hl |].
  assert (Hn : nonneg (timestamp l)).
  { rewrite Forall_forall in Hts. apply Hts. eapply list_elem_of_lookup_2, Hl. }
  rewrite leb_ord in Htu, Hq |- * by assumption.
  apply Z.leb_le in Htu, Hq. apply Z.leb_le. lia.
Qed.

(** X10: the active line never goes back while the time goes on: for
    lines with timestamps not below zero and times t and u with
    0 <= t <= u, the index resolved at t is at most the index resolved
    at u, whatever the order of the lines. *)
Theorem active_index_monotone (lyrics : list Lyric) (t u : float) :
  Forall (fun l => nonneg (timestamp l)) lyrics ->
  nonneg t -> (t <=? u)%float = true ->
  find_lyric lyrics t (length lyrics) <= find_lyric lyrics u (length lyrics).
Proof.
  intros Hts Ht Htu.
  assert (Hu : nonneg u).
  { unfold nonneg in *. rewrite leb_spec in *. rewrite Prim2SF_zero in *.
    destruct (Prim2SF t) as [s | s | | s m e], (Prim2SF u) as [s' | s' | | s' m' e'];
      cbn in *; try discriminate; try reflexivity;
      try (destruct s; try discriminate); try (destruct s'; try discriminate); try reflexivity. }
  pose proof (find_lyric_bounds lyrics u (length lyrics)) as Hb.
  destruct (find_lyric_active lyrics t) as [[E _] | (i & E & Hq & _)]; [lia |].
  rewrite E. apply (qualifies_later lyrics t u i Hts Ht Hu Htu) in Hq.
  destruct (find_lyric_active lyrics u) as [[_ Hn] | (j & E' & _ & Hmax)].
  - exfalso. exact (Hn i Hq).
  - rewrite E'. destruct (le_lt_dec i j) as [Hij | Hij]; [lia |].
    exfalso. exact (Hmax i Hij Hq).
Qed.

(** X11: on a list with ascending timestamps, as the parser gives,
    the lines at or before the current time are exactly the lines up to
    the resolved index: the scan from the end finds the boundary that a
    binary search would find. *)
Theorem sorted_lines_prefix (lyrics : list Lyric) (t : float) (j : nat) :
  Forall (fun l => nonneg (timestamp l)) lyrics ->
  ascending lyrics ->
  nonneg t ->
  qualifies lyrics t j <-> Z.of_nat j <= find_lyric lyrics t (length lyrics).
Proof.
  intros Hts Hasc Ht. split.
  - intros Hq. destruct (find_lyric_active lyrics t) as [[_ Hn] | (i & E & _ & Hmax)].
    + exfalso. exact (Hn j Hq).
    + rewrite E. destruct (le_lt_dec j i) as [Hji | Hji]; [lia |].
      exfalso. exact (Hmax j Hji Hq).
  - intros Hle. destruct (find_lyric_active lyrics t) as [[E _] | (i & E & (a & Ha & Hq) & _)]; [lia |].
    rewrite E in Hle. assert (Hji : (j <= i)%nat) by lia.
    assert (Hj : is_Some (lyrics !! j)).
    { apply lookup_lt_is_Some. apply lookup_lt_Some in Ha. lia. }
    destruct Hj as [b Hb]. exists b. split; [exact Hb |].
    pose proof (Hasc j i b a Hji Hb Ha) as Hba.
    assert (Hna : nonneg (timestamp a)).
    { rewrite Forall_forall in Hts. apply Hts. eapply list_elem_of_lookup_2, Ha. }
    assert (Hnb : nonneg (timestamp b)).
    { rewrite Forall_forall in Hts. apply Hts. eapply list_elem_of_lookup_2, Hb. }
    rewrite leb_ord in Hba, Hq |- * by assumption.
    apply Z.leb_le in Hba, Hq. apply Z.leb_le. lia.
Qed.

Lemma foldl_apply_page pg effects :
  foldl apply_action pg (map Page effects)
  = foldl (fun pg e => apply_action pg (Page e)) pg effects.
Proof. revert pg. induction effects as [| e es IH]; intros pg; cbn; [reflexivity | apply IH]. Qed.

Lemma updateLyrics_in_sync p pg t :
  in_sync p pg ->
  in_sync (fst (updateLyrics p t)) (foldl apply_action pg (map Page (snd (updateLyrics p t)))).
Proof.
  intros [Hd Ha]. unfold updateLyrics.
  destruct (negb (isPlaying p) || negb (audioElement p)); [split; assumption |].
  cbv zeta. cbn [fst snd].
  set (idx := find_lyric (lyrics p) t (length (lyrics p))).
  rewrite foldl_apply_page.
  destruct (idx =? currentLyricIndex p) eqn:E; cbn [negb].
  - destruct (analyser p && (0 <=? idx)); cbn; split; assumption.
  - unfold in_sync, shown_text. cbn [currentLyricIndex lyrics].
    destruct (0 <=? currentLyricIndex p), (0 <=? idx), (analyser p);
      cbn; split; reflexivity.
Qed.

Lemma updateLyrics_keeps p t :
  lyrics (fst (updateLyrics p t)) = lyrics p
  /\ isPlaying (fst (updateLyrics p t)) = isPlaying p
  /\ audioElement (fst (updateLyrics p t)) = audioElement p.
Proof.
  unfold updateLyrics.
  destruct (negb (isPlaying p) || negb (audioElement p)); [auto |].
  cbv zeta. cbn [fst]. destruct (negb _); auto.
Qed.

Lemma handle_in_sync p pg ev :
  in_sync p pg ->
  in_sync (fst (handle p ev)) (foldl apply_action pg (snd (handle p ev))).
Proof.
  intros Hs. destruct ev as [t | t | | |]; cbn [handle].
  - pose proof (updateLyrics_in_sync p pg t Hs) as H.
    destruct (updateLyrics p t) as [p' effects]. exact H.
  - unfold play_fulfilled.
    assert (Hs1 : in_sync (with_playing p true) pg) by exact Hs.
    pose proof (updateLyrics_in_sync _ pg t Hs1) as H.
    destruct (updateLyrics (with_playing p true) t) as [p' effects]. cbn [fst snd] in *.
    rewrite foldl_app. cbn [foldl app apply_action].
    rewrite foldl_app. cbn [foldl apply_action]. exact H.
  - unfold restart. cbn [fst snd]. rewrite foldl_app.
    replace (foldl apply_action _ (if isPlaying p then [AudioPlay] else []))
      with {| lyricsDisplay := EmptyString; lyricsActive := false |}
      by (destruct (isPlaying p); reflexivity).
    split; reflexivity.
  - exact Hs.
  - split; reflexivity.
Qed.

Lemma handle_keeps_lyrics p ev : lyrics (fst (handle p ev)) = lyrics p.
Proof.
  destruct ev as [t | t | | |]; cbn [handle]; try reflexivity.
  - pose proof (updateLyrics_keeps p t) as (H & _).
    destruct (updateLyrics p t). exact H.
  - unfold play_fulfilled.
    pose proof (updateLyrics_keeps (with_playing p true) t) as (H & _).
    destruct (updateLyrics (with_playing p true) t). exact H.
Qed.

Lemma play_out_in_sync events : forall p pg,
  in_sync p pg ->
  in_sync (fst (play_out p pg events)) (snd (play_out p pg events))
  /\ lyrics (fst (play_out p pg events)) = lyrics p.
Proof.
  induction events as [| ev rest IH]; intros p pg Hs; cbn [play_out]; [auto |].
  pose proof (handle_in_sync p pg ev Hs) as H.
  pose proof (handle_keeps_lyrics p ev) as Hl.
  destruct (handle p ev) as [p' actions]. cbn [fst snd] in *.
  destruct (IH p' _ H) as [H1 H2]. split; [exact H1 | congruence].
Qed.

(** X12: the page follows the index through every sequence of
    animation frames, fulfilled promises of [play()], restarts, pauses
    and ends of the audio: when the display shows the text of the
    current line (nothing for -1) and the class lyrics-active is set
    exactly when there is a current line, it is so after the events;
    and the events never change the lines. *)
Theorem display_follows_index (p : KaraokePlayer) (pg : page) (events : list event) :
  in_sync p pg ->
  let after := play_out p pg events in
  in_sync (fst after) (snd after) /\ lyrics (fst after) = lyrics p.
Proof.
  cbv zeta. revert p pg.
  induction events as [| ev rest IH]; intros p pg Hs; cbn [play_out]; [auto |].
  pose proof (handle_in_sync p pg ev Hs) as H.
  pose proof (handle_keeps_lyrics p ev) as Hl.
  destruct (handle p ev) as [p' actions]. cbn [fst snd] in *.
  destruct (IH p' _ H) as [H1 H2]. split; [exact H1 | congruence].
Qed.

Lemma play_out_app events events' p pg :
  play_out p pg (events ++ events')
  = play_out (fst (play_out p pg events)) (snd (play_out p pg events)) events'.
Proof.
  revert p pg. induction events as [| ev rest IH]; intros p pg; cbn [play_out app]; [reflexivity |].
  destruct (handle p ev) as [p' actions]. apply IH.
Qed.

(** X13: after any such events, a frame that finds the player
    playing leaves the display with the text of the line that is active
    at the time of the frame, the highest line at or before it, or
    leaves it empty with the class removed when there is none. *)
Theorem frame_shows_active_line
    (p : KaraokePlayer) (pg : page) (events : list event) (t : float) :
  in_sync p pg ->
  let before := fst (play_out p pg events) in
  let after := play_out p pg (events ++ [Frame t]) in
  isPlaying before = true -> audioElement before = true ->
  exists idx,
    active_index (lyrics p) t idx
    /\ currentLyricIndex (fst after) = idx
    /\ lyricsDisplay (snd after)
       = (if 0 <=? idx then lyric_text (lyrics p) idx else EmptyString)
    /\ lyricsActive (snd after) = (0 <=? idx).
Proof.
  intros Hs before after Hp Ha. subst before after.
  destruct (play_out_in_sync (events ++ [Frame t]) p pg Hs) as [[Hd Hb] Hl].
  rewrite play_out_app in Hd, Hb, Hl |- *.
  destruct (play_out_in_sync events p pg Hs) as [_ Hl1].
  destruct (play_out p pg events) as [p1 pg1]. cbn [fst snd] in *.
  cbn [play_out handle] in *.
  pose proof (updateLyrics_playing p1 t Hp Ha) as (_ & _ & _ & Hidx & _).
  destruct (updateLyrics p1 t) as [p2 effects]. cbn [fst snd] in *.
  rewrite Hl1 in Hidx.
  exists (find_lyric (lyrics p) t (length (lyrics p))).
  split; [apply find_lyric_active |]. split; [exact Hidx |].
  unfold shown_text in Hd. rewrite Hidx, Hl in Hd. rewrite Hidx in Hb.
  split; assumption.
Qed.

End PlayerMoreFacts.

Section PlayerMoreWitnesses.
Import JS Num Player Controls Examples MoreExamples.

Lemma three_lines_nonneg : Forall (fun l => nonneg (timestamp l)) three_lines.
Proof. repeat constructor. Qed.

Lemma three_lines_ascending : ascending three_lines.
Proof.
  intros [| [| [| i]]] [| [| [| j]]] a b Hij Ha Hb; cbn in Ha, Hb;
    try discriminate; try lia;
    injection Ha as <-; injection Hb as <-; reflexivity.
Qed.

Lemma active_index_monotone_witness :
  Forall (fun l => nonneg (timestamp l)) three_lines
  /\ nonneg 5 /\ (5 <=? 25)%float = true
  /\ find_lyric three_lines 5 (length three_lines)
     <= find_lyric three_lines 25 (length three_lines).
Proof.
  split; [exact three_lines_nonneg |]. split; [reflexivity |]. split; [reflexivity |].
  exact (active_index_monotone three_lines 5 25 three_lines_nonneg eq_refl eq_refl).
Defined.

Lemma sorted_lines_prefix_witness :
  Forall (fun l => nonneg (timestamp l)) three_lines
  /\ ascending three_lines
  /\ nonneg 10
  /\ (qualifies three_lines 10 1
      <-> 1 <= find_lyric three_lines 10 (length three_lines)).
Proof.
  split; [exact three_lines_nonneg |]. split; [exact three_lines_ascending |].
  split; [reflexivity |].
  exact (sorted_lines_prefix three_lines 10 1 three_lines_nonneg three_lines_ascending
           eq_refl).
Defined.

Lemma blank_page_in_sync : in_sync example_player blank_page.
Proof. split; reflexivity. Qed.

Lemma display_follows_index_witness :
  in_sync example_player blank_page
  /\ in_sync (fst (play_out example_player blank_page example_events))
             (snd (play_out example_player blank_page example_events))
  /\ lyrics (fst (play_out example_player blank_page example_events))
     = lyrics example_player.
Proof.
  split; [exact blank_page_in_sync |].
  exact (display_follows_index example_player blank_page example_events blank_page_in_sync).
Defined.

Lemma frame_shows_active_line_witness :
  in_sync example_player blank_page
  /\ isPlaying (fst (play_out example_player blank_page example_events)) = true
  /\ audioElement (fst (play_out example_player blank_page example_events)) = true
  /\ exists idx,
       active_index (lyrics example_player) 12 idx
       /\ currentLyricIndex
            (fst (play_out example_player blank_page (example_events ++ [Frame 12]))) = idx
       /\ lyricsDisplay
            (snd (play_out example_player blank_page (example_events ++ [Frame 12])))
          = (if 0 <=? idx then lyric_text (lyrics example_player) idx else EmptyString)
       /\ lyricsActive
            (snd (play_out example_player blank_page (example_events ++ [Frame 12])))
          = (0 <=? idx).
Proof.
  split; [exact blank_page_in_sync |]. split; [reflexivity |]. split; [reflexivity |].
  exact (frame_shows_active_line example_player blank_page example_events 12
           blank_page_in_sync eq_refl eq_refl).
Defined.

(** The line shown before the restart is shown again by the next frame. *)
Example restart_shows_line_again :
  map (fun events => snd (play_out example_player blank_page events))
    [ [Frame 12]; [Frame 12; Restart]; [Frame 12; Restart; Frame 12];
      [Frame 12; Pause; Frame 25]; [Frame 12; Ended; Frame 25] ]
  = [ {| lyricsDisplay := "b"; lyricsActive := true |};
      {| lyricsDisplay := EmptyString; lyricsActive := false |};
      {| lyricsDisplay := "b"; lyricsActive := true |};
      {| lyricsDisplay := "b"; lyricsActive := true |};
      {| lyricsDisplay := EmptyString; lyricsActive := false |} ].
Proof. vm_compute. reflexivity. Qed.

End PlayerMoreWitnesses.

Section ScriptFacts.
Import JS Player.

(** X14: [LyricsSync.updateLyrics] of the upload page does what
    [KaraokePlayer.updateLyrics] does, without the two animations: from
    the same fields the same fields result, and its effects are those
    of the player without [animateLyricExit] and [animateLyricEnter]. *)
Theorem script_updateLyrics_agrees (p : KaraokePlayer) (t : float) :
  Script.updateLyrics (Script.of_player p) t
  = (Script.of_player (fst (updateLyrics p t)),
     List.filter (fun e => negb (Script.is_animation e)) (snd (updateLyrics p t))).
Proof.
  unfold Script.updateLyrics, updateLyrics, Script.of_player.
  cbn [Script.isPlaying Script.audioElement Script.lyrics Script.currentLyricIndex
       Script.analyser].
  destruct (negb (isPlaying p) || negb (audioElement p)); [reflexivity |].
  cbv zeta. cbn [fst snd].
  set (idx := find_lyric (lyrics p) t (length (lyrics p))).
  destruct (idx =? currentLyricIndex p); cbn [negb].
  - destruct (analyser p && (0 <=? idx)); reflexivity.
  - destruct (0 <=? currentLyricIndex p), (0 <=? idx), (analyser p); reflexivity.
Qed.

End ScriptFacts.

(** ** Names, titles and the pitch *)

Section TextFacts.
Import JS Server Text.

Lemma replace_each_length p r s : String.length (replace_each p r s) = String.length s.
Proof. induction s as [| c s IH]; cbn; [reflexivity | now rewrite IH]. Qed.

Lemma replace_each_app p r a b :
  replace_each p r (a ++ b) = replace_each p r a ++ replace_each p r b.
Proof.
  induction a as [| c a IH]; rewrite ?append_cons, ?append_empty; cbn [replace_each].
  - now rewrite ?append_empty.
  - now rewrite ?append_cons, IH.
Qed.

Lemma replace_each_forall p q r s :
  q r = true -> (forall c, p c = false -> q c = true) ->
  string_forall q (replace_each p r s) = true.
Proof.
  intros Hr Hq. induction s as [| c s IH]; cbn; [reflexivity |].
  rewrite IH, andb_true_r. destruct (p c) eqn:E; auto.
Qed.

Lemma replace_each_fixed p r s :
  string_forall (fun c => negb (p c)) s = true -> replace_each p r s = s.
Proof.
  induction s as [| c s IH]; cbn; [reflexivity |].
  intros [Hc Hs]%andb_true_iff. apply negb_true_iff in Hc. now rewrite Hc, IH.
Qed.

Lemma split_on_cons sep s : exists l ls, split_on sep s = l :: ls.
Proof.
  destruct s as [| c s]; cbn [split_on]; [eauto |].
  destruct (Ascii.eqb c sep); [eauto |]. destruct (split_on sep s); eauto.
Qed.

Lemma split_on_free sep s :
  string_forall (fun c => negb (Ascii.eqb c sep)) s = true -> split_on sep s = [s].
Proof.
  induction s as [| c s IH]; cbn; [reflexivity |].
  intros [Hc Hs]%andb_true_iff. apply negb_true_iff in Hc. now rewrite Hc, IH.
Qed.

Lemma split_on_app sep a b :
  split_on sep (a ++ String sep b) = (split_on sep a ++ split_on sep b)%list.
Proof.
  induction a as [| c a IH]; rewrite ?append_cons, ?append_empty; cbn [split_on].
  - now rewrite Ascii.eqb_refl.
  - destruct (Ascii.eqb c sep); [now rewrite IH |].
    rewrite IH. destruct (split_on_cons sep a) as (l & ls & ->). reflexivity.
Qed.

Lemma split_on_last sep a b :
  string_forall (fun c => negb (Ascii.eqb c sep)) b = true ->
  last (split_on sep (a ++ String sep b)) = Some b.
Proof.
  intros Hb. rewrite split_on_app, (split_on_free sep b Hb). apply last_snoc.
Qed.

(** [path.basename] of a path that ends in a name. *)
Lemma basename_from_free f : forall cur last,
  string_forall (fun c => negb (Ascii.eqb c "/")) f = true ->
  cur ++ f <> EmptyString ->
  basename_from f cur last = cur ++ f.
Proof.
  induction f as [| c f IH]; intros cur lst Hf Hne; cbn [basename_from].
  - rewrite append_empty_r in *. destruct cur; [congruence | reflexivity].
  - cbn [string_forall] in Hf. apply andb_true_iff in Hf as [Hc Hf].
    apply negb_true_iff in Hc. rewrite Hc.
    assert (E : (cur ++ String c EmptyString) ++ f = cur ++ String c f).
    { clear. induction cur as [| d cur IH]; rewrite ?append_cons, ?append_empty; [reflexivity |].
      now rewrite IH. }
    rewrite IH; [exact E | exact Hf | now rewrite E].
Qed.

Lemma basename_from_app dir f : forall cur last,
  string_forall (fun c => negb (Ascii.eqb c "/")) f = true ->
  f <> EmptyString ->
  basename_from (dir ++ String "/" f) cur last = f.
Proof.
  induction dir as [| c dir IH]; intros cur lst Hf Hne;
    rewrite ?append_cons, ?append_empty; cbn [basename_from].
  - change (Ascii.eqb "/" "/") with true. cbn iota.
    now rewrite basename_from_free by (rewrite ?append_empty; assumption).
  - destruct (Ascii.eqb c "/"); now apply IH.
Qed.

Lemma basename_join dir f :
  string_forall (fun c => negb (Ascii.eqb c "/")) f = true ->
  f <> EmptyString ->
  basename (join dir f) = f.
Proof. intros Hf Hne. unfold basename, join. now apply basename_from_app. Qed.

End TextFacts.

Section StorageFacts.
Import JS Server Text Storage.

Lemma is_stored_char_not_slash c : is_stored_char c = true -> Ascii.eqb c "/" = false.
Proof.
  intros H. destruct (Ascii.eqb_spec c "/") as [-> |]; [| reflexivity].
  vm_compute in H. discriminate.
Qed.

Lemma clean_name_stored s : string_forall is_stored_char (clean_name s) = true.
Proof.
  apply replace_each_forall; [reflexivity |].
  intros c Hc. apply negb_false_iff in Hc. unfold is_stored_char. now rewrite Hc.
Qed.

(** X15: the cleaned name has the length of the original name and
    holds letters, digits, dots, hyphens and underscores only; cleaning
    a cleaned name changes nothing, and a name of letters, digits, dots
    and hyphens is left as it is. *)
Theorem clean_name_safe (originalname : string) :
  String.length (clean_name originalname) = String.length originalname
  /\ string_forall is_stored_char (clean_name originalname) = true
  /\ clean_name (clean_name originalname) = clean_name originalname
  /\ (string_forall is_name_char originalname = true ->
      clean_name originalname = originalname).
Proof.
  split; [apply replace_each_length |]. split; [apply clean_name_stored |]. split.
  - induction originalname as [| c s IH]; cbn; [reflexivity |].
    unfold clean_name in IH. rewrite IH. f_equal.
    destruct (is_name_char c) eqn:E; cbn [negb]; [now rewrite E | reflexivity].
  - intros H. apply replace_each_fixed.
    eapply string_forall_impl; [| exact H]. intros c Hc. now rewrite Hc.
Qed.

(** X16: the name given to a stored file holds no slash, so it is
    the [path.basename] of its path in the uploads directory, which is
    the name that [registerFile] records for that path.  The numeral
    of [Date.now()] is a string of digits. *)
Theorem storage_filename_basename (uploadDir now originalname : string) :
  string_forall is_digit now = true ->
  basename (join uploadDir (storage_filename now originalname))
  = storage_filename now originalname
  /\ string_forall (fun c => negb (Ascii.eqb c "/")) (storage_filename now originalname) = true.
Proof.
  intros Hnow.
  assert (Hfree : string_forall (fun c => negb (Ascii.eqb c "/"))
                    (storage_filename now originalname) = true).
  { unfold storage_filename. rewrite !string_forall_app.
    apply andb_true_iff. split; [| apply andb_true_iff; split; [reflexivity |]].
    - eapply string_forall_impl; [| exact Hnow]. intros c Hc.
      destruct (Ascii.eqb_spec c "/") as [-> |]; [| reflexivity].
      vm_compute in Hc. discriminate.
    - eapply string_forall_impl; [| apply clean_name_stored]. intros c Hc.
      now rewrite (is_stored_char_not_slash c Hc). }
  split; [| exact Hfree].
  apply basename_join; [exact Hfree |].
  unfold storage_filename. destruct now; rewrite ?append_cons, ?append_empty; discriminate.
Qed.

Lemma storage_filename_basename_witness :
  string_forall is_digit "1714557600000" = true
  /\ basename (join "uploads" (storage_filename "1714557600000" "My Song (live).mp3"))
     = storage_filename "1714557600000" "My Song (live).mp3"
  /\ string_forall (fun c => negb (Ascii.eqb c "/"))
       (storage_filename "1714557600000" "My Song (live).mp3") = true.
Proof.
  split; [reflexivity |].
  exact (storage_filename_basename "uploads" "1714557600000" "My Song (live).mp3" eq_refl).
Defined.

Example storage_filename_example :
  storage_filename "1714557600000" "My Song (live).mp3"
  = "1714557600000-My_Song__live_.mp3".
Proof. vm_compute. reflexivity. Qed.

End StorageFacts.

Section TitleFacts.
Import JS Server Text Storage Title.

Lemma strip_extension_app stem ext :
  ext <> EmptyString -> string_forall is_ext_char ext = true ->
  strip_extension (stem ++ String "." ext) = stem.
Proof.
  intros Hne Hext. induction stem as [| c stem IH]; rewrite ?append_cons, ?append_empty.
  - cbn [strip_extension]. change (is_dot ".") with true.
    apply is_empty_false in Hne. now rewrite Hne, Hext.
  - cbn [strip_extension].
    replace (string_forall is_ext_char (stem ++ String "." ext)) with false.
    + rewrite !andb_false_r. now rewrite IH.
    + symmetry. rewrite string_forall_app. cbn [string_forall].
      change (is_ext_char ".") with false. cbn [andb]. apply andb_false_r.
Qed.

Lemma is_ext_char_not_slash c : is_ext_char c = true -> negb (Ascii.eqb c "/") = true.
Proof.
  unfold is_ext_char, is_slash. intros H%negb_true_iff%orb_false_iff. now rewrite (proj1 H).
Qed.

(** The title is made from what follows the last slash. *)
Lemma extractSongName_last_segment dir name :
  string_forall (fun c => negb (Ascii.eqb c "/")) name = true ->
  name <> EmptyString ->
  extractSongName (dir ++ String "/" name)
  = replace_each is_separator " " (strip_extension name).
Proof.
  intros Hname Hne. unfold extractSongName.
  rewrite (split_on_last "/" dir name Hname).
  cbn [default from_option]. unfold id.
  apply is_empty_false in Hne. now rewrite Hne.
Qed.

Lemma stem_ext_name stem ext :
  string_forall (fun c => negb (Ascii.eqb c "/")) stem = true ->
  string_forall is_ext_char ext = true ->
  string_forall (fun c => negb (Ascii.eqb c "/")) (stem ++ String "." ext) = true
  /\ stem ++ String "." ext <> EmptyString.
Proof.
  intros Hstem Hext. split.
  - rewrite string_forall_app. cbn [string_forall]. rewrite Hstem.
    change (negb (Ascii.eqb "." "/")) with true. cbn [andb].
    eapply string_forall_impl; [| exact Hext]. apply is_ext_char_not_slash.
  - destruct stem; rewrite ?append_cons, ?append_empty; discriminate.
Qed.

(** X17: for a URL that ends in a file name stem.ext, where the stem
    has no slash and the extension is not empty and has neither slash
    nor dot, the title is the stem with every hyphen and underscore
    turned into a space: the directories and the last extension are
    dropped, and the dots of the stem are kept. *)
Theorem extractSongName_stem (dir stem ext : string) :
  string_forall (fun c => negb (Ascii.eqb c "/")) stem = true ->
  ext <> EmptyString -> string_forall is_ext_char ext = true ->
  extractSongName (dir ++ String "/" (stem ++ String "." ext))
  = replace_each is_separator " " stem.
Proof.
  intros Hstem Hne Hext.
  destruct (stem_ext_name stem ext Hstem Hext) as [Hname Hnonempty].
  rewrite (extractSongName_last_segment dir _ Hname Hnonempty).
  now rewrite (strip_extension_app stem ext Hne Hext).
Qed.

Lemma extractSongName_stem_witness :
  string_forall (fun c => negb (Ascii.eqb c "/")) "1714557600000-My_Song.v2" = true
  /\ "mp3" <> EmptyString
  /\ string_forall is_ext_char "mp3" = true
  /\ extractSongName ("/uploads" ++ String "/" ("1714557600000-My_Song.v2" ++ String "." "mp3"))
     = replace_each is_separator " " "1714557600000-My_Song.v2".
Proof.
  split; [reflexivity |]. split; [discriminate |]. split; [reflexivity |].
  exact (extractSongName_stem "/uploads" "1714557600000-My_Song.v2" "mp3"
           eq_refl ltac:(discriminate) eq_refl).
Defined.

Example extractSongName_examples :
  map extractSongName
    ["/uploads/1714557600000-My_Song.v2.mp3"; "/uploads/"; "song"; ".mp3"; "a/b.c/d"]
  = ["1714557600000 My Song.v2"; "Unknown Song"; "song"; EmptyString; "d"].
Proof. vm_compute. reflexivity. Qed.

Lemma split_on_free_all sep s :
  Forall (fun l => string_forall (fun c => negb (Ascii.eqb c sep)) l = true) (split_on sep s).
Proof.
  induction s as [| c s IH]; cbn [split_on]; [repeat constructor |].
  destruct (Ascii.eqb c sep) eqn:E; [constructor; [reflexivity | exact IH] |].
  destruct (split_on_cons sep s) as (l & ls & El). rewrite El in IH |- *.
  inversion IH; subst. constructor; [| assumption]. cbn. now rewrite E.
Qed.

Lemma strip_extension_forall p s :
  string_forall p s = true -> string_forall p (strip_extension s) = true.
Proof.
  induction s as [| c s IH]; cbn; [reflexivity |].
  intros [Hc Hs]%andb_true_iff.
  destruct (is_dot c && negb (is_empty s) && string_forall is_ext_char s); [reflexivity |].
  cbn. now rewrite Hc, IH.
Qed.

(** X18: a title never holds a slash, a hyphen or an underscore; and
    a URL with nothing after its last slash gets the title
    Unknown Song. *)
Theorem extractSongName_no_separator (url : string) :
  string_forall (fun c => negb (is_slash c || is_separator c)) (extractSongName url) = true
  /\ (default EmptyString (last (split_on "/" url)) = EmptyString ->
      extractSongName url = "Unknown Song").
Proof.
  split.
  - unfold extractSongName.
    set (popped := default EmptyString (last (split_on "/" url))).
    assert (Hp : string_forall (fun c => negb (is_slash c)) popped = true).
    { subst popped. pose proof (split_on_free_all "/" url) as H.
      destruct (last (split_on "/" url)) as [f |] eqn:E; [| reflexivity].
      rewrite Forall_forall in H. apply H. apply last_Some in E as [l' ->].
      apply elem_of_app. right. now left. }
    assert (Hf : string_forall (fun c => negb (is_slash c))
                   (if is_empty popped then "Unknown Song" else popped) = true).
    { destruct (is_empty popped); [reflexivity | exact Hp]. }
    apply strip_extension_forall in Hf. revert Hf.
    generalize (strip_extension (if is_empty popped then "Unknown Song" else popped)).
    intros s. induction s as [| c s IH]; cbn; [reflexivity |].
    intros [Hc Hs]%andb_true_iff. rewrite (IH Hs), andb_true_r.
    destruct (is_separator c) eqn:E; [reflexivity |]. rewrite E.
    now rewrite orb_false_r.
  - intros H. unfold extractSongName. rewrite H. reflexivity.
Qed.

Lemma append_assoc (a b c : string) : (a ++ b) ++ c = a ++ (b ++ c).
Proof.
  induction a as [| d a IH]; rewrite ?append_cons, ?append_empty; [reflexivity |].
  now rewrite IH.
Qed.

Lemma clean_name_ext ext :
  string_forall is_ext_char ext = true ->
  string_forall is_ext_char (clean_name ext) = true.
Proof.
  induction ext as [| c s IH]; cbn; [reflexivity |].
  intros [Hc Hs]%andb_true_iff. unfold clean_name in IH. rewrite (IH Hs), andb_true_r.
  destruct (negb (is_name_char c)); [reflexivity | exact Hc].
Qed.

(** X19: the title of an upload: for the URL of a stored file whose
    original name is stem.ext, the title is the numeral of the upload
    time, a space, and the cleaned stem with its hyphens and
    underscores turned into spaces. *)
Theorem uploaded_title (now stem ext : string) :
  string_forall is_digit now = true ->
  ext <> EmptyString -> string_forall is_ext_char ext = true ->
  extractSongName ("/uploads/" ++ storage_filename now (stem ++ String "." ext))
  = now ++ " " ++ replace_each is_separator " " (clean_name stem).
Proof.
  intros Hnow Hne Hext.
  assert (E : "/uploads/" ++ storage_filename now (stem ++ String "." ext)
              = "/uploads" ++ String "/" ((now ++ "-" ++ clean_name stem)
                                          ++ String "." (clean_name ext))).
  { unfold storage_filename, clean_name. rewrite replace_each_app. cbn [replace_each].
    change (negb (is_name_char ".")) with false. cbn iota.
    change ("/uploads/" ++ ?x) with ("/uploads" ++ String "/" x).
    do 2 f_equal. now rewrite !append_assoc. }
  assert (Hstem : string_forall (fun c => negb (Ascii.eqb c "/"))
                    (now ++ "-" ++ clean_name stem) = true).
  { rewrite !string_forall_app. cbn [string_forall].
    change (negb (Ascii.eqb "-" "/")) with true. cbn [andb].
    apply andb_true_iff. split.
    - eapply string_forall_impl; [| exact Hnow]. intros c Hc.
      destruct (Ascii.eqb_spec c "/") as [-> |]; [| reflexivity].
      vm_compute in Hc. discriminate.
    - eapply string_forall_impl; [| apply clean_name_stored]. intros c Hc.
      now rewrite (is_stored_char_not_slash c Hc). }
  assert (Hne' : clean_name ext <> EmptyString) by (destruct ext; [congruence | discriminate]).
  pose proof (clean_name_ext ext Hext) as Hext'.
  destruct (stem_ext_name _ _ Hstem Hext') as [Hname Hnonempty].
  rewrite E, (extractSongName_last_segment "/uploads" _ Hname Hnonempty).
  rewrite (strip_extension_app _ _ Hne' Hext').
  rewrite !replace_each_app. cbn [replace_each]. change (is_separator "-") with true. cbn iota.
  f_equal.
  apply replace_each_fixed. eapply string_forall_impl; [| exact Hnow].
  intros c Hc. destruct (is_separator c) eqn:E'; [| reflexivity].
  unfold is_separator in E'. apply orb_true_iff in E' as [E' | E'];
    apply Ascii.eqb_eq in E'; subst c; vm_compute in Hc; discriminate.
Qed.

Lemma uploaded_title_witness :
  string_forall is_digit "1714557600000" = true
  /\ "mp3" <> EmptyString
  /\ string_forall is_ext_char "mp3" = true
  /\ extractSongName
       ("/uploads/" ++ storage_filename "1714557600000" ("My Song (live)" ++ String "." "mp3"))
     = "1714557600000" ++ " " ++ replace_each is_separator " " (clean_name "My Song (live)").
Proof.
  split; [reflexivity |]. split; [discriminate |]. split; [reflexivity |].
  exact (uploaded_title "1714557600000" "My Song (live)" "mp3"
           eq_refl ltac:(discriminate) eq_refl).
Defined.

End TitleFacts.

Section PitchFacts.
Import JS Pitch.

Lemma dominant_loop_spec sampleRate fftSize dataArray : forall i maxVolume dominantFrequency,
  let result := dominant_loop sampleRate fftSize dataArray i maxVolume dominantFrequency in
  (result = (maxVolume, dominantFrequency) /\ Forall (fun d => d <= maxVolume) dataArray)
  \/ (exists k,
        dataArray !! k = Some (fst result)
        /\ maxVolume < fst result
        /\ (forall j d, (j < k)%nat -> dataArray !! j = Some d -> d < fst result)
        /\ Forall (fun d => d <= fst result) dataArray
        /\ snd result = (Z2F (Z.of_nat (i + k)) * sampleRate / fftSize)%float).
Proof.
  induction dataArray as [| d rest IH]; intros i m f; cbn [dominant_loop].
  - left. split; [reflexivity | constructor].
  - destruct (m <? d) eqn:E.
    + apply Z.ltb_lt in E. right.
      destruct (IH (S i) d (Z2F (Z.of_nat i) * sampleRate / fftSize)%float)
        as [[-> Hall] | (k & Hk & Hlt & Hfirst & Hall & Hf)].
      * exists 0%nat. cbn [fst snd]. split; [reflexivity |]. split; [exact E |].
        split; [intros j d' Hj; lia |]. split; [constructor; [lia | exact Hall] |].
        now rewrite Nat.add_0_r.
      * exists (S k). split; [exact Hk |]. split; [lia |]. split.
        -- intros [| j] d' Hj Hd; cbn in Hd; [injection Hd as <-; lia |].
           apply (Hfirst j d'); [lia | exact Hd].
        -- split; [constructor; [lia | exact Hall] |].
           rewrite Hf. now rewrite Nat.add_succ_r.
    + apply Z.ltb_ge in E.
      destruct (IH (S i) m f) as [[-> Hall] | (k & Hk & Hlt & Hfirst & Hall & Hf)].
      * left. split; [reflexivity |]. constructor; [exact E | exact Hall].
      * right. exists (S k). split; [exact Hk |]. split; [exact Hlt |]. split.
        -- intros [| j] d' Hj Hd; cbn in Hd; [injection Hd as <-; lia |].
           apply (Hfirst j d'); [lia | exact Hd].
        -- split; [constructor; [lia | exact Hall] |].
           rewrite Hf. now rewrite Nat.add_succ_r.
Qed.

(** X20: the loop of [updateTextScale] finds the first loudest bin:
    either no value of the frequency data is above zero, and then the
    volume is 0 and the frequency 0; or the volume is the greatest
    value, it is above zero, and the frequency is that of the lowest
    index that holds it, index * sampleRate / fftSize. *)
Theorem dominant_is_first_loudest (sampleRate fftSize : float) (dataArray : list Z) :
  let maxVolume := fst (dominant sampleRate fftSize dataArray) in
  let dominantFrequency := snd (dominant sampleRate fftSize dataArray) in
  (Forall (fun d => d <= 0) dataArray /\ maxVolume = 0 /\ dominantFrequency = 0%float)
  \/ (exists k,
        dataArray !! k = Some maxVolume
        /\ 0 < maxVolume
        /\ (forall j d, (j < k)%nat -> dataArray !! j = Some d -> d < maxVolume)
        /\ Forall (fun d => d <= maxVolume) dataArray
        /\ dominantFrequency = (Z2F (Z.of_nat k) * sampleRate / fftSize)%float).
Proof.
  cbv zeta. unfold dominant.
  destruct (dominant_loop_spec sampleRate fftSize dataArray 0 0 0%float)
    as [[-> Hall] | (k & H)].
  - left. auto.
  - right. exists k. exact H.
Qed.

Example dominant_examples :
  map (fun data => fst (dominant 44100 2048 data)) [[0; 3; 9; 9; 2]; [0; 0; 0]; []]
  = [9; 0; 0]
  /\ map (fun data => snd (dominant 44100 2048 data)) [[0; 3; 9; 9; 2]; [0; 0; 0]; []]
     = [(2 * 44100 / 2048)%float; 0%float; 0%float].
Proof. split; vm_compute; reflexivity. Qed.

End PitchFacts.

(** ** The upload handler *)

Section UploadFacts.
Import JS Server Upload.
Variable sha256_hex : string -> string.
Variable utf8 : string -> string.
Variable uploadsDir : string.

Lemma findDuplicateFile_returns fs reg p :
  exists d, findDuplicateFile sha256_hex fs reg p = Return d.
Proof.
  unfold findDuplicateFile, calculateFileHash.
  destruct (readFileSync fs p) as [buf | e]; cbn [try_catch truthy negb]; [| eauto].
  destruct (negb (negb (is_empty (sha256_hex buf)))); [eauto |].
  destruct (_ !! _); eauto.
Qed.

Lemma findDuplicateFile_Some fs reg p d :
  findDuplicateFile sha256_hex fs reg p = Return (Some d) ->
  exists buf, readFileSync fs p = Return buf /\ sha256_hex buf <> EmptyString
              /\ reg !! sha256_hex buf = Some d.
Proof.
  unfold findDuplicateFile, calculateFileHash.
  destruct (readFileSync fs p) as [buf | e]; cbn [try_catch truthy negb default from_option];
    unfold id; [| discriminate].
  destruct (is_empty (sha256_hex buf)) eqn:E; cbn [negb]; [discriminate |].
  apply is_empty_false in E.
  destruct (reg !! sha256_hex buf) as [d' |] eqn:Ed; [| discriminate].
  intros [= <-]. eauto.
Qed.

Lemma findDuplicateFile_None fs reg p buf :
  findDuplicateFile sha256_hex fs reg p = Return None ->
  readFileSync fs p = Return buf -> sha256_hex buf <> EmptyString ->
  reg !! sha256_hex buf = None.
Proof.
  unfold findDuplicateFile, calculateFileHash. intros H Hr Hne. rewrite Hr in H.
  cbn [try_catch truthy negb default from_option] in H. unfold id in H.
  apply is_empty_false in Hne. rewrite Hne in H. cbn [negb] in H.
  destruct (reg !! sha256_hex buf); [discriminate | reflexivity].
Qed.

Lemma registerFile_cases fs reg p o now :
  (exists buf,
      readFileSync fs p = Return buf /\ sha256_hex buf <> EmptyString
      /\ registerFile sha256_hex fs reg p o now
         = (Return (Some {| Server.filename := basename p; originalName := o;
                            uploadDate := now; hash := sha256_hex buf |}),
            <[sha256_hex buf := {| Server.filename := basename p; originalName := o;
                                   uploadDate := now; hash := sha256_hex buf |}]> reg))
  \/ ((forall buf, readFileSync fs p = Return buf -> sha256_hex buf = EmptyString)
      /\ registerFile sha256_hex fs reg p o now = (Return None, reg)).
Proof.
  unfold registerFile, calculateFileHash.
  destruct (readFileSync fs p) as [buf | e]; cbn [try_catch truthy negb default from_option];
    unfold id.
  - destruct (is_empty (sha256_hex buf)) eqn:E; cbn [negb].
    + right. apply is_empty_true in E. split; [| reflexivity]. now intros b [= <-].
    + left. apply is_empty_false in E. exists buf. auto.
  - right. split; [discriminate | reflexivity].
Qed.

Lemma extends_insert (reg reg1 : gmap string FileInfo) k v :
  reg !! k = None -> extends reg reg1 -> extends reg (<[k := v]> reg1).
Proof.
  intros Hk He k' r Hr. rewrite lookup_insert_ne; [now apply He | congruence].
Qed.

Lemma keyed_insert (reg : gmap string FileInfo) v :
  keyed_by_hash reg -> keyed_by_hash (<[hash v := v]> reg).
Proof.
  intros Hk k r. rewrite lookup_insert. case_decide as Hd.
  - intros [= <-]. exact Hd.
  - apply Hk.
Qed.

Lemma read_remove_file fs p q :
  readFileSync (remove_file fs p) q
  = if String.eqb q p then Throw (no_entry "open" q) else readFileSync fs q.
Proof. reflexivity. Qed.

Lemma read_after_unlink fs p fs' q buf :
  fs' = fs \/ fs' = remove_file fs p ->
  readFileSync fs' q = Return buf ->
  readFileSync fs q = Return buf /\ (fs' = fs \/ q <> p).
Proof.
  intros [-> | ->]; [auto |]. rewrite read_remove_file.
  destruct (String.eqb_spec q p); [discriminate | auto].
Qed.

Lemma unlinkSync_Return fs p fs' : unlinkSync fs p = Return fs' -> fs' = remove_file fs p.
Proof. unfold unlinkSync. destruct (existsSync fs p); [now intros [= <-] | discriminate]. Qed.

(** The audio step. *)
Lemma audio_step_spec reg fs audioFile duplicateAudio now res reg1 fs1 :
  findDuplicateFile sha256_hex fs reg (path audioFile) = Return duplicateAudio ->
  audio_step sha256_hex reg fs audioFile duplicateAudio now = (res, reg1, fs1) ->
  extends reg reg1
  /\ (keyed_by_hash reg -> keyed_by_hash reg1)
  /\ (fs1 = fs \/ (duplicateAudio <> None /\ fs1 = remove_file fs (path audioFile)))
  /\ (forall buf, readFileSync fs (path audioFile) = Return buf ->
        sha256_hex buf <> EmptyString -> is_Some (reg1 !! sha256_hex buf))
  /\ (forall k r, reg1 !! k = Some r ->
        reg !! k = Some r
        \/ (duplicateAudio = None /\ fs1 = fs
            /\ Server.filename r = basename (path audioFile)
            /\ exists buf, readFileSync fs (path audioFile) = Return buf
                           /\ k = sha256_hex buf))
  /\ (forall p, res = Return p ->
        match duplicateAudio with
        | Some d => p = ("/uploads/" ++ Server.filename d, duplicate d)
                    /\ fs1 = remove_file fs (path audioFile)
        | None => p = ("/uploads/" ++ filename audioFile, NotDuplicate)
        end).
Proof.
  intros Hdup. unfold audio_step. destruct duplicateAudio as [d |].
  - apply findDuplicateFile_Some in Hdup as (buf & Hr & Hne & Hd).
    assert (Hreg : forall b, readFileSync fs (path audioFile) = Return b ->
                     sha256_hex b <> EmptyString -> is_Some (reg !! sha256_hex b)).
    { intros b Hb _. rewrite Hr in Hb. injection Hb as <-. eauto. }
    destruct (unlinkSync fs (path audioFile)) as [fs' | e] eqn:Hu; intros [= <- <- <-].
    + apply unlinkSync_Return in Hu.
      split; [now intros k r |]. split; [auto |]. split; [right; split; [discriminate | auto] |].
      split; [exact Hreg |]. split; [auto |]. intros p [= <-]. auto.
    + split; [now intros k r |]. split; [auto |]. split; [auto |].
      split; [exact Hreg |]. split; [auto |]. discriminate.
  - destruct (registerFile_cases fs reg (path audioFile) (originalname audioFile) now)
      as [(buf & Hr & Hne & ->) | (Hnone & ->)]; intros [= <- <- <-].
    + pose proof (findDuplicateFile_None _ _ _ _ Hdup Hr Hne) as Hfree.
      split; [apply extends_insert; [exact Hfree | now intros k r] |].
      split; [intros Hk; exact (keyed_insert reg {| hash := sha256_hex buf |} Hk) |].
      split; [auto |]. split.
      * intros b Hb _. rewrite Hr in Hb. injection Hb as <-. rewrite lookup_insert_eq. eauto.
      * split; [| now intros p [= <-]]. intros k r. rewrite lookup_insert.
        case_decide as Hd; [| auto].
        intros [= <-]. right. cbn. repeat split; eauto.
    + split; [now intros k r |]. split; [auto |]. split; [auto |]. split.
      * intros b Hb Hne. now apply Hnone in Hb.
      * split; [auto | now intros p [= <-]].
Qed.

(** The lyrics step, run after the audio step: [reg] and [fs] are the
    registry and the file system that the two lookups saw. *)
Lemma lyrics_step_spec reg fs reg1 fs1 pa lyricsFile duplicateLyrics now res reg2 fs2 :
  findDuplicateFile sha256_hex fs reg (path lyricsFile) = Return duplicateLyrics ->
  extends reg reg1 ->
  fs1 = fs \/ fs1 = remove_file fs pa ->
  lyrics_step sha256_hex utf8 uploadsDir reg1 fs1 lyricsFile duplicateLyrics now
  = (res, reg2, fs2) ->
  extends reg reg2
  /\ (keyed_by_hash reg1 -> keyed_by_hash reg2)
  /\ (fs2 = fs1 \/ (duplicateLyrics <> None /\ fs2 = remove_file fs1 (path lyricsFile)))
  /\ (forall k, is_Some (reg1 !! k) -> is_Some (reg2 !! k))
  /\ (forall k r, reg2 !! k = Some r ->
        reg1 !! k = Some r
        \/ (duplicateLyrics = None /\ fs2 = fs1
            /\ Server.filename r = basename (path lyricsFile)
            /\ exists buf, readFileSync fs1 (path lyricsFile) = Return buf
                           /\ k = sha256_hex buf))
  /\ (forall lyr info, res = Return (inr (lyr, info)) ->
        match duplicateLyrics with
        | Some d =>
            info = duplicate d /\ fs2 = remove_file fs1 (path lyricsFile)
            /\ exists buf, readFileSync fs2 (join uploadsDir (Server.filename d)) = Return buf
                           /\ lyr = parseLyrics (utf8 buf)
        | None =>
            info = NotDuplicate
            /\ exists buf, readFileSync fs1 (path lyricsFile) = Return buf
                           /\ lyr = parseLyrics (utf8 buf)
                           /\ (sha256_hex buf <> EmptyString -> is_Some (reg2 !! sha256_hex buf))
        end)
  /\ (forall resp, res = Return (inl resp) ->
        exists e, resp = failure 400 e \/ resp = failure 500 e).
Proof.
  intros Hdup Hext Hfs. unfold lyrics_step. destruct duplicateLyrics as [d |].
  - destruct (unlinkSync fs1 (path lyricsFile)) as [fs' | e] eqn:Hu.
    + apply unlinkSync_Return in Hu.
      destruct (readFileSync fs' (join uploadsDir (Server.filename d))) as [buf | e] eqn:Hr;
        intros [= <- <- <-].
      * split; [exact Hext |]. split; [auto |].
        split; [right; split; [discriminate | auto] |]. split; [auto |]. split; [auto |].
        split; [| discriminate]. intros lyr info [= <- <-]. eauto.
      * split; [exact Hext |]. split; [auto |].
        split; [right; split; [discriminate | auto] |]. split; [auto |]. split; [auto |].
        split; [discriminate |]. intros resp [= <-]. eauto.
    + intros [= <- <- <-]. split; [exact Hext |]. split; [auto |]. split; [auto |].
      split; [auto |]. split; [auto |]. split; discriminate.
  - destruct (readFileSync fs1 (path lyricsFile)) as [buf | e] eqn:Hr.
    2:{ intros [= <- <- <-]. split; [exact Hext |]. split; [auto |]. split; [auto |].
        split; [auto |]. split; [auto |]. split; [discriminate |].
        intros resp [= <-]. eauto. }
    cbv zeta.
    destruct (registerFile_cases fs1 reg1 (path lyricsFile) (originalname lyricsFile) now)
      as [(buf' & Hr' & Hne & ->) | (Hnone & ->)]; intros [= <- <- <-].
    + rewrite Hr in Hr'. injection Hr' as <-.
      destruct (read_after_unlink fs pa fs1 _ _ Hfs Hr) as [Hr0 _].
      pose proof (findDuplicateFile_None _ _ _ _ Hdup Hr0 Hne) as Hfree.
      split; [apply extends_insert; assumption |].
      split; [intros Hk; exact (keyed_insert reg1 {| hash := sha256_hex buf |} Hk) |].
      split; [auto |]. split.
      { intros k Hk. rewrite lookup_insert. case_decide; eauto. }
      split.
      { intros k r. rewrite lookup_insert. case_decide as Hd; [| auto].
        intros [= <-]. right. cbn. repeat split; eauto. }
      split; [| discriminate]. intros lyr info [= <- <-]. split; [reflexivity |].
      exists buf. repeat split; auto. intros _. rewrite lookup_insert_eq. eauto.
    + split; [exact Hext |]. split; [auto |]. split; [auto |]. split; [auto |].
      split; [auto |]. split; [| discriminate]. intros lyr info [= <- <-].
      split; [reflexivity |]. exists buf. repeat split; auto.
      intros Hne. now apply Hnone in Hr.
Qed.

(** The two steps of a request with both files. *)
Lemma process_steps reg fs audioFile lyricsFile nowAudio nowLyrics :
  exists duplicateAudio duplicateLyrics resA reg1 fs1,
    findDuplicateFile sha256_hex fs reg (path audioFile) = Return duplicateAudio
    /\ findDuplicateFile sha256_hex fs reg (path lyricsFile) = Return duplicateLyrics
    /\ audio_step sha256_hex reg fs audioFile duplicateAudio nowAudio = (resA, reg1, fs1)
    /\ match resA with
       | Throw e =>
           handle_files sha256_hex utf8 uploadsDir reg fs audioFile lyricsFile nowAudio nowLyrics
           = (server_error e, reg1, fs1)
       | Return (finalAudioUrl, audioInfo) =>
           exists resL reg2 fs2,
             lyrics_step sha256_hex utf8 uploadsDir reg1 fs1 lyricsFile duplicateLyrics nowLyrics
             = (resL, reg2, fs2)
             /\ handle_files sha256_hex utf8 uploadsDir reg fs audioFile lyricsFile nowAudio nowLyrics
                = (match resL with
                   | Throw e => server_error e
                   | Return (inl early) => early
                   | Return (inr (finalLyricsData, lyricsInfo)) =>
                       {| status := 200;
                          content := Uploaded finalAudioUrl finalLyricsData
                                       "Files processed successfully" audioInfo lyricsInfo |}
                   end, reg2, fs2)
       end.
Proof.
  destruct (findDuplicateFile_returns fs reg (path audioFile)) as [dA HA].
  destruct (findDuplicateFile_returns fs reg (path lyricsFile)) as [dL HL].
  unfold handle_files. rewrite HA, HL.
  destruct (audio_step sha256_hex reg fs audioFile dA nowAudio) as [[resA reg1] fs1] eqn:EA.
  exists dA, dL, resA, reg1, fs1.
  split; [reflexivity |]. split; [reflexivity |]. split; [exact EA |].
  destruct resA as [[url ai] | e]; [| reflexivity].
  destruct (lyrics_step sha256_hex utf8 uploadsDir reg1 fs1 lyricsFile dL nowLyrics)
    as [[resL reg2] fs2] eqn:EL.
  exists resL, reg2, fs2. split; [reflexivity |].
  destruct resL as [[early | [lyr li]] | e]; reflexivity.
Qed.

(** X21: an upload request never replaces or removes a record that
    was in the registry before it, whatever its outcome, and it keeps a
    registry in which every record is stored under its own digest so.
    Only a record that the request made for the audio file can be
    replaced, by the record of a lyrics file with the same digest. *)
Theorem upload_keeps_records (fileHashes : gmap string FileInfo) (fs : FileSystem)
    (files : option Files) (nowAudio nowLyrics : string) :
  let after := post_upload sha256_hex utf8 uploadsDir fileHashes fs files nowAudio nowLyrics in
  extends fileHashes (snd (fst after))
  /\ (keyed_by_hash fileHashes -> keyed_by_hash (snd (fst after))).
Proof.
  cbv zeta. unfold post_upload.
  destruct files as [files |]; [| split; [now intros k r | auto]].
  destruct (audio files) as [audioFile |], (lyrics files) as [lyricsFile |];
    try (split; [now intros k r | auto]).
  destruct (process_steps fileHashes fs audioFile lyricsFile nowAudio nowLyrics)
    as (dA & dL & resA & reg1 & fs1 & HA & HL & EA & Hp).
  destruct (audio_step_spec _ _ _ _ _ _ _ _ HA EA) as (Hext & Hkey & Hfs1 & _).
  destruct resA as [[url ai] | e].
  - destruct Hp as (resL & reg2 & fs2 & EL & ->). cbn [fst snd].
    assert (Hfs : fs1 = fs \/ fs1 = remove_file fs (path audioFile)) by tauto.
    destruct (lyrics_step_spec _ _ _ _ _ _ _ _ _ _ _ HL Hext Hfs EL) as (Hext2 & Hkey2 & _).
    auto.
  - rewrite Hp. cbn [fst snd]. auto.
Qed.

Lemma read_remove_other fs p q :
  q <> p -> readFileSync (remove_file fs p) q = readFileSync fs q.
Proof. intros H. rewrite read_remove_file. now destruct (String.eqb_spec q p). Qed.

Lemma exists_removed fs p : existsSync (remove_file fs p) p = false.
Proof. cbn. now rewrite String.eqb_refl. Qed.

Lemma exists_remove_false fs p q :
  existsSync fs q = false -> existsSync (remove_file fs p) q = false.
Proof. intros H. cbn. now destruct (String.eqb q p). Qed.

(** What a request with both files does, for the proofs below. *)
Lemma upload_both reg fs audioFile lyricsFile nowAudio nowLyrics :
  exists duplicateAudio duplicateLyrics resA reg1 fs1,
    findDuplicateFile sha256_hex fs reg (path audioFile) = Return duplicateAudio
    /\ findDuplicateFile sha256_hex fs reg (path lyricsFile) = Return duplicateLyrics
    /\ audio_step sha256_hex reg fs audioFile duplicateAudio nowAudio = (resA, reg1, fs1)
    /\ match resA with
       | Throw e =>
           post_upload sha256_hex utf8 uploadsDir reg fs
             (Some {| audio := Some audioFile; lyrics := Some lyricsFile |}) nowAudio nowLyrics
           = (server_error e, reg1, fs1)
       | Return (finalAudioUrl, audioInfo) =>
           exists resL reg2 fs2,
             lyrics_step sha256_hex utf8 uploadsDir reg1 fs1 lyricsFile duplicateLyrics nowLyrics
             = (resL, reg2, fs2)
             /\ post_upload sha256_hex utf8 uploadsDir reg fs
                  (Some {| audio := Some audioFile; lyrics := Some lyricsFile |})
                  nowAudio nowLyrics
                = (match resL with
                   | Throw e => server_error e
                   | Return (inl early) => early
                   | Return (inr (finalLyricsData, lyricsInfo)) =>
                       {| status := 200;
                          content := Uploaded finalAudioUrl finalLyricsData
                                       "Files processed successfully" audioInfo lyricsInfo |}
                   end, reg2, fs2)
       end.
Proof. exact (process_steps reg fs audioFile lyricsFile nowAudio nowLyrics). Qed.

(** A successful request, taken apart. *)
Lemma upload_success reg fs audioFile lyricsFile nowAudio nowLyrics url lyr msg ai li :
  content (fst (fst (post_upload sha256_hex utf8 uploadsDir reg fs
                       (Some {| audio := Some audioFile; lyrics := Some lyricsFile |})
                       nowAudio nowLyrics)))
  = Uploaded url lyr msg ai li ->
  exists duplicateAudio duplicateLyrics reg1 fs1 reg2 fs2,
    findDuplicateFile sha256_hex fs reg (path audioFile) = Return duplicateAudio
    /\ findDuplicateFile sha256_hex fs reg (path lyricsFile) = Return duplicateLyrics
    /\ audio_step sha256_hex reg fs audioFile duplicateAudio nowAudio
       = (Return (url, ai), reg1, fs1)
    /\ lyrics_step sha256_hex utf8 uploadsDir reg1 fs1 lyricsFile duplicateLyrics nowLyrics
       = (Return (inr (lyr, li)), reg2, fs2)
    /\ post_upload sha256_hex utf8 uploadsDir reg fs
         (Some {| audio := Some audioFile; lyrics := Some lyricsFile |}) nowAudio nowLyrics
       = ({| status := 200; content := Uploaded url lyr msg ai li |}, reg2, fs2).
Proof.
  destruct (upload_both reg fs audioFile lyricsFile nowAudio nowLyrics)
    as (dA & dL & resA & reg1 & fs1 & HA & HL & EA & Hp).
  destruct resA as [[url' ai'] | e]; [| rewrite Hp; discriminate].
  destruct Hp as (resL & reg2 & fs2 & EL & ->). cbn [fst content].
  destruct (audio_step_spec _ _ _ _ _ _ _ _ HA EA) as (Hext & _ & Hfs1 & _).
  assert (Hfs : fs1 = fs \/ fs1 = remove_file fs (path audioFile)) by tauto.
  destruct (lyrics_step_spec _ _ _ _ _ _ _ _ _ _ _ HL Hext Hfs EL)
    as (_ & _ & _ & _ & _ & _ & Hearly).
  destruct resL as [[early | [lyr' li']] | e].
  - destruct (Hearly early eq_refl) as [e [-> | ->]]; discriminate.
  - cbn [content]. intros [= <- <- <- <- <-].
    exists dA, dL, reg1, fs1, reg2, fs2. auto.
  - discriminate.
Qed.

(** X23: the reuse of a duplicate does not change the answer: when
    the registry is true to the disk and no other buffer has the digest
    of the uploaded lyrics, the lyrics of a successful response are
    [parseLyrics] of the text of the uploaded lyrics file, whether they
    were read from it or from the registered file it duplicates. *)
Theorem upload_lyrics_of_uploaded_text
    (fileHashes : gmap string FileInfo) (fs : FileSystem)
    (audioFile lyricsFile : UploadedFile) (nowAudio nowLyrics buf : string)
    (url : string) (lyr : list LyricLine) (msg : string) (ai li : duplicate_info) :
  readFileSync fs (path lyricsFile) = Return buf ->
  stored sha256_hex uploadsDir fileHashes fs ->
  (forall b, sha256_hex b = sha256_hex buf -> b = buf) ->
  content (fst (fst (post_upload sha256_hex utf8 uploadsDir fileHashes fs
                       (Some {| audio := Some audioFile; lyrics := Some lyricsFile |})
                       nowAudio nowLyrics)))
  = Uploaded url lyr msg ai li ->
  lyr = parseLyrics (utf8 buf).
Proof.
  intros Hr Hst Hinj Hok.
  destruct (upload_success _ _ _ _ _ _ _ _ _ _ _ Hok)
    as (dA & dL & reg1 & fs1 & reg2 & fs2 & HA & HL & EA & EL & _).
  destruct (audio_step_spec _ _ _ _ _ _ _ _ HA EA) as (Hext & _ & Hfs1 & _).
  assert (Hfs : fs1 = fs \/ fs1 = remove_file fs (path audioFile)) by tauto.
  destruct (lyrics_step_spec _ _ _ _ _ _ _ _ _ _ _ HL Hext Hfs EL)
    as (_ & _ & _ & _ & _ & Hres & _).
  specialize (Hres lyr li eq_refl). destruct dL as [d |].
  - destruct Hres as (_ & -> & b & Hb & ->).
    apply findDuplicateFile_Some in HL as (buf' & Hr' & _ & Hd).
    rewrite Hr in Hr'. injection Hr' as <-.
    destruct (Hst _ _ Hd) as (b' & Hb' & Hsha).
    rewrite read_remove_file in Hb.
    destruct (String.eqb _ (path lyricsFile)); [discriminate |].
    destruct (read_after_unlink _ _ _ _ _ Hfs Hb) as [Hb0 _].
    rewrite Hb' in Hb0. injection Hb0 as <-. now rewrite (Hinj b' Hsha).
  - destruct Hres as (_ & b & Hb & -> & _).
    destruct (read_after_unlink _ _ _ _ _ Hfs Hb) as [Hb0 _].
    rewrite Hr in Hb0. now injection Hb0 as <-.
Qed.

(** X24: after a successful request the digest of each uploaded file
    that can be read is in the registry, when it is not the empty
    string: a later upload of the same bytes is found to be a
    duplicate. *)
Theorem upload_registers_digests
    (fileHashes : gmap string FileInfo) (fs : FileSystem)
    (audioFile lyricsFile : UploadedFile) (nowAudio nowLyrics : string)
    (url : string) (lyr : list LyricLine) (msg : string) (ai li : duplicate_info) :
  let after := post_upload sha256_hex utf8 uploadsDir fileHashes fs
                 (Some {| audio := Some audioFile; lyrics := Some lyricsFile |})
                 nowAudio nowLyrics in
  content (fst (fst after)) = Uploaded url lyr msg ai li ->
  forall file buf,
    file = audioFile \/ file = lyricsFile ->
    readFileSync fs (path file) = Return buf -> sha256_hex buf <> EmptyString ->
    is_Some (snd (fst after) !! sha256_hex buf).
Proof.
  cbv zeta. intros Hok.
  destruct (upload_success _ _ _ _ _ _ _ _ _ _ _ Hok)
    as (dA & dL & reg1 & fs1 & reg2 & fs2 & HA & HL & EA & EL & ->). cbn [fst snd].
  destruct (audio_step_spec _ _ _ _ _ _ _ _ HA EA) as (Hext & _ & Hfs1 & Hreg & _).
  assert (Hfs : fs1 = fs \/ fs1 = remove_file fs (path audioFile)) by tauto.
  destruct (lyrics_step_spec _ _ _ _ _ _ _ _ _ _ _ HL Hext Hfs EL)
    as (Hext2 & _ & _ & Hmono & _ & Hres & _).
  intros file buf [-> | ->] Hr Hne.
  - apply Hmono. now apply Hreg.
  - specialize (Hres lyr li eq_refl). destruct dL as [d |].
    + apply findDuplicateFile_Some in HL as (buf' & Hr' & _ & Hd).
      rewrite Hr in Hr'. injection Hr' as <-. exists d. now apply Hext2.
    + destruct Hres as (_ & b & Hb & _ & Hin).
      destruct (read_after_unlink _ _ _ _ _ Hfs Hb) as [Hb0 _].
      rewrite Hr in Hb0. injection Hb0 as <-. now apply Hin.
Qed.

Lemma same_path_same_lookup reg fs p q d d' :
  p = q ->
  findDuplicateFile sha256_hex fs reg p = Return d ->
  findDuplicateFile sha256_hex fs reg q = Return d' -> d = d'.
Proof. intros -> H H'. rewrite H in H'. now injection H'. Qed.

(** X25: in a successful request an uploaded file that duplicates a
    registered one is reported with the record it duplicates and is
    deleted, and for the audio the URL names the registered file; an
    uploaded file that is new is reported as no duplicate, the URL of
    the audio names it, and its content on the disk is untouched. *)
Theorem upload_removes_duplicates
    (fileHashes : gmap string FileInfo) (fs : FileSystem)
    (audioFile lyricsFile : UploadedFile) (nowAudio nowLyrics : string)
    (url : string) (lyr : list LyricLine) (msg : string) (ai li : duplicate_info) :
  let after := post_upload sha256_hex utf8 uploadsDir fileHashes fs
                 (Some {| audio := Some audioFile; lyrics := Some lyricsFile |})
                 nowAudio nowLyrics in
  content (fst (fst after)) = Uploaded url lyr msg ai li ->
  match findDuplicateFile sha256_hex fs fileHashes (path audioFile) with
  | Return (Some d) =>
      ai = duplicate d /\ url = "/uploads/" ++ Server.filename d
      /\ existsSync (snd after) (path audioFile) = false
  | _ =>
      ai = NotDuplicate /\ url = "/uploads/" ++ filename audioFile
      /\ readFileSync (snd after) (path audioFile) = readFileSync fs (path audioFile)
  end
  /\ match findDuplicateFile sha256_hex fs fileHashes (path lyricsFile) with
     | Return (Some d) =>
         li = duplicate d /\ existsSync (snd after) (path lyricsFile) = false
     | _ =>
         li = NotDuplicate
         /\ readFileSync (snd after) (path lyricsFile) = readFileSync fs (path lyricsFile)
     end.
Proof.
  cbv zeta. intros Hok.
  destruct (upload_success _ _ _ _ _ _ _ _ _ _ _ Hok)
    as (dA & dL & reg1 & fs1 & reg2 & fs2 & HA & HL & EA & EL & ->). cbn [fst snd].
  destruct (audio_step_spec _ _ _ _ _ _ _ _ HA EA) as (Hext & _ & Hfs1 & _ & _ & HresA).
  assert (Hfs : fs1 = fs \/ fs1 = remove_file fs (path audioFile)) by tauto.
  destruct (lyrics_step_spec _ _ _ _ _ _ _ _ _ _ _ HL Hext Hfs EL)
    as (_ & _ & Hfs2 & _ & _ & Hres & _).
  specialize (HresA _ eq_refl). specialize (Hres lyr li eq_refl).
  rewrite HA, HL. split.
  - destruct dA as [d |].
    + destruct HresA as ([= -> ->] & ->). repeat split.
      destruct Hfs2 as [-> | [_ ->]]; [apply exists_removed |].
      apply exists_remove_false, exists_removed.
    + injection HresA as -> ->. repeat split.
      destruct Hfs1 as [-> | [Hne _]]; [| congruence].
      destruct Hfs2 as [-> | [Hne ->]]; [reflexivity |].
      apply read_remove_other. intros Hp. apply Hne.
      symmetry. exact (same_path_same_lookup _ _ _ _ _ _ Hp HA HL).
  - destruct dL as [d |].
    + destruct Hres as (-> & -> & _). split; [reflexivity | apply exists_removed].
    + destruct Hres as (-> & b & Hb & _). split; [reflexivity |].
      destruct Hfs2 as [-> | [Hne _]]; [| congruence].
      rewrite Hb. symmetry. exact (proj1 (read_after_unlink _ _ _ _ _ Hfs Hb)).
Qed.

(** The records after a request with both files. *)
Lemma upload_records reg fs audioFile lyricsFile nowAudio nowLyrics :
  let after := post_upload sha256_hex utf8 uploadsDir reg fs
                 (Some {| audio := Some audioFile; lyrics := Some lyricsFile |})
                 nowAudio nowLyrics in
  forall k r, snd (fst after) !! k = Some r ->
    (reg !! k = Some r
     \/ exists file buf,
          (file = audioFile \/ file = lyricsFile)
          /\ Server.filename r = basename (path file)
          /\ readFileSync fs (path file) = Return buf
          /\ k = sha256_hex buf
          /\ readFileSync (snd after) (path file) = Return buf)
    /\ forall q, q <> path audioFile -> q <> path lyricsFile ->
         readFileSync (snd after) q = readFileSync fs q.
Proof.
  cbv zeta.
  destruct (upload_both reg fs audioFile lyricsFile nowAudio nowLyrics)
    as (dA & dL & resA & reg1 & fs1 & HA & HL & EA & Hp).
  destruct (audio_step_spec _ _ _ _ _ _ _ _ HA EA) as (Hext & _ & Hfs1 & _ & Hnew1 & _).
  assert (Hfs : fs1 = fs \/ fs1 = remove_file fs (path audioFile)) by tauto.
  assert (Hframe1 : forall q, q <> path audioFile -> readFileSync fs1 q = readFileSync fs q).
  { intros q Hq. destruct Hfs as [-> | ->]; [reflexivity | now apply read_remove_other]. }
  destruct resA as [[url ai] | e].
  2:{ rewrite Hp. cbn [fst snd]. intros k r Hr. split; [| auto].
      destruct (Hnew1 k r Hr) as [H | (_ & -> & Hf & buf & Hb & ->)]; [auto |].
      right. exists audioFile, buf. auto 10. }
  destruct Hp as (resL & reg2 & fs2 & EL & ->). cbn [fst snd].
  destruct (lyrics_step_spec _ _ _ _ _ _ _ _ _ _ _ HL Hext Hfs EL)
    as (_ & _ & Hfs2 & _ & Hnew2 & _).
  assert (Hframe2 : forall q, q <> path lyricsFile -> readFileSync fs2 q = readFileSync fs1 q).
  { intros q Hq. destruct Hfs2 as [-> | [_ ->]]; [reflexivity | now apply read_remove_other]. }
  intros k r Hr. split.
  2:{ intros q Hqa Hql. now rewrite Hframe2, Hframe1. }
  destruct (Hnew2 k r Hr) as [H1 | (HdL & -> & Hf & buf & Hb & ->)].
  - destruct (Hnew1 k r H1) as [H | (HdA & -> & Hf & buf & Hb & ->)]; [auto |].
    right. exists audioFile, buf. repeat split; auto.
    destruct Hfs2 as [-> | [Hne ->]]; [exact Hb |].
    rewrite read_remove_other; [exact Hb |].
    intros Hp. apply Hne. subst dA. symmetry.
    exact (same_path_same_lookup _ _ _ _ _ _ Hp HA HL).
  - right. exists lyricsFile, buf. repeat split; auto.
    exact (proj1 (read_after_unlink _ _ _ _ _ Hfs Hb)).
Qed.

(** X26: an upload request keeps the registry true to the disk,
    whatever its outcome: when every record names a file of the uploads
    directory that can be read and has the digest of the record, no
    record names one of the two uploaded paths, and the two uploaded
    files are in the uploads directory, it is so after the request. *)
Theorem upload_keeps_stored
    (fileHashes : gmap string FileInfo) (fs : FileSystem)
    (audioFile lyricsFile : UploadedFile) (nowAudio nowLyrics : string) :
  stored sha256_hex uploadsDir fileHashes fs ->
  unregistered uploadsDir fileHashes (path audioFile) ->
  unregistered uploadsDir fileHashes (path lyricsFile) ->
  join uploadsDir (basename (path audioFile)) = path audioFile ->
  join uploadsDir (basename (path lyricsFile)) = path lyricsFile ->
  let after := post_upload sha256_hex utf8 uploadsDir fileHashes fs
                 (Some {| audio := Some audioFile; lyrics := Some lyricsFile |})
                 nowAudio nowLyrics in
  stored sha256_hex uploadsDir (snd (fst after)) (snd after).
Proof.
  intros Hst Hua Hul Hpa Hpl after k r Hr. subst after.
  destruct (upload_records fileHashes fs audioFile lyricsFile nowAudio nowLyrics k r Hr)
    as [[H | (file & buf & Hfile & Hf & _ & -> & Hb)] Hframe].
  - destruct (Hst k r H) as (buf & Hb & Hsha). exists buf. split; [| exact Hsha].
    rewrite Hframe; [exact Hb | exact (Hua k r H) | exact (Hul k r H)].
  - exists buf. split; [| reflexivity]. rewrite Hf.
    destruct Hfile as [-> | ->]; [now rewrite Hpa | now rewrite Hpl].
Qed.

(** X27: the audio URL of a successful response names a file of the
    uploads directory that can be read after the request and has the
    digest of the uploaded audio. *)
Theorem upload_audio_url_served
    (fileHashes : gmap string FileInfo) (fs : FileSystem)
    (audioFile lyricsFile : UploadedFile) (nowAudio nowLyrics buf : string)
    (url : string) (lyr : list LyricLine) (msg : string) (ai li : duplicate_info) :
  readFileSync fs (path audioFile) = Return buf ->
  stored sha256_hex uploadsDir fileHashes fs ->
  unregistered uploadsDir fileHashes (path audioFile) ->
  unregistered uploadsDir fileHashes (path lyricsFile) ->
  join uploadsDir (filename audioFile) = path audioFile ->
  let after := post_upload sha256_hex utf8 uploadsDir fileHashes fs
                 (Some {| audio := Some audioFile; lyrics := Some lyricsFile |})
                 nowAudio nowLyrics in
  content (fst (fst after)) = Uploaded url lyr msg ai li ->
  exists name served,
    url = "/uploads/" ++ name
    /\ readFileSync (snd after) (join uploadsDir name) = Return served
    /\ sha256_hex served = sha256_hex buf.
Proof.
  intros Hr Hst Hua Hul Hpa after Hok. subst after.
  destruct (upload_success _ _ _ _ _ _ _ _ _ _ _ Hok)
    as (dA & dL & reg1 & fs1 & reg2 & fs2 & HA & HL & EA & EL & Hup).
  rewrite Hup. cbn [fst snd].
  destruct (audio_step_spec _ _ _ _ _ _ _ _ HA EA) as (Hext & _ & Hfs1 & _ & _ & HresA).
  assert (Hfs : fs1 = fs \/ fs1 = remove_file fs (path audioFile)) by tauto.
  destruct (lyrics_step_spec _ _ _ _ _ _ _ _ _ _ _ HL Hext Hfs EL)
    as (_ & _ & Hfs2 & _).
  specialize (HresA _ eq_refl). destruct dA as [d |].
  - destruct HresA as ([= -> ->] & ->).
    apply findDuplicateFile_Some in HA as (buf' & Hr' & _ & Hd).
    rewrite Hr in Hr'. injection Hr' as <-.
    destruct (Hst _ _ Hd) as (served & Hs & Hsha).
    exists (Server.filename d), served. split; [reflexivity |]. split; [| exact Hsha].
    assert (H1 : readFileSync (remove_file fs (path audioFile))
                   (join uploadsDir (Server.filename d)) = Return served).
    { rewrite read_remove_other; [exact Hs | exact (Hua _ _ Hd)]. }
    destruct Hfs2 as [-> | [_ ->]]; [exact H1 |].
    rewrite read_remove_other; [exact H1 | exact (Hul _ _ Hd)].
  - injection HresA as -> ->. exists (filename audioFile), buf.
    split; [reflexivity |]. split; [| reflexivity]. rewrite Hpa.
    destruct Hfs1 as [-> | [Hne _]]; [| congruence].
    destruct Hfs2 as [-> | [Hne ->]]; [exact Hr |].
    rewrite read_remove_other; [exact Hr |].
    intros Hp. apply Hne. symmetry.
    exact (same_path_same_lookup _ _ _ _ _ _ Hp HA HL).
Qed.

(** X22: the handler answers 200 with the body of a success, and
    then the request had both files, or it answers 400 or 500 with an
    error; a request without files, or lacking one of the two, is
    answered 400 and changes neither the registry nor the disk. *)
Theorem upload_answers (fileHashes : gmap string FileInfo) (fs : FileSystem)
    (files : option Files) (nowAudio nowLyrics : string) :
  let after := post_upload sha256_hex utf8 uploadsDir fileHashes fs files nowAudio nowLyrics in
  let response := fst (fst after) in
  ((status response = 200
    /\ (exists audioFile lyricsFile,
          files = Some {| audio := Some audioFile; lyrics := Some lyricsFile |})
    /\ exists url lyr ai li,
         content response = Uploaded url lyr "Files processed successfully" ai li)
   \/ ((status response = 400 \/ status response = 500)
       /\ exists e, content response = Error e))
  /\ (match files with
      | Some {| audio := Some _; lyrics := Some _ |} => True
      | _ => status response = 400 /\ snd (fst after) = fileHashes /\ snd after = fs
      end).
Proof.
  cbv zeta.
  destruct files as [[[audioFile |] [lyricsFile |]] |];
    try (split; [right; split; [left; reflexivity | eexists; reflexivity] | auto]).
  split; [| exact I].
  destruct (upload_both fileHashes fs audioFile lyricsFile nowAudio nowLyrics)
    as (dA & dL & resA & reg1 & fs1 & HA & HL & EA & Hp).
  destruct resA as [[url ai] | e].
  2:{ rewrite Hp. right. split; [right; reflexivity | eexists; reflexivity]. }
  destruct Hp as (resL & reg2 & fs2 & EL & ->). cbn [fst].
  destruct (audio_step_spec _ _ _ _ _ _ _ _ HA EA) as (Hext & _ & Hfs1 & _).
  assert (Hfs : fs1 = fs \/ fs1 = remove_file fs (path audioFile)) by tauto.
  destruct (lyrics_step_spec _ _ _ _ _ _ _ _ _ _ _ HL Hext Hfs EL)
    as (_ & _ & _ & _ & _ & _ & Hearly).
  destruct resL as [[early | [lyr li]] | e].
  - right. destruct (Hearly early eq_refl) as [e [-> | ->]].
    + split; [left; reflexivity | eexists; reflexivity].
    + split; [right; reflexivity | eexists; reflexivity].
  - left. split; [reflexivity |]. split; [eauto |]. eauto 6.
  - right. split; [right; reflexivity | eexists; reflexivity].
Qed.

End UploadFacts.

Section UploadWitnesses.
Import JS Server Upload Examples UploadExamples.

Lemma toy_digest_injective b buf : toy_digest b = toy_digest buf -> b = buf.
Proof. cbv [toy_digest append]. now intros [= ->]. Qed.

Lemma upload_registry_stored : stored toy_digest "uploads" upload_registry upload_fs.
Proof.
  unfold upload_registry. intros k r [<- <-]%lookup_singleton_Some.
  exists "[00:01.00] la". split; reflexivity.
Qed.

Lemma upload_registry_unregistered p :
  p <> "uploads/1-song.lrc" -> unregistered "uploads" upload_registry p.
Proof.
  unfold upload_registry. intros Hp k r [<- <-]%lookup_singleton_Some.
  intros E. apply Hp. rewrite <- E. reflexivity.
Qed.

Lemma new_audio_unregistered : unregistered "uploads" upload_registry (path new_audio).
Proof. apply upload_registry_unregistered. discriminate. Qed.

Lemma copy_lyrics_unregistered : unregistered "uploads" upload_registry (path copy_lyrics).
Proof. apply upload_registry_unregistered. discriminate. Qed.

Lemma example_upload_content : content (fst (fst example_upload)) = example_response.
Proof. vm_compute. reflexivity. Qed.

Lemma upload_lyrics_of_uploaded_text_witness :
  readFileSync upload_fs (path copy_lyrics) = Return "[00:01.00] la"
  /\ stored toy_digest "uploads" upload_registry upload_fs
  /\ (forall b, toy_digest b = toy_digest "[00:01.00] la" -> b = "[00:01.00] la")
  /\ content (fst (fst example_upload)) = example_response
  /\ parseLyrics "[00:01.00] la" = parseLyrics ((fun buf => buf) "[00:01.00] la").
Proof.
  split; [reflexivity |]. split; [exact upload_registry_stored |].
  split; [intros b; apply toy_digest_injective |].
  split; [exact example_upload_content |].
  exact (upload_lyrics_of_uploaded_text toy_digest (fun buf => buf) "uploads"
           upload_registry upload_fs new_audio copy_lyrics
           "2024-05-01T10:00:00.000Z" "2024-05-01T10:00:00.001Z" "[00:01.00] la"
           _ _ _ _ _
           eq_refl upload_registry_stored
           (fun b => toy_digest_injective b "[00:01.00] la")
           example_upload_content).
Defined.

Lemma upload_registers_digests_witness :
  content (fst (fst example_upload)) = example_response
  /\ readFileSync upload_fs (path new_audio) = Return "ID3 audio"
  /\ toy_digest "ID3 audio" <> EmptyString
  /\ is_Some (snd (fst example_upload) !! toy_digest "ID3 audio").
Proof.
  split; [exact example_upload_content |]. split; [reflexivity |]. split; [discriminate |].
  exact (upload_registers_digests toy_digest (fun buf => buf) "uploads"
           upload_registry upload_fs new_audio copy_lyrics
           "2024-05-01T10:00:00.000Z" "2024-05-01T10:00:00.001Z"
           _ _ _ _ _ example_upload_content
           new_audio "ID3 audio" (or_introl eq_refl) eq_refl ltac:(discriminate)).
Defined.

Lemma upload_removes_duplicates_witness :
  content (fst (fst example_upload)) = example_response
  /\ readFileSync (snd example_upload) (path new_audio)
     = readFileSync upload_fs (path new_audio)
  /\ existsSync (snd example_upload) (path copy_lyrics) = false.
Proof.
  split; [exact example_upload_content |].
  pose proof (upload_removes_duplicates toy_digest (fun buf => buf) "uploads"
                upload_registry upload_fs new_audio copy_lyrics
                "2024-05-01T10:00:00.000Z" "2024-05-01T10:00:00.001Z"
                _ _ _ _ _ example_upload_content) as [Ha Hl].
  split; [exact (proj2 (proj2 Ha)) | exact (proj2 Hl)].
Defined.

Lemma upload_keeps_stored_witness :
  stored toy_digest "uploads" upload_registry upload_fs
  /\ unregistered "uploads" upload_registry (path new_audio)
  /\ unregistered "uploads" upload_registry (path copy_lyrics)
  /\ join "uploads" (basename (path new_audio)) = path new_audio
  /\ join "uploads" (basename (path copy_lyrics)) = path copy_lyrics
  /\ stored toy_digest "uploads" (snd (fst example_upload)) (snd example_upload).
Proof.
  split; [exact upload_registry_stored |].
  split; [exact new_audio_unregistered |].
  split; [exact copy_lyrics_unregistered |].
  split; [reflexivity |]. split; [reflexivity |].
  exact (upload_keeps_stored toy_digest (fun buf => buf) "uploads"
           upload_registry upload_fs new_audio copy_lyrics
           "2024-05-01T10:00:00.000Z" "2024-05-01T10:00:00.001Z"
           upload_registry_stored
           new_audio_unregistered copy_lyrics_unregistered
           eq_refl eq_refl).
Defined.

Lemma upload_audio_url_served_witness :
  readFileSync upload_fs (path new_audio) = Return "ID3 audio"
  /\ stored toy_digest "uploads" upload_registry upload_fs
  /\ unregistered "uploads" upload_registry (path new_audio)
  /\ unregistered "uploads" upload_registry (path copy_lyrics)
  /\ join "uploads" (filename new_audio) = path new_audio
  /\ content (fst (fst example_upload)) = example_response
  /\ exists name served,
       "/uploads/5-new.mp3" = "/uploads/" ++ name
       /\ readFileSync (snd example_upload) (join "uploads" name) = Return served
       /\ toy_digest served = toy_digest "ID3 audio".
Proof.
  split; [reflexivity |]. split; [exact upload_registry_stored |].
  split; [exact new_audio_unregistered |].
  split; [exact copy_lyrics_unregistered |].
  split; [reflexivity |]. split; [exact example_upload_content |].
  exact (upload_audio_url_served toy_digest (fun buf => buf) "uploads"
           upload_registry upload_fs new_audio copy_lyrics
           "2024-05-01T10:00:00.000Z" "2024-05-01T10:00:00.001Z" "ID3 audio"
           _ _ _ _ _
           eq_refl upload_registry_stored
           new_audio_unregistered copy_lyrics_unregistered
           eq_refl example_upload_content).
Defined.

(** The same content sent as audio and as lyrics: both files are new to
    the lookups, both are registered, and the record of the lyrics file
    takes the place of the record of the audio file. *)
Example same_content_twice :
  let after :=
    post_upload toy_digest (fun buf => buf) "uploads" ∅ upload_fs
      (Some {| audio := Some {| path := "uploads/1-song.lrc"; filename := "1-song.lrc";
                                originalname := "song.lrc" |};
               lyrics := Some copy_lyrics |})
      "2024-05-01T10:00:00.000Z" "2024-05-01T10:00:00.001Z" in
  status (fst (fst after)) = 200
  /\ Server.filename <$> (snd (fst after) !! toy_digest "[00:01.00] la") = Some "6-copy.lrc"
  /\ existsSync (snd after) "uploads/1-song.lrc" = true
  /\ existsSync (snd after) "uploads/6-copy.lrc" = true.
Proof. vm_compute. repeat split; reflexivity. Qed.

End UploadWitnesses.

Section StartupStoredFacts.
Import JS Server.
Variable sha256_hex : string -> string.
Variable fs : FileSystem.
Variable uploadsDir : string.

(** X5: the startup load keeps the registry true to the disk: when
    every record names a file of the uploads directory that can be read
    and has the digest the record is stored under, it is so after
    [initializeFileHashes]. *)
Theorem startup_load_stored (fileHashes : gmap string FileInfo) :
  Upload.stored sha256_hex uploadsDir fileHashes fs ->
  Upload.stored sha256_hex uploadsDir
    (initializeFileHashes sha256_hex fs uploadsDir fileHashes) fs.
Proof.
  intros Hst. unfold initializeFileHashes.
  destruct (existsSync fs uploadsDir); cbn [negb]; [| exact Hst].
  destruct (readdirSync fs uploadsDir) as [files | e]; [| exact Hst].
  intros k r Hr.
  apply load_loop_origin in Hr as [Hr | (_ & st & buf & _ & _ & _ & Hb & Hk)].
  - exact (Hst k r Hr).
  - exists buf. auto.
Qed.

End StartupStoredFacts.

Section StartupStoredWitness.
Import JS Server Examples.

Lemma startup_load_stored_witness :
  Upload.stored toy_digest "uploads" ∅ example_fs
  /\ Upload.stored toy_digest "uploads"
       (initializeFileHashes toy_digest example_fs "uploads" ∅) example_fs.
Proof.
  assert (H : Upload.stored toy_digest "uploads" ∅ example_fs).
  { intros k r Hr. rewrite lookup_empty in Hr. discriminate. }
  split; [exact H |].
  exact (startup_load_stored toy_digest example_fs "uploads" ∅ H).
Defined.

End StartupStoredWitness.


(** ** The file filter and the checks of the upload page *)

Section FilterFacts.
Import JS Server Text Storage Filter.

Lemma endsWith_app pre suffix : endsWith (pre ++ suffix) suffix = true.
Proof.
  induction pre as [| c pre IH]; rewrite ?append_cons, ?append_empty.
  - destruct suffix; cbn [endsWith]; now rewrite String.eqb_refl.
  - cbn [endsWith]. rewrite IH. now destruct (String.eqb _ _).
Qed.

Lemma endsWith_inv s suffix : endsWith s suffix = true -> exists pre, s = pre ++ suffix.
Proof.
  induction s as [| c s IH]; cbn [endsWith].
  - destruct (String.eqb_spec EmptyString suffix) as [<- |]; [| discriminate].
    intros _. now exists EmptyString.
  - destruct (String.eqb_spec (String c s) suffix) as [<- |].
    + intros _. now exists EmptyString.
    + intros H. destruct (IH H) as [pre ->]. exists (String c pre). now rewrite append_cons.
Qed.

Lemma clean_name_app a b : clean_name (a ++ b) = clean_name a ++ clean_name b.
Proof. apply replace_each_app. Qed.

Lemma clean_name_fixed s : string_forall is_name_char s = true -> clean_name s = s.
Proof.
  intros H. apply replace_each_fixed.
  eapply string_forall_impl; [| exact H]. intros c Hc. now rewrite Hc.
Qed.

(** X28: a file sent in the field lyrics whose name ends in .lrc
    or .txt is accepted by the file filter whatever its type, and the
    name it is stored under has the same ending. *)
Theorem lyrics_name_accepted_and_kept (file : IncomingFile) (now ending : string) :
  fieldname file = "lyrics" ->
  ending = ".lrc" \/ ending = ".txt" ->
  endsWith (originalname file) ending = true ->
  fileFilter file = Accept
  /\ endsWith (storage_filename now (originalname file)) ending = true.
Proof.
  intros Hfield Hending Hends. split.
  - unfold fileFilter. rewrite Hfield. cbn [String.eqb Ascii.eqb Bool.eqb].
    destruct Hending as [-> | ->]; rewrite Hends; now rewrite ?orb_true_r.
  - apply endsWith_inv in Hends as [pre ->].
    unfold storage_filename. rewrite clean_name_app.
    rewrite (clean_name_fixed ending) by (destruct Hending as [-> | ->]; reflexivity).
    rewrite <- !append_assoc. apply endsWith_app.
Qed.

Lemma lyrics_name_accepted_and_kept_witness :
  fieldname {| fieldname := "lyrics"; originalname := "My Song.lrc";
               mimetype := "audio/mpeg" |} = "lyrics"
  /\ (".lrc" = ".lrc" \/ ".lrc" = ".txt")
  /\ endsWith "My Song.lrc" ".lrc" = true
  /\ fileFilter {| fieldname := "lyrics"; originalname := "My Song.lrc";
                   mimetype := "audio/mpeg" |} = Accept
  /\ endsWith (storage_filename "1714557600000" "My Song.lrc") ".lrc" = true.
Proof.
  split; [reflexivity |]. split; [left; reflexivity |]. split; [reflexivity |].
  exact (lyrics_name_accepted_and_kept
           {| fieldname := "lyrics"; originalname := "My Song.lrc"; mimetype := "audio/mpeg" |}
           "1714557600000" ".lrc" eq_refl (or_introl eq_refl) eq_refl).
Defined.

End FilterFacts.

Section ValidateFacts.
Import JS Text Filter Validate.

Lemma existsb_eqb_elem (x : string) l : existsb (String.eqb x) l = true <-> x ∈ l.
Proof.
  rewrite existsb_exists. split.
  - intros (y & Hy%list_elem_of_In & ->%String.eqb_eq). exact Hy.
  - intros H. exists x. split; [now apply list_elem_of_In | apply String.eqb_refl].
Qed.

Lemma fold_case_all_app a b : fold_case_all (a ++ b) = fold_case_all a ++ fold_case_all b.
Proof.
  induction a as [| c a IH]; rewrite ?append_cons, ?append_empty; cbn [fold_case_all].
  - now rewrite ?append_empty.
  - now rewrite ?append_cons, IH.
Qed.

Lemma endsWith_fold_case s suffix :
  fold_case_all suffix = suffix ->
  endsWith s suffix = true -> endsWith (fold_case_all s) suffix = true.
Proof.
  intros Hsuf [pre ->]%endsWith_inv. rewrite fold_case_all_app, Hsuf. apply endsWith_app.
Qed.

(** X29: what the upload page lets through for these reasons, the
    server accepts: for a file of at most 50 MB, an audio file whose
    type is on the list of the page passes the check of the page and
    the file filter of the server, and a lyrics file whose name ends in
    .lrc or .txt passes both, whatever its type. *)
Theorem validated_files_pass_the_filter (file : BrowserFile) (incoming : IncomingFile) :
  size file <= maxSize ->
  originalname incoming = name file ->
  (type file ∈ audioTypes ->
   fieldname incoming = "audio" -> mimetype incoming = type file ->
   validateFile (Some file) "audio" = None /\ fileFilter incoming = Accept)
  /\ (endsWith (name file) ".lrc" = true \/ endsWith (name file) ".txt" = true ->
      fieldname incoming = "lyrics" ->
      validateFile (Some file) "lyrics" = None /\ fileFilter incoming = Accept).
Proof.
  intros Hsize%Z.ltb_ge Hname. split.
  - intros Hin Hfield Htype. split.
    + unfold validateFile. rewrite Hsize. cbn [String.eqb Ascii.eqb Bool.eqb].
      now rewrite (proj2 (existsb_eqb_elem _ _) Hin).
    + unfold fileFilter. rewrite Hfield, Htype. cbn [String.eqb Ascii.eqb Bool.eqb].
      replace (existsb (String.eqb (type file)) allowedAudioTypes) with true; [reflexivity |].
      symmetry. apply existsb_eqb_elem.
      unfold audioTypes in Hin. unfold allowedAudioTypes.
      repeat (apply elem_of_cons in Hin as [-> | Hin]; [set_solver |]). inversion Hin.
  - intros Hends Hfield. split.
    + unfold validateFile. rewrite Hsize. cbn [String.eqb Ascii.eqb Bool.eqb].
      unfold matches_extension. cbn [existsb].
      destruct Hends as [H | H]; apply (endsWith_fold_case _ _ eq_refl) in H; rewrite H;
        now rewrite ?orb_true_r, ?andb_false_r.
    + unfold fileFilter. rewrite Hfield, Hname. cbn [String.eqb Ascii.eqb Bool.eqb].
      destruct Hends as [H | H]; rewrite H; now rewrite ?orb_true_r.
Qed.

Lemma validated_files_pass_the_filter_witness :
  size {| size := 4000000; type := "audio/mpeg"; name := "My Song.MP3" |} <= maxSize
  /\ validateFile (Some {| size := 4000000; type := "audio/mpeg"; name := "My Song.MP3" |})
       "audio" = None
  /\ fileFilter {| fieldname := "audio"; originalname := "My Song.MP3";
                   mimetype := "audio/mpeg" |} = Accept.
Proof.
  assert (H : size {| size := 4000000; type := "audio/mpeg"; name := "My Song.MP3" |}
              <= maxSize) by (vm_compute; discriminate).
  split; [exact H |].
  apply (proj1 (validated_files_pass_the_filter
                  {| size := 4000000; type := "audio/mpeg"; name := "My Song.MP3" |}
                  {| fieldname := "audio"; originalname := "My Song.MP3";
                     mimetype := "audio/mpeg" |} H eq_refl));
    [now left | reflexivity | reflexivity].
Defined.

(** The checks of the page and of the server on some files: an
    upper-case ending counts for the page only, and the type
    [audio/webm] for the server only. *)
Example checks_examples :
  validateFile (Some {| size := 100; type := "application/x-lrc"; name := "SONG.LRC" |})
    "lyrics" = None
  /\ fileFilter {| fieldname := "lyrics"; originalname := "SONG.LRC";
                   mimetype := "application/x-lrc" |}
     = Reject "Unsupported lyrics format: application/x-lrc. Please use TXT or LRC files."
  /\ validateFile (Some {| size := 100; type := "audio/webm"; name := "take.webm" |}) "audio"
     = Some "Please select a valid audio file (MP3, WAV, OGG, M4A, AAC)"
  /\ fileFilter {| fieldname := "audio"; originalname := "take.webm";
                   mimetype := "audio/webm" |} = Accept
  /\ validateFile (Some {| size := 52428801; type := "audio/mpeg"; name := "long.mp3" |})
       "audio" = Some "File too large. Maximum size is 50MB.".
Proof. repeat split; vm_compute; reflexivity. Qed.

End ValidateFacts.

(** ** The fallback format *)

Section FallbackFacts.
Import JS Num Server Fallback.

(** *** The pieces of a line *)

Lemma length_append a b :
  String.length (a ++ b) = (String.length a + String.length b)%nat.
Proof.
  induction a as [| c a IH]; rewrite ?append_cons, ?append_empty; cbn [String.length]; [reflexivity |].
  now rewrite IH.
Qed.

Lemma span_snd_starts p s : starts_with p (snd (span p s)) = false.
Proof.
  induction s as [| c s IH]; cbn [span]; [reflexivity |].
  destruct (p c) eqn:Hc; [| cbn; exact Hc].
  destruct (span p s) as [a b]. exact IH.
Qed.

Lemma span_app_nostart p a tail :
  string_forall p a = true -> starts_with p tail = false ->
  span p (a ++ tail) = (a, tail).
Proof.
  intros Ha Ht. destruct tail as [| b v].
  - rewrite append_empty_r. now apply span_all.
  - now apply span_stop.
Qed.

Lemma span_fst_nonempty p s : starts_with p s = true -> fst (span p s) <> EmptyString.
Proof.
  destruct s as [| c s]; cbn; [discriminate |]. intros ->.
  destruct (span p s). discriminate.
Qed.

Lemma token_starts t : token t -> starts_with (fun c => negb (is_space c)) t = true.
Proof.
  intros [Hne Hall]. destruct t as [| c t]; [congruence |]. cbn in *.
  now apply andb_true_iff in Hall as [Hc _].
Qed.

Lemma starts_nonspace_iff s :
  starts_nonspace s <-> starts_with (fun c => negb (is_space c)) s = true.
Proof.
  destruct s as [| c s]; cbn; [split; [easy | discriminate] |].
  now rewrite negb_true_iff.
Qed.

Lemma starts_with_app p a b : a <> EmptyString -> starts_with p (a ++ b) = starts_with p a.
Proof. destruct a as [| c a]; [congruence |]. now rewrite append_cons. Qed.

Lemma spaced_starts ts s : spaced ts s -> starts_nonspace s.
Proof.
  intros H. apply starts_nonspace_iff.
  destruct H as [t w Ht _ | t w ts s Ht _ _ _];
    (rewrite starts_with_app by apply Ht); now apply token_starts.
Qed.

Lemma trimEnd_app_spaces s w : all_space w -> trimEnd (s ++ w) = trimEnd s.
Proof.
  unfold all_space. revert s. induction w as [| c w IH]; intros s Hw.
  - now rewrite append_empty_r.
  - cbn [string_forall] in Hw. apply andb_true_iff in Hw as [Hc Hw].
    replace (s ++ String c w) with ((s ++ String c EmptyString) ++ w)
      by (now rewrite append_assoc, append_cons, append_empty).
    rewrite IH by exact Hw. now apply trimEnd_app_space.
Qed.

Lemma trimEnd_app_keep a b :
  trimEnd b <> EmptyString -> trimEnd (a ++ b) = a ++ trimEnd b.
Proof.
  intros Hb. induction a as [| c a IH]; rewrite ?append_cons, ?append_empty; [reflexivity |].
  cbn [trimEnd]. rewrite IH.
  destruct (a ++ trimEnd b) as [| d t] eqn:E; [| reflexivity].
  destruct a; rewrite ?append_cons, ?append_empty in E; [congruence | discriminate].
Qed.

Lemma trimStart_app_spaces w s : all_space w -> trimStart (w ++ s) = trimStart s.
Proof.
  unfold all_space. induction w as [| c w IH]; rewrite ?append_cons, ?append_empty; [reflexivity |].
  cbn [string_forall trimStart]. intros [Hc Hw]%andb_true_iff. rewrite Hc. auto.
Qed.

Lemma split_ws_from_token t : forall rest cur insep,
  token t ->
  split_ws_from (t ++ rest) cur insep = split_ws_from rest (cur ++ t) false.
Proof.
  induction t as [| c t IH]; intros rest cur insep [Hne Hall]; [congruence |].
  cbn [string_forall] in Hall. apply andb_true_iff in Hall as [Hc Hall].
  apply negb_true_iff in Hc.
  rewrite append_cons. cbn [split_ws_from]. rewrite Hc.
  assert (E : (cur ++ String c EmptyString) ++ t = cur ++ String c t)
    by (now rewrite append_assoc, append_cons, append_empty).
  destruct t as [| d t].
  - now rewrite append_empty, append_empty_r in *.
  - rewrite IH by (split; [discriminate | exact Hall]). now rewrite E.
Qed.

Lemma split_ws_from_spaces w : forall rest cur,
  all_space w -> w <> EmptyString ->
  split_ws_from (w ++ rest) cur false = cur :: split_ws_from rest EmptyString true.
Proof.
  unfold all_space. intros rest cur Hw Hne.
  destruct w as [| c w]; [congruence |].
  cbn [string_forall] in Hw. apply andb_true_iff in Hw as [Hc Hw].
  rewrite append_cons. cbn [split_ws_from]. rewrite Hc. f_equal.
  clear Hc Hne c. induction w as [| c w IH]; rewrite ?append_cons, ?append_empty; [reflexivity |].
  cbn [string_forall] in Hw. apply andb_true_iff in Hw as [Hc Hw].
  cbn [split_ws_from]. rewrite Hc. auto.
Qed.

(** The pieces of [s], once the white space at its end is taken off,
    are the tokens. *)
Lemma spaced_split ts s :
  spaced ts s ->
  trimEnd s <> EmptyString
  /\ exists t ts', ts = t :: ts' /\ token t
       /\ forall cur insep, split_ws_from (trimEnd s) cur insep = (cur ++ t) :: ts'.
Proof.
  induction 1 as [t w Ht Hw | t w ts s Ht Hw Hne Hs [IHne (t2 & ts' & -> & Ht2 & IH)]].
  - rewrite (trimEnd_app_spaces t w Hw), (trimEnd_nonspace_fixed t (proj2 Ht)).
    split; [apply Ht |]. exists t, []. split; [reflexivity |]. split; [exact Ht |].
    intros cur insep. rewrite <- (append_empty_r t) at 1.
    now rewrite split_ws_from_token.
  - assert (E : trimEnd (t ++ w ++ s) = t ++ w ++ trimEnd s).
    { rewrite <- append_assoc, trimEnd_app_keep by exact IHne. now rewrite append_assoc. }
    rewrite E. split.
    + destruct Ht as [Hne' _]. destruct t; [congruence | discriminate].
    + exists t, (t2 :: ts'). split; [reflexivity |]. split; [exact Ht |].
      intros cur insep.
      rewrite split_ws_from_token by exact Ht.
      rewrite split_ws_from_spaces by assumption.
      now rewrite IH, append_empty.
Qed.

(** Every text that starts with a character that is not white space is
    made of tokens. *)
Lemma spaced_exists n : forall s,
  (String.length s <= n)%nat -> starts_nonspace s -> exists ts, spaced ts s.
Proof.
  induction n as [| n IH]; intros s Hn Hs.
  { destruct s; [destruct Hs | cbn in Hn; lia]. }
  apply starts_nonspace_iff in Hs.
  pose proof (span_app (fun c => negb (is_space c)) s) as Es.
  pose proof (span_fst_forall (fun c => negb (is_space c)) s) as Ht.
  pose proof (span_fst_nonempty _ _ Hs) as Hne.
  pose proof (span_snd_starts (fun c => negb (is_space c)) s) as Hr.
  destruct (span (fun c => negb (is_space c)) s) as [t r]. cbn [fst snd] in *.
  assert (Htok : token t) by (split; assumption).
  pose proof (span_app is_space r) as Er.
  pose proof (span_fst_forall is_space r) as Hw.
  pose proof (span_snd_starts is_space r) as Hr'.
  destruct (span is_space r) as [w r']. cbn [fst snd] in *.
  destruct r' as [| c r'].
  - exists [t]. rewrite <- Es, <- Er, append_empty_r. now constructor.
  - assert (Hw' : w <> EmptyString).
    { intros ->. rewrite append_empty in Er. subst r. cbn in Hr, Hr'.
      rewrite Hr' in Hr. discriminate. }
    destruct (IH (String c r')) as [ts Hts].
    + rewrite <- Es, <- Er, !length_append in Hn.
      destruct t; [congruence |]. cbn [String.length] in Hn |- *. lia.
    + cbn in Hr' |- *. exact Hr'.
    + exists (t :: ts). rewrite <- Es, <- Er. now constructor.
Qed.

(** The pieces of a line are what the code splits the trimmed line into. *)
Lemma pieces_split_ws raw ts :
  pieces raw ts <-> trim raw <> EmptyString /\ split_ws (trim raw) = ts.
Proof.
  split.
  - intros (w & s & Hw & -> & Hs).
    assert (E : trim (w ++ s) = trimEnd s).
    { unfold trim. rewrite (trimStart_app_spaces w s Hw).
      now rewrite (trimStart_starts_nonspace s (spaced_starts _ _ Hs)). }
    rewrite E. destruct (spaced_split ts s Hs) as (Hne & t & ts' & -> & _ & H).
    split; [exact Hne |]. unfold split_ws. now rewrite H, append_empty.
  - intros [Hne <-].
    assert (Hs : starts_nonspace (trimStart raw)).
    { destruct (trimStart raw) as [| c r] eqn:E; [now cbn in Hne; unfold trim in Hne; rewrite E in Hne |].
      cbn. exact (trimStart_head _ _ _ E). }
    destruct (spaced_exists _ (trimStart raw) (le_n _) Hs) as [ts Hts].
    assert (Hp : pieces raw ts).
    { exists (fst (span is_space raw)), (trimStart raw).
      split; [apply span_fst_forall |]. split; [| exact Hts].
      rewrite <- span_space_trimStart. symmetry. apply span_app. }
    destruct (spaced_split ts _ Hts) as (_ & t & ts' & -> & _ & H).
    unfold split_ws, trim. now rewrite H, append_empty.
Qed.

Lemma spaced_tokens ts s : spaced ts s -> Forall token ts.
Proof. induction 1; constructor; auto. Qed.

Lemma join_space_concat parts : join_space parts = String.concat " " parts.
Proof.
  induction parts as [| p ps IH]; [reflexivity |].
  destruct ps as [| q ps]; [reflexivity |].
  cbn [join_space String.concat] in *. now rewrite IH.
Qed.

(** *** The number at the start of a token *)

Lemma signed_strip_sign text neg body :
  signed text neg body <-> strip_sign text = (neg, body).
Proof.
  unfold signed, strip_sign. split.
  - intros [[-> ->] | [[-> ->] | (-> & -> & H)]]; [reflexivity | reflexivity |].
    destruct body as [| c r]; [reflexivity |]. cbn in H.
    apply orb_false_iff in H as [H1 H2]. now rewrite H1, H2.
  - destruct text as [| c r]; [intros [= <- <-]; right; right; auto |].
    destruct (Ascii.eqb_spec c "-") as [-> | Hm]; [intros [= <- <-]; auto |].
    destruct (Ascii.eqb_spec c "+") as [-> | Hp]; [intros [= <- <-]; auto |].
    intros [= <- <-]. right. right. repeat split. cbn.
    apply orb_false_iff. split; now apply Ascii.eqb_neq.
Qed.

Lemma exponent_at_part tail ex : exponent_at tail ex -> exponent_part tail = ex.
Proof.
  intros (c & after & neg & eds & rest & -> & Hc & Hs & Hne & Hd & Hr & ->).
  cbn [exponent_part].
  replace (Ascii.eqb c "e" || Ascii.eqb c "E") with true
    by (destruct Hc as [-> | ->]; reflexivity).
  apply signed_strip_sign in Hs. rewrite Hs.
  rewrite (span_app_nostart is_digit eds rest Hd Hr).
  apply is_empty_false in Hne. now rewrite Hne.
Qed.

Lemma exponent_part_spec tail : exponent_of tail (exponent_part tail).
Proof.
  destruct tail as [| c after].
  { right. split; [reflexivity |]. intros ex' (c & after & _ & _ & _ & H & _). discriminate. }
  cbn [exponent_part].
  destruct (Ascii.eqb c "e" || Ascii.eqb c "E") eqn:Hc.
  2:{ right. split; [reflexivity |].
      intros ex' (c' & after' & _ & _ & _ & [= <- <-] & [-> | ->] & _); discriminate. }
  destruct (strip_sign after) as [neg body] eqn:Hs.
  pose proof (span_app is_digit body) as Eb.
  pose proof (span_fst_forall is_digit body) as Hd.
  pose proof (span_snd_starts is_digit body) as Hr.
  destruct (span is_digit body) as [eds rest] eqn:Esp. cbn [fst snd] in *.
  destruct (is_empty eds) eqn:He.
  - right. split; [reflexivity |].
    intros ex' (c' & after' & neg' & eds' & rest' & [= <- <-] & _ & Hs' & Hne' & Hd' & Hr' & _).
    apply signed_strip_sign in Hs'. rewrite Hs in Hs'. injection Hs' as <- ->.
    rewrite (span_app_nostart is_digit eds' rest' Hd' Hr') in Esp. injection Esp as <- <-.
    apply is_empty_true in He. congruence.
  - left. exists c, after, neg, eds, rest. split; [reflexivity |]. split.
    { apply orb_true_iff in Hc as [Hc | Hc]; apply Ascii.eqb_eq in Hc; auto. }
    split; [apply signed_strip_sign; now rewrite Eb |].
    split; [now apply is_empty_false |]. auto.
Qed.

Lemma exponent_of_part tail ex : exponent_of tail ex -> exponent_part tail = ex.
Proof.
  intros [H | [-> Hno]]; [now apply exponent_at_part |].
  destruct (exponent_part_spec tail) as [H | [H _]]; [| exact H].
  exfalso. exact (Hno _ H).
Qed.

Lemma prefix_app_iff p s : String.prefix p s = true <-> exists rest, s = p ++ rest.
Proof.
  revert s. induction p as [| c p IH]; intros s.
  - split; [intros _; exists s; now rewrite append_empty | intros _; now destruct s].
  - destruct s as [| d s]; cbn [String.prefix].
    + split; [discriminate | intros [rest H]; rewrite append_cons in H; discriminate].
    + destruct (ascii_dec c d) as [-> | Hne].
      * rewrite IH. split; intros [rest H]; exists rest;
          [now rewrite append_cons, H | rewrite append_cons in H; now injection H].
      * split; [discriminate |]. intros [rest H]. rewrite append_cons in H. congruence.
Qed.

Lemma numeral_not_Infinity body m e : numeral body m e -> starts_with_Infinity body = false.
Proof.
  intros (ip & fp & tail & ex & Hip & Hfp & Hne & _ & Hbody & _).
  assert (H : starts_with (fun c => is_digit c || Ascii.eqb c ".") body = true).
  { destruct ip as [| c ip].
    - destruct Hbody as [(_ & -> & _) | ->]; [destruct Hne; congruence |].
      rewrite append_empty. reflexivity.
    - cbn in Hip. apply andb_true_iff in Hip as [Hc _].
      destruct Hbody as [(-> & _) | ->]; rewrite append_cons; cbn; now rewrite Hc. }
  unfold starts_with_Infinity.
  destruct (String.prefix "Infinity" body) eqn:E; [| reflexivity].
  apply prefix_app_iff in E as [rest ->]. discriminate H.
Qed.

(** [parseFloat] reads the number at the start of a token, and gives
    [NaN] when there is none. *)
Lemma parseFloat_reads t :
  token t ->
  (forall v, reads_number t v -> parseFloat t = v)
  /\ (isNaN (parseFloat t) = false -> reads_number t (parseFloat t)).
Proof.
  intros Ht.
  assert (Etrim : trimStart t = t).
  { apply trimStart_starts_nonspace, starts_nonspace_iff, token_starts, Ht. }
  split.
  - intros v (neg & body & Hs & Hv). unfold parseFloat. rewrite Etrim.
    apply signed_strip_sign in Hs. rewrite Hs.
    destruct Hv as [[Hinf ->] | (m & e & Hnum & ->)].
    + unfold starts_with_Infinity. rewrite (proj2 (prefix_app_iff _ _) Hinf). reflexivity.
    + rewrite (numeral_not_Infinity _ _ _ Hnum).
      destruct Hnum as (ip & fp & tail & ex & Hip & Hfp & Hne & Htail & Hbody & Hex & -> & ->).
      apply exponent_of_part in Hex.
      assert (Hempty : is_empty ip && is_empty fp = false).
      { destruct Hne as [H | H]; apply is_empty_false in H; rewrite H;
          [reflexivity | apply andb_false_r]. }
      destruct Hbody as [(-> & -> & Hdot) | ->].
      * rewrite (span_app_nostart is_digit ip tail Hip Htail).
        replace (expect "." tail) with (@None string).
        2:{ destruct tail as [| c r]; [reflexivity |].
            change (Ascii.eqb c "." = false) in Hdot.
            change (expect "." (String c r)) with (if Ascii.eqb "." c then Some r else None).
            now rewrite Ascii.eqb_sym, Hdot. }
        rewrite Hempty, Hex. reflexivity.
      * rewrite (span_stop is_digit ip "." (fp ++ tail) Hip eq_refl).
        cbn [expect]. change (Ascii.eqb "." ".") with true. cbn iota.
        rewrite (span_app_nostart is_digit fp tail Hfp Htail).
        rewrite Hempty, Hex. reflexivity.
  - unfold parseFloat. rewrite Etrim.
    destruct (strip_sign t) as [neg body] eqn:Hs.
    apply signed_strip_sign in Hs.
    destruct (starts_with_Infinity body) eqn:Hinf.
    { intros _. exists neg, body. split; [exact Hs |]. left.
      split; [now apply prefix_app_iff | reflexivity]. }
    pose proof (span_app is_digit body) as Eb.
    pose proof (span_fst_forall is_digit body) as Hip.
    pose proof (span_snd_starts is_digit body) as Hr1.
    destruct (span is_digit body) as [ip r1]. cbn [fst snd] in *.
    destruct (expect "." r1) as [r |] eqn:Hdot.
    + pose proof (span_app is_digit r) as Er.
      pose proof (span_fst_forall is_digit r) as Hfp.
      pose proof (span_snd_starts is_digit r) as Hr2.
      destruct (span is_digit r) as [fp r2]. cbn [fst snd] in *.
      destruct (is_empty ip && is_empty fp) eqn:Hempty; [discriminate |].
      intros _. exists neg, body. split; [exact Hs |]. right.
      eexists _, _. split; [| reflexivity].
      exists ip, fp, r2, (exponent_part r2).
      split; [exact Hip |]. split; [exact Hfp |]. split.
      { apply andb_false_iff in Hempty as [H | H]; apply is_empty_false in H; auto. }
      split; [exact Hr2 |]. split.
      { right. rewrite <- Eb, Er. f_equal.
        destruct r1 as [| c r1']; [discriminate |].
        change (expect "." (String c r1')) with (if Ascii.eqb "." c then Some r1' else None) in Hdot.
        destruct (Ascii.eqb_spec "." c) as [<- |]; [| discriminate]. now injection Hdot as ->. }
      split; [apply exponent_part_spec |]. split; reflexivity.
    + destruct (is_empty ip && is_empty EmptyString) eqn:Hempty; [discriminate |].
      intros _. exists neg, body. split; [exact Hs |]. right.
      eexists _, _. split; [| reflexivity].
      exists ip, EmptyString, r1, (exponent_part r1).
      split; [exact Hip |]. split; [reflexivity |]. split.
      { left. rewrite andb_true_r in Hempty. now apply is_empty_false. }
      split; [exact Hr1 |]. split.
      { left. split; [now rewrite Eb |]. split; [reflexivity |].
        destruct r1 as [| c r1']; [reflexivity |].
        change (expect "." (String c r1')) with (if Ascii.eqb "." c then Some r1' else None) in Hdot.
        change (Ascii.eqb c "." = false).
        rewrite Ascii.eqb_sym. now destruct (Ascii.eqb "." c). }
      split; [apply exponent_part_spec |]. split; reflexivity.
Qed.

Lemma leb_not_nan v : (0 <=? v)%float = true -> isNaN v = false.
Proof.
  intros H. destruct (isNaN v) eqn:E; [| reflexivity].
  rewrite (leb_nan_r 0 v E) in H. discriminate.
Qed.

End FallbackFacts.

Section FallbackTheorems.
Import JS Num Server Fallback.

(** C6 as stated fails: the leading token need not be a number.  The
    line [12:30 hello] has the tokens [12:30] and [hello], the token
    [12:30] is no number, and no line has a tag; yet the line gives a
    record, at 12 seconds.  So does [2nd time around], at 2 seconds. *)
Lemma leading_token_need_not_be_a_number :
  pieces "12:30 hello" ["12:30"; "hello"]
  /\ whole_number "12:30" = false
  /\ (forall raw, raw ∈ split_newline "12:30 hello" -> lrcRegex_match raw = None)
  /\ parseLyrics "12:30 hello"
     = [ {| timestamp := 12; text := "hello"; lineNumber := 1 |} ]
  /\ pieces "2nd time around" ["2nd"; "time"; "around"]
  /\ whole_number "2nd" = false
  /\ parseLyrics "2nd time around"
     = [ {| timestamp := 2; text := "time around"; lineNumber := 1 |} ].
Proof.
  split; [apply pieces_split_ws; split; [discriminate | reflexivity] |].
  split; [reflexivity |]. split.
  { intros raw Hin. apply list_elem_of_In in Hin. cbn in Hin.
    destruct Hin as [<- | []]. vm_compute. reflexivity. }
  split; [vm_compute; reflexivity |].
  split; [apply pieces_split_ws; split; [discriminate | reflexivity] |].
  split; [reflexivity | vm_compute; reflexivity].
Qed.

(** C6, amended: when no line of the input matches the tag pattern, a
    record is in the result exactly when it comes from a line that is
    made of two tokens or more between runs of white space and whose
    first token starts with a number that is not below zero: a sign or
    none, then the word Infinity or a decimal numeral read as far as it
    goes (the digits, a dot and the digits after it, an exponent part),
    whatever follows it in the token.  The timestamp is that number,
    the text is the other tokens joined by single spaces, and the line
    number is that of the line.  Every other line gives no record. *)
Theorem fallback_format (content : string) :
  (forall raw, raw ∈ split_newline content -> lrcRegex_match raw = None) ->
  forall r, r ∈ parseLyrics content <->
    exists i raw first rest v,
      split_newline content !! i = Some raw
      /\ pieces raw (first :: rest) /\ rest <> []
      /\ reads_number first v
      /\ (0 <=? v)%float = true
      /\ r = {| timestamp := v; text := String.concat " " rest; lineNumber := S i |}.
Proof.
  intros H r.
  assert (H' : existsb has_tag (split_newline content) = false).
  { apply existsb_has_tag_false. intros raw Hin. apply lrcRegex_match_trim, H, Hin. }
  rewrite parseLyrics_collect, H', elem_of_sort, elem_of_collect. cbn [Nat.add].
  split.
  - intros (i & raw & Hi & (Hne & Hp)%plain_line_Some). cbv zeta in Hp.
    destruct Hp as (Hlen & Hnan & Hge & ->).
    assert (Hpieces : pieces raw (split_ws (trim raw))) by (apply pieces_split_ws; auto).
    pose proof (split_ws_tokens raw Hne) as Htok.
    destruct (split_ws (trim raw)) as [| first rest]; [cbn in Hlen; lia |].
    cbn [hd tl] in *. inversion Htok as [| ? ? Hfirst _]; subst.
    exists i, raw, first, rest, (parseFloat first).
    split; [exact Hi |]. split; [exact Hpieces |].
    split; [destruct rest; [cbn in Hlen; lia | discriminate] |].
    split; [exact (proj2 (parseFloat_reads first Hfirst) Hnan) |].
    split; [exact Hge |]. now rewrite join_space_concat.
  - intros (i & raw & first & rest & v & Hi & Hp & Hrest & Hv & Hge & ->).
    assert (Hfirst : token first).
    { destruct Hp as (w & s & _ & _ & Hs). apply spaced_tokens in Hs. now inversion Hs. }
    apply pieces_split_ws in Hp as [Hne Hsplit].
    apply (proj1 (parseFloat_reads first Hfirst)) in Hv.
    exists i, raw. split; [exact Hi |].
    apply plain_line_Some. split; [exact Hne |]. cbv zeta. rewrite Hsplit. cbn [hd tl].
    rewrite Hv. split; [destruct rest; [congruence | cbn; lia] |].
    split; [now apply leb_not_nan |]. split; [exact Hge |].
    now rewrite join_space_concat.
Qed.

Lemma plain_has_no_tag raw :
  raw ∈ split_newline Examples.plain -> lrcRegex_match raw = None.
Proof.
  intros Hin.
  assert (E : split_newline Examples.plain
              = ["0.5 hi there"; "notanumber skip this"; "2 bye"])
    by (vm_compute; reflexivity).
  rewrite E in Hin.
  repeat (apply elem_of_cons in Hin as [-> | Hin]; [vm_compute; reflexivity |]).
  inversion Hin.
Qed.

Lemma reads_half : reads_number "0.5" 0.5.
Proof.
  exists false, "0.5". split; [right; right; repeat split |].
  right. exists 5, (-1). split; [| vm_compute; reflexivity].
  exists "0", "5", EmptyString, 0.
  split; [reflexivity |]. split; [reflexivity |]. split; [left; discriminate |].
  split; [reflexivity |]. split; [right; reflexivity |].
  split; [| split; reflexivity].
  right. split; [reflexivity |]. intros ex' (c & after & _ & _ & _ & E & _). discriminate.
Qed.

Lemma fallback_format_witness :
  (forall raw, raw ∈ split_newline Examples.plain -> lrcRegex_match raw = None)
  /\ split_newline Examples.plain !! 0%nat = Some "0.5 hi there"
  /\ pieces "0.5 hi there" ["0.5"; "hi"; "there"]
  /\ reads_number "0.5" 0.5
  /\ {| timestamp := 0.5; text := "hi there"; lineNumber := 1 |}
     ∈ parseLyrics Examples.plain.
Proof.
  assert (Hp : pieces "0.5 hi there" ["0.5"; "hi"; "there"]).
  { exists EmptyString, "0.5 hi there". split; [reflexivity |]. split; [reflexivity |].
    apply (spaced_next "0.5" " " ["hi"; "there"] "hi there");
      [split; [discriminate | reflexivity] | reflexivity | discriminate |].
    apply (spaced_next "hi" " " ["there"] "there");
      [split; [discriminate | reflexivity] | reflexivity | discriminate |].
    apply (spaced_last "there" EmptyString); [split; [discriminate | reflexivity] | reflexivity]. }
  split; [exact plain_has_no_tag |]. split; [reflexivity |]. split; [exact Hp |].
  split; [exact reads_half |].
  apply (proj2 (fallback_format Examples.plain plain_has_no_tag
                  {| timestamp := 0.5; text := "hi there"; lineNumber := 1 |})).
  exists 0%nat, "0.5 hi there", "0.5", ["hi"; "there"], 0.5%float.
  split; [reflexivity |]. split; [exact Hp |]. split; [discriminate |].
  split; [exact reads_half |]. split; reflexivity.
Defined.

(** What is read at the start of the first token: a numeral with what
    follows it left aside, an exponent, a sign, a fraction with no
    integer part, the word Infinity; a negative number and a token that
    starts with no number give no record. *)
Example parseLyrics_numeric_prefix :
  map (fun line => map (fun r => (timestamp r, text r)) (parseLyrics line))
    ["12:30 hello"; "1e2 a"; "+3.25x b c"; ".5 d"; "5. e"; "Infinity f"; "1e g";
     "-1 h"; "notanumber i"; "7"; ". j"; "e5 k"]
  = [ [(12%float, "hello")]; [(100%float, "a")]; [(3.25%float, "b c")];
      [(0.5%float, "d")]; [(5%float, "e")]; [(infinity, "f")]; [(1%float, "g")];
      []; []; []; []; [] ].
Proof. vm_compute. reflexivity. Qed.

Example whole_number_examples :
  map whole_number
    ["0.5"; "2"; "1e3"; "-0"; "+3.25"; ".5"; "5."; "Infinity";
     "12:30"; "2nd"; "1e"; "notanumber"; EmptyString; "."; "7up"]
  = [true; true; true; true; true; true; true; true;
     false; false; false; false; false; false; false].
Proof. vm_compute. reflexivity. Qed.

End FallbackTheorems.
